(** * Servatio: the mirror-sync core, embedded in Rocq

    Shallow embedding of the decision logic and of the recursive mirror
    algorithm of Servatio:

    - [utils/helpers.py]: [is_excluded], [files_are_equal], [validate_paths],
      [get_total_files];
    - [core/sync_logic.py]: [sync_recursive], [safe_copy], [safe_remove];
    - [app1.py]: the stand-alone variant of the same engine;
    - [core/backup_task.py]: [BackupTask], [to_dict], [from_dict];
    - [utils/metrics.py]: the counters of [BackupMetrics].

    Conventions.  A character is an [ascii] (one code point below 256), a
    name is a [string], a path is the list of its segments from the root of
    the file system.  Modification times are exact rationals (seconds), and
    the first engines compare them exactly.  Exceptions are values of
    [exn]; a call that may raise returns a [result].  The engine threads a
    [state]: the file system, the metrics, the progress dictionary and the
    trace of the calls made to the two callbacks.  The environment is a
    predicate [denied] on paths, which makes the primitives of [os],
    [pathlib] and [shutil] fail; the depth of Python's call stack is a
    natural number.

    Three parts go further than these conventions.  [Host] and [CoreHost]
    take [core/sync_logic.py] on a host whose metadata reads can be refused
    and whose [mkdir], [copytree] and [rmtree] fail part-way; the
    statements on what is counted, on what reaches the caller and on the
    deletion pass are made there.  [Binary64] makes the float [st_mtime] of
    a time and compares two of them as [files_are_equal] does.  [Unicode]
    takes the serialisation of a task on strings of code points, with the
    surrogate pairs of [json]. *)

From Stdlib Require Import List String Ascii Bool Arith ZArith QArith Qabs
  Qround Lia.
From Stdlib Require SpecFloat.
Import ListNotations.
Close Scope Q_scope.

Set Implicit Arguments.
Set Warnings "-register-all".

(* ================================================================== *)
(** * Exceptions and results *)

Inductive exn : Type :=
| PermissionError
| FileNotFoundError
| FileExistsError
| NotADirectoryError
| IsADirectoryError
| ShutilError
| RecursionError
| KeyError
| JSONDecodeError.

(** [PermissionError], [FileNotFoundError], [FileExistsError],
    [NotADirectoryError], [IsADirectoryError] and [shutil.Error] are the
    subclasses of [OSError] that the model can raise. *)
Definition is_OSError (e : exn) : bool :=
  match e with
  | PermissionError | FileNotFoundError | FileExistsError
  | NotADirectoryError | IsADirectoryError | ShutilError => true
  | RecursionError | KeyError | JSONDecodeError => false
  end.

Inductive result (A : Type) : Type :=
| Ok (a : A)
| Raise (e : exn).
Arguments Ok {A} a.
Arguments Raise {A} e.

(* ================================================================== *)
(** * Characters and strings *)

Definition chars := list ascii.

Definition ascii_leb (a b : ascii) : bool := (nat_of_ascii a <=? nat_of_ascii b)%nat.

Fixpoint mem_string (x : string) (l : list string) : bool :=
  match l with
  | [] => false
  | y :: l' => String.eqb x y || mem_string x l'
  end.

(** [sep.join(parts)] *)
Fixpoint join (sep : string) (parts : list string) : string :=
  match parts with
  | [] => EmptyString
  | [x] => x
  | x :: rest => (x ++ sep ++ join sep rest)%string
  end.

(* ================================================================== *)
(** * [fnmatch]: shell-style globbing (standard library, POSIX flavour) *)

Module Glob.

(** One element of a translated pattern.  [TClass neg rs] is a bracket
    expression: the character must lie in one of the closed ranges [rs]
    (a single character [c] is the range [c-c]), or in none when [neg]. *)
Inductive tok : Type :=
| TStar
| TAny
| TLit (c : ascii)
| TClass (neg : bool) (ranges : list (ascii * ascii)).

(** Index-free reading of the scan for the closing bracket: the text
    before the first ["]"] and the text after it. *)
Fixpoint split_bracket (s : chars) : option (chars * chars) :=
  match s with
  | [] => None
  | c :: s' =>
      if Ascii.eqb c "]" then Some ([], s')
      else match split_bracket s' with
           | Some (body, rest) => Some (c :: body, rest)
           | None => None
           end
  end.

(** The members of a bracket body: [a-b] is a range, anything else a
    literal; a leading or trailing hyphen is a literal. *)
Fixpoint class_ranges (body : chars) : list (ascii * ascii) :=
  match body with
  | [] => []
  | c :: rest =>
      match rest with
      | h :: d :: rest' =>
          if Ascii.eqb h "-" then (c, d) :: class_ranges rest'
          else (c, c) :: class_ranges rest
      | _ => (c, c) :: class_ranges rest
      end
  end.

(** After ["["]: an optional ["!"], then an optional literal ["]"], then
    the body up to the closing ["]"].  [None] when there is no closing
    bracket (the ["["] is then an ordinary character). *)
Definition parse_class (s : chars) : option (tok * chars) :=
  let '(neg, s1) :=
    match s with
    | c :: s' => if Ascii.eqb c "!" then (true, s') else (false, s)
    | [] => (false, s)
    end in
  let '(first, s2) :=
    match s1 with
    | c :: s' => if Ascii.eqb c "]" then (["]"%char], s') else ([], s1)
    | [] => ([], s1)
    end in
  match split_bracket s2 with
  | Some (body, rest) => Some (TClass neg (class_ranges (first ++ body)), rest)
  | None => None
  end.

(** [fnmatch.translate]; the fuel bounds the number of tokens and is the
    length of the pattern. *)
Fixpoint translate_fuel (fuel : nat) (pat : chars) : list tok :=
  match fuel with
  | O => []
  | S fuel' =>
      match pat with
      | [] => []
      | c :: pat' =>
          if Ascii.eqb c "*" then TStar :: translate_fuel fuel' pat'
          else if Ascii.eqb c "?" then TAny :: translate_fuel fuel' pat'
          else if Ascii.eqb c "[" then
            match parse_class pat' with
            | Some (t, rest) => t :: translate_fuel fuel' rest
            | None => TLit c :: translate_fuel fuel' pat'
            end
          else TLit c :: translate_fuel fuel' pat'
      end
  end.

Definition translate (pat : chars) : list tok := translate_fuel (List.length pat) pat.

Definition in_ranges (x : ascii) (rs : list (ascii * ascii)) : bool :=
  existsb (fun r => ascii_leb (fst r) x && ascii_leb x (snd r)) rs.

(** Whole-string match of a translated pattern ([re.match] of
    [(?s:...)\Z]). *)
Fixpoint matches (p : list tok) (s : chars) : bool :=
  match p with
  | [] => match s with [] => true | _ :: _ => false end
  | TStar :: p' =>
      (fix star (s : chars) : bool :=
         matches p' s || match s with [] => false | _ :: s' => star s' end) s
  | TAny :: p' =>
      match s with [] => false | _ :: s' => matches p' s' end
  | TLit c :: p' =>
      match s with [] => false | x :: s' => Ascii.eqb x c && matches p' s' end
  | TClass neg rs :: p' =>
      match s with
      | [] => false
      | x :: s' => xorb neg (in_ranges x rs) && matches p' s'
      end
  end.

(** [os.path.normcase] on POSIX is the identity (on Windows it lowers the
    case and turns slashes into backslashes, in the name and in the
    pattern alike). *)
Definition normcase (s : string) : string := s.

Definition fnmatchcase (name pat : string) : bool :=
  matches (translate (list_ascii_of_string pat)) (list_ascii_of_string name).

Definition fnmatch (name pat : string) : bool :=
  fnmatchcase (normcase name) (normcase pat).

End Glob.

(* ================================================================== *)
(** * Paths *)

Definition path := list string.

(** [p / name] *)
Definition child (p : path) (name : string) : path := p ++ [name].

(** [p.parent]; the root is its own parent. *)
Definition parent (p : path) : path := removelast p.

(** [p.name] *)
Definition basename (p : path) : string := last p EmptyString.

(** [is_prefix p q]: [q] lies at or below [p]. *)
Fixpoint is_prefix (p q : path) : bool :=
  match p with
  | [] => true
  | a :: p' =>
      match q with
      | [] => false
      | b :: q' => String.eqb a b && is_prefix p' q'
      end
  end.

(** [p == q] *)
Definition path_eqb (p q : path) : bool :=
  (List.length p =? List.length q)%nat && is_prefix p q.

(** [p.relative_to(base)]: [None] stands for the [ValueError] raised when
    [p] is not inside [base]. *)
Fixpoint relative_to (p base : path) : option path :=
  match base with
  | [] => Some p
  | b :: base' =>
      match p with
      | [] => None
      | x :: p' => if String.eqb x b then relative_to p' base' else None
      end
  end.

(** [as_posix()] of a relative path; the empty relative path prints as a dot. *)
Definition as_posix (rel : path) : string :=
  match rel with
  | [] => "."%string
  | _ => join "/" rel
  end.

(** [utils/helpers.py: is_excluded] *)
Definition is_excluded (p : path) (exclude_patterns : list string) (base_path : path) : bool :=
  match relative_to p base_path with
  | None => false
  | Some rel =>
      let rel_path := as_posix rel in
      existsb (fun pattern =>
                 Glob.fnmatch rel_path pattern
                 || Glob.fnmatch rel_path ("**/" ++ pattern)%string)
              exclude_patterns
  end.

(* ================================================================== *)
(** * The file system *)

(** A regular file carries what [stat] reports and [copy2] preserves; a
    directory is the ordered listing of its children (the order in which
    [iterdir] yields them).  Directories carry no metadata, and there are no
    symbolic links or special files. *)
Inductive node : Type :=
| File (st_size : Z) (st_mtime : Q)
| Dir (entries : list (string * node)).

Definition listing := list (string * node).

Fixpoint assoc (k : string) (es : listing) : option node :=
  match es with
  | [] => None
  | (k', v) :: es' => if String.eqb k k' then Some v else assoc k es'
  end.

Fixpoint set_entry (k : string) (v : node) (es : listing) : listing :=
  match es with
  | [] => [(k, v)]
  | (k', v') :: es' =>
      if String.eqb k k' then (k, v) :: es' else (k', v') :: set_entry k v es'
  end.

Fixpoint remove_entry (k : string) (es : listing) : listing :=
  match es with
  | [] => []
  | (k', v') :: es' =>
      if String.eqb k k' then remove_entry k es' else (k', v') :: remove_entry k es'
  end.

Definition names (es : listing) : list string := map fst es.

Fixpoint lookup (p : path) (n : node) : option node :=
  match p with
  | [] => Some n
  | k :: p' =>
      match n with
      | File _ _ => None
      | Dir es =>
          match assoc k es with
          | Some c => lookup p' c
          | None => None
          end
      end
  end.

(** Replace ([Some]) or drop ([None]) the entry at [p]; nothing happens when
    the parent of [p] is not an existing directory, or when [p] is the root. *)
Fixpoint update (p : path) (v : option node) (n : node) : node :=
  match p with
  | [] => n
  | k :: p' =>
      match n with
      | File _ _ => n
      | Dir es =>
          match p' with
          | [] =>
              Dir (match v with
                   | Some c => set_entry k c es
                   | None => remove_entry k es
                   end)
          | _ :: _ =>
              match assoc k es with
              | Some c => Dir (set_entry k (update p' v c) es)
              | None => n
              end
          end
      end
  end.

(** [p.exists()], [p.is_dir()], [p.is_file()] *)
Definition exists_ (fs : node) (p : path) : bool :=
  match lookup p fs with Some _ => true | None => false end.

Definition is_dir (fs : node) (p : path) : bool :=
  match lookup p fs with Some (Dir _) => true | _ => false end.

Definition is_file (fs : node) (p : path) : bool :=
  match lookup p fs with Some (File _ _) => true | _ => false end.

Record stat_result : Type := mkStat { size_of : Z; mtime_of : Q }.

(** [p.stat()].  Only regular files have metadata in this model; the engine
    calls [stat] on paths for which [is_file] holds. *)
Definition stat (fs : node) (p : path) : result stat_result :=
  match lookup p fs with
  | Some (File sz mt) => Ok (mkStat sz mt)
  | Some (Dir _) => Raise IsADirectoryError
  | None => Raise FileNotFoundError
  end.

(** [copytree(..., dirs_exist_ok=True)] onto an existing directory: the
    source tree is laid over the destination tree.  The boolean is [false]
    when some entry could not be copied ([shutil.Error] is raised at the
    end). *)
Fixpoint overlay (s d : node) {struct s} : node * bool :=
  match s, d with
  | Dir es, Dir ds =>
      (fix go (es : listing) (ds : listing) (ok : bool) {struct es} : node * bool :=
         match es with
         | [] => (Dir ds, ok)
         | (k, v) :: es' =>
             match assoc k ds with
             | None => go es' (set_entry k v ds) ok
             | Some c =>
                 match v, c with
                 | File _ _, File _ _ => go es' (set_entry k v ds) ok
                 | File _ _, Dir cs =>
                     match assoc k cs with
                     | Some (Dir _) => go es' ds false
                     | _ => go es' (set_entry k (Dir (set_entry k v cs)) ds) ok
                     end
                 | Dir _, File _ _ => go es' ds false
                 | Dir _, Dir _ =>
                     let (c', ok') := overlay v c in
                     go es' (set_entry k c' ds) (ok && ok')
                 end
             end
         end) es ds true
  | _, _ => (d, false)
  end.

Section Primitives.

(** The environment decides which paths refuse access: a primitive raises
    [PermissionError] when one of the paths it is called on is denied (the
    paths below them are not consulted).  A primitive that raises leaves the
    file system as it was.  Reading metadata ([exists], [is_dir], [is_file],
    [stat]) is never refused. *)
Variable denied : path -> bool.

(** [os.makedirs]-like descent: create what is missing on the way to [p].
    [pre] is the path walked so far. *)
Fixpoint mkdir_walk (pre p : path) (n : node) : result node :=
  match p with
  | [] =>
      match n with
      | Dir _ => Ok n
      | File _ _ => Raise FileExistsError
      end
  | k :: p' =>
      match n with
      | File _ _ => Raise NotADirectoryError
      | Dir es =>
          match assoc k es with
          | Some c =>
              match mkdir_walk (pre ++ [k]) p' c with
              | Ok c' => Ok (Dir (set_entry k c' es))
              | Raise e => Raise e
              end
          | None =>
              if denied (pre ++ [k]) then Raise PermissionError
              else
                match mkdir_walk (pre ++ [k]) p' (Dir []) with
                | Ok c' => Ok (Dir (set_entry k c' es))
                | Raise e => Raise e
                end
          end
      end
  end.

(** [p.mkdir(parents=True, exist_ok=True)] *)
Definition mkdir_parents (p : path) (fs : node) : result node :=
  match lookup p fs with
  | Some (Dir _) => Ok fs
  | Some (File _ _) => Raise FileExistsError
  | None => mkdir_walk [] p fs
  end.

(** [p.iterdir()], as the list of the children's names *)
Definition iterdir (p : path) (fs : node) : result (list string) :=
  if denied p then Raise PermissionError
  else match lookup p fs with
       | Some (Dir es) => Ok (names es)
       | Some (File _ _) => Raise NotADirectoryError
       | None => Raise FileNotFoundError
       end.

(** [shutil.copy2(src, dst)]: contents and metadata; when [dst] is a
    directory the file goes inside it under its own name; copying a file
    onto itself is refused ([shutil.SameFileError]). *)
Definition copy2 (src dst : path) (fs : node) : result node :=
  if denied src || denied dst then Raise PermissionError
  else match lookup src fs with
       | None => Raise FileNotFoundError
       | Some (Dir _) => Raise IsADirectoryError
       | Some (File sz mt) =>
           let target := if is_dir fs dst then child dst (basename src) else dst in
           if path_eqb src target then Raise ShutilError
           else if is_dir fs target then Raise IsADirectoryError
           else if is_dir fs (parent target)
                then Ok (update target (Some (File sz mt)) fs)
                else Raise FileNotFoundError
       end.

(** [shutil.copytree(src, dst, dirs_exist_ok=True)]: no [ignore] argument
    is given, every entry below [src] is copied. *)
Definition copytree (src dst : path) (fs : node) : result node :=
  if denied src || denied dst then Raise PermissionError
  else match lookup src fs with
       | None => Raise FileNotFoundError
       | Some (File _ _) => Raise NotADirectoryError
       | Some (Dir es) =>
           match lookup dst fs with
           | Some (File _ _) => Raise FileExistsError
           | Some (Dir ds) =>
               let (merged, ok) := overlay (Dir es) (Dir ds) in
               if ok then Ok (update dst (Some merged) fs) else Raise ShutilError
           | None =>
               match mkdir_parents (parent dst) fs with
               | Ok fs1 => Ok (update dst (Some (Dir es)) fs1)
               | Raise e => Raise e
               end
           end
       end.

(** [p.unlink()] *)
Definition unlink (p : path) (fs : node) : result node :=
  if denied p then Raise PermissionError
  else match lookup p fs with
       | Some (File _ _) => Ok (update p None fs)
       | Some (Dir _) => Raise IsADirectoryError
       | None => Raise FileNotFoundError
       end.

(** [shutil.rmtree(p)] *)
Definition rmtree (p : path) (fs : node) : result node :=
  if denied p then Raise PermissionError
  else match lookup p fs with
       | Some (Dir _) => Ok (update p None fs)
       | Some (File _ _) => Raise NotADirectoryError
       | None => Raise FileNotFoundError
       end.

End Primitives.

(** [a < b] on rationals *)
Definition Qlt_bool (a b : Q) : bool := negb (Qle_bool b a).

(** [utils/helpers.py: files_are_equal] *)
Definition files_are_equal (fs : node) (file1 file2 : path) : result bool :=
  if negb (exists_ fs file2) then Ok false
  else
    match stat fs file1 with
    | Raise e => Raise e
    | Ok stat1 =>
        match stat fs file2 with
        | Raise e => Raise e
        | Ok stat2 =>
            Ok (Z.eqb (size_of stat1) (size_of stat2)
                && Qlt_bool (Qabs (mtime_of stat1 - mtime_of stat2)) 1)%Q
        end
    end.

(** The regular files below a node, as paths relative to it: what
    [rglob("*")] yields and [is_file()] keeps. *)
Fixpoint files_below (n : node) : list path :=
  match n with
  | File _ _ => [[]]
  | Dir es =>
      (fix walk (es : listing) : list path :=
         match es with
         | [] => []
         | (k, c) :: es' => map (cons k) (files_below c) ++ walk es'
         end) es
  end.

(** [utils/helpers.py: get_total_files], when no directory refuses access *)
Definition get_total_files (fs : node) (src : path) (exclude_patterns : list string)
  : nat :=
  match lookup src fs with
  | Some (Dir es) =>
      List.length
        (filter (fun rel => negb (is_excluded (src ++ rel) exclude_patterns src))
                (files_below (Dir es)))
  | _ => 0
  end.

(* ================================================================== *)
(** * Tasks, metrics, callbacks *)

(** [core/backup_task.py: DEFAULT_EXCLUDE_PATTERNS] *)
Definition DEFAULT_EXCLUDE_PATTERNS : list string :=
  [ "*.tmp"; "*.log"; ".git"; ".gitignore"; "__pycache__"; "*.pyc";
    ".DS_Store"; "Thumbs.db"; "desktop.ini"; "$RECYCLE.BIN";
    "System Volume Information" ]%string.

(** [BackupTask]; [P] is the type of the path objects held in [source] and
    [destination] (the engine works on [path]). *)
Record BackupTask (P : Type) : Type := mkBackupTask {
  name : string;
  source : P;
  destination : P;
  exclude_patterns : list string;
  delete_extra : bool
}.

(** [utils/metrics.py: BackupMetrics], without the two wall-clock fields *)
Record BackupMetrics : Type := mkMetrics {
  total_files : nat;
  copied_files : nat;
  errors : nat
}.

(** The module-level [progress_info] dictionary (without its lock) *)
Record ProgressInfo : Type := mkProgress {
  pi_total_files : nat;
  processed_files : nat;
  current_file : string
}.

(** The lines handed to [log_callback] *)
Inductive message : Type :=
| MsgSourceMissing (src : path)
| MsgNoAccess (src dst : path) (e : exn)
| MsgAccessError (src dst : path) (e : exn)
| MsgCopied (src dst : path)
| MsgCopyError (src dst : path) (e : exn)
| MsgRemoved (p : path)
| MsgRemoveError (p : path) (e : exn).

(** A call of one of the two callbacks.  [Progress] records what
    [update_progress()] can observe when it is called. *)
Inductive event : Type :=
| Log (m : message)
| Progress (m : BackupMetrics) (pi : ProgressInfo).

Record state : Type := mkState {
  fs : node;
  metrics : BackupMetrics;
  progress_info : ProgressInfo;
  trace : list event
}.

Definition with_fs (fs' : node) (st : state) : state :=
  mkState fs' (metrics st) (progress_info st) (trace st).

Definition log_callback (m : message) (st : state) : state :=
  mkState (fs st) (metrics st) (progress_info st) (trace st ++ [Log m]).

Definition update_progress (st : state) : state :=
  mkState (fs st) (metrics st) (progress_info st)
          (trace st ++ [Progress (metrics st) (progress_info st)]).

(** [metrics.copied_files += 1] and [metrics.errors += 1] *)
Definition incr_copied (st : state) : state :=
  mkState (fs st)
          (mkMetrics (total_files (metrics st)) (S (copied_files (metrics st)))
                     (errors (metrics st)))
          (progress_info st) (trace st).

Definition incr_errors (st : state) : state :=
  mkState (fs st)
          (mkMetrics (total_files (metrics st)) (copied_files (metrics st))
                     (S (errors (metrics st))))
          (progress_info st) (trace st).

(** [progress_info["processed_files"] += 1; progress_info["current_file"] = name] *)
Definition incr_processed (file_name : string) (st : state) : state :=
  mkState (fs st) (metrics st)
          (mkProgress (pi_total_files (progress_info st))
                      (S (processed_files (progress_info st))) file_name)
          (trace st).

(** How a call ends: it returns, or an exception leaves it. *)
Inductive outcome : Type :=
| Returned
| Raised (e : exn).

(* ================================================================== *)
(** * [core/sync_logic.py] *)

Module Core.
Section Engine.

Variable denied : path -> bool.

Definition safe_copy (src dst : path) (st : state) : state :=
  match mkdir_parents denied (parent dst) (fs st) with
  | Raise e => incr_errors (log_callback (MsgCopyError src dst e) st)
  | Ok fs1 =>
      if is_dir fs1 src then
        match copytree denied src dst fs1 with
        | Ok fs2 => log_callback (MsgCopied src dst) (with_fs fs2 st)
        | Raise e =>
            incr_errors (log_callback (MsgCopyError src dst e) (with_fs fs1 st))
        end
      else
        match copy2 denied src dst fs1 with
        | Ok fs2 =>
            log_callback (MsgCopied src dst)
              (update_progress (incr_copied (with_fs fs2 st)))
        | Raise e =>
            incr_errors (log_callback (MsgCopyError src dst e) (with_fs fs1 st))
        end
  end.

Definition safe_remove (p : path) (st : state) : state :=
  match (if is_dir (fs st) p then rmtree denied p (fs st)
         else unlink denied p (fs st)) with
  | Ok fs1 => log_callback (MsgRemoved p) (with_fs fs1 st)
  | Raise e => incr_errors (log_callback (MsgRemoveError p e) st)
  end.

(** The body of the first [for] loop, for one [name] of [src_items];
    [recurse] is the recursive call of line 38. *)
Definition sync_item (recurse : state -> outcome * state)
           (src dst : path) (dst_items : list string)
           (name : string) (st : state) : outcome * state :=
  let src_path := child src name in
  let dst_path := child dst name in
  if negb (mem_string name dst_items) then
    (Returned, safe_copy src_path dst_path st)
  else
    let existing_dst := child dst name in
    if is_dir (fs st) src_path && is_dir (fs st) existing_dst then
      recurse st
    else if is_file (fs st) src_path && is_file (fs st) existing_dst then
      match files_are_equal (fs st) src_path existing_dst with
      | Raise e => (Raised e, st)
      | Ok true => (Returned, st)
      | Ok false => (Returned, safe_copy src_path dst_path st)
      end
    else
      (Returned, safe_copy src_path dst_path (safe_remove existing_dst st)).

(** [for name, src_path in src_items.items(): ...] *)
Fixpoint copy_pass (recurse : state -> outcome * state)
         (src dst : path) (dst_items : list string)
         (src_items : list string) (st : state) : outcome * state :=
  match src_items with
  | [] => (Returned, st)
  | name :: rest =>
      match sync_item recurse src dst dst_items name st with
      | (Returned, st1) => copy_pass recurse src dst dst_items rest st1
      | (Raised e, st1) => (Raised e, st1)
      end
  end.

(** [for name, dst_path in dst_items.items(): if name not in src_items: ...] *)
Fixpoint delete_pass (dst : path) (src_items : list string)
         (dst_items : list string) (st : state) : state :=
  match dst_items with
  | [] => st
  | name :: rest =>
      if negb (mem_string name src_items)
      then delete_pass dst src_items rest (safe_remove (child dst name) st)
      else delete_pass dst src_items rest st
  end.

(** The keys of [src_items]: the children of [src] that are not excluded.
    The dictionaries [src_items] and [dst_items] are modelled by their keys,
    in the order of the listing; the value under the key [name] is the path
    [src / name] (resp. [dst / name]).  A directory lists each name once. *)
Definition filter_excluded (src : path) (exclude_patterns : list string)
           (children : list string) : list string :=
  filter (fun n => negb (is_excluded (child src n) exclude_patterns src)) children.

(** The body of [sync_recursive(task, metrics, log_callback,
    update_progress, should_delete)]; [recurse] is the call of line 38,
    [sync_recursive(task, metrics, log_callback, update_progress,
    should_delete)] itself. *)
Definition sync_body (recurse : state -> outcome * state)
           (task : BackupTask path) (should_delete : bool) (st : state)
  : outcome * state :=
  let src := source task in
  let dst := destination task in
  let exclude_patterns := exclude_patterns task in
  if negb (exists_ (fs st) src) then
    (Returned, log_callback (MsgSourceMissing src) st)
  else
    match mkdir_parents denied dst (fs st) with
    | Raise e => (Raised e, st)
    | Ok fs1 =>
        let st1 := with_fs fs1 st in
        let listed :=
          match iterdir denied src fs1 with
          | Raise e => Raise e
          | Ok children =>
              match iterdir denied dst fs1 with
              | Raise e => Raise e
              | Ok dst_items =>
                  Ok (filter_excluded src exclude_patterns children, dst_items)
              end
          end in
        match listed with
        | Raise PermissionError =>
            (Returned, log_callback (MsgNoAccess src dst PermissionError) st1)
        | Raise e =>
            if is_OSError e
            then (Returned, log_callback (MsgAccessError src dst e) st1)
            else (Raised e, st1)
        | Ok (src_items, dst_items) =>
            match copy_pass recurse src dst dst_items src_items st1 with
            | (Raised e, st2) => (Raised e, st2)
            | (Returned, st2) =>
                if should_delete
                then (Returned, delete_pass dst src_items dst_items st2)
                else (Returned, st2)
            end
        end
    end.

(** [sync_recursive]: [fuel] is the depth of Python's call stack that is
    left; a call made when it is used up raises [RecursionError]. *)
Fixpoint sync_recursive (fuel : nat) (task : BackupTask path)
         (should_delete : bool) (st : state) : outcome * state :=
  match fuel with
  | O => (Raised RecursionError, st)
  | S fuel' =>
      sync_body (sync_recursive fuel' task should_delete) task should_delete st
  end.

End Engine.
End Core.

(* ================================================================== *)
(** * [app1.py]: the stand-alone engine *)

Module App1.
Section Engine.

Variable denied : path -> bool.

Definition safe_copy (src dst : path) (st : state) : state :=
  match mkdir_parents denied (parent dst) (fs st) with
  | Raise e => log_callback (MsgCopyError src dst e) st
  | Ok fs1 =>
      if is_dir fs1 src then
        match copytree denied src dst fs1 with
        | Ok fs2 => log_callback (MsgCopied src dst) (with_fs fs2 st)
        | Raise e => log_callback (MsgCopyError src dst e) (with_fs fs1 st)
        end
      else
        match copy2 denied src dst fs1 with
        | Ok fs2 =>
            log_callback (MsgCopied src dst)
              (update_progress (incr_processed (basename src) (with_fs fs2 st)))
        | Raise e => log_callback (MsgCopyError src dst e) (with_fs fs1 st)
        end
  end.

Definition safe_remove (p : path) (st : state) : state :=
  match (if is_dir (fs st) p then rmtree denied p (fs st)
         else unlink denied p (fs st)) with
  | Ok fs1 => log_callback (MsgRemoved p) (with_fs fs1 st)
  | Raise e => log_callback (MsgRemoveError p e) st
  end.

Definition sync_item (recurse : path -> path -> state -> outcome * state)
           (src dst : path) (dst_items : list string)
           (name : string) (st : state) : outcome * state :=
  let src_path := child src name in
  let dst_path := child dst name in
  if negb (mem_string name dst_items) then
    (Returned, safe_copy src_path dst_path st)
  else
    let existing_dst := child dst name in
    if is_dir (fs st) src_path && is_dir (fs st) existing_dst then
      recurse src_path existing_dst st
    else if is_file (fs st) src_path && is_file (fs st) existing_dst then
      match files_are_equal (fs st) src_path existing_dst with
      | Raise e => (Raised e, st)
      | Ok true => (Returned, st)
      | Ok false => (Returned, safe_copy src_path dst_path st)
      end
    else
      (Returned, safe_copy src_path dst_path (safe_remove existing_dst st)).

Fixpoint copy_pass (recurse : path -> path -> state -> outcome * state)
         (src dst : path) (dst_items : list string)
         (src_items : list string) (st : state) : outcome * state :=
  match src_items with
  | [] => (Returned, st)
  | name :: rest =>
      match sync_item recurse src dst dst_items name st with
      | (Returned, st1) => copy_pass recurse src dst dst_items rest st1
      | (Raised e, st1) => (Raised e, st1)
      end
  end.

Fixpoint delete_pass (dst : path) (src_items : list string)
         (dst_items : list string) (st : state) : state :=
  match dst_items with
  | [] => st
  | name :: rest =>
      if negb (mem_string name src_items)
      then delete_pass dst src_items rest (safe_remove (child dst name) st)
      else delete_pass dst src_items rest st
  end.

(** The body of [sync_recursive(src, dst, exclude_patterns, log_callback,
    update_progress, should_delete)]; [recurse s d] is the call of line
    223, [sync_recursive(s, d, exclude_patterns, ...)].  Only
    [PermissionError] is caught around the two listings. *)
Definition sync_body (recurse : path -> path -> state -> outcome * state)
           (src dst : path) (exclude_patterns : list string)
           (should_delete : bool) (st : state) : outcome * state :=
  if negb (exists_ (fs st) src) then
    (Returned, log_callback (MsgSourceMissing src) st)
  else
    match mkdir_parents denied dst (fs st) with
    | Raise e => (Raised e, st)
    | Ok fs1 =>
        let st1 := with_fs fs1 st in
        let listed :=
          match iterdir denied src fs1 with
          | Raise e => Raise e
          | Ok children =>
              match iterdir denied dst fs1 with
              | Raise e => Raise e
              | Ok dst_items =>
                  Ok (Core.filter_excluded src exclude_patterns children, dst_items)
              end
          end in
        match listed with
        | Raise PermissionError =>
            (Returned, log_callback (MsgNoAccess src dst PermissionError) st1)
        | Raise e => (Raised e, st1)
        | Ok (src_items, dst_items) =>
            match copy_pass recurse src dst dst_items src_items st1 with
            | (Raised e, st2) => (Raised e, st2)
            | (Returned, st2) =>
                if should_delete
                then (Returned, delete_pass dst src_items dst_items st2)
                else (Returned, st2)
            end
        end
    end.

Fixpoint sync_recursive (fuel : nat) (src dst : path)
         (exclude_patterns : list string) (should_delete : bool)
         (st : state) : outcome * state :=
  match fuel with
  | O => (Raised RecursionError, st)
  | S fuel' =>
      sync_body
        (fun s d => sync_recursive fuel' s d exclude_patterns should_delete)
        src dst exclude_patterns should_delete st
  end.

End Engine.
End App1.

(* ================================================================== *)
(** * [utils/helpers.py: validate_paths] *)

Definition is_lower (c : ascii) : bool := ascii_leb "a" c && ascii_leb c "z".
Definition is_upper (c : ascii) : bool := ascii_leb "A" c && ascii_leb c "Z".

Definition upper_char (c : ascii) : ascii :=
  if is_lower c then ascii_of_nat (nat_of_ascii c - 32) else c.

Definition lower_char (c : ascii) : ascii :=
  if is_upper c then ascii_of_nat (nat_of_ascii c + 32) else c.

Fixpoint map_string (f : ascii -> ascii) (s : string) : string :=
  match s with
  | EmptyString => EmptyString
  | String c s' => String (f c) (map_string f s')
  end.

(** [s.upper()] and [s.lower()], on the letters of ASCII *)
Definition upper (s : string) : string := map_string upper_char s.
Definition lower (s : string) : string := map_string lower_char s.

Definition backslash : ascii := "\"%char.
Definition slash : ascii := "/"%char.

Definition is_separator (c : ascii) : bool :=
  Ascii.eqb c backslash || Ascii.eqb c slash.

(** [s.rstrip("\\/")] *)
Fixpoint rstrip_separators (s : string) : string :=
  match s with
  | EmptyString => EmptyString
  | String c s' =>
      match rstrip_separators s' with
      | EmptyString => if is_separator c then EmptyString else String c EmptyString
      | r => String c r
      end
  end.

(** The three messages of the [ValueError]s of [validate_paths] *)
Inductive ValueError : Type :=
| NotAbsolute
| SameLocation
| DriveRootForbidden.

Definition drive_letters : list ascii :=
  list_ascii_of_string "CDEFGHIJKLMNOPQRSTUVWXYZ".

(** [dangerous = [f"{d}:\\" for d in "CDEFGHIJKLMNOPQRSTUVWXYZ"]] *)
Definition dangerous : list string :=
  map (fun d => String d (String ":" (String backslash EmptyString))) drive_letters.

Section PathGuard.

(** A path object is given by [str(p)]; [pathlib] supplies
    [p.is_absolute()] and the test [a.resolve() == b.resolve()]. *)
Variable is_absolute : string -> bool.
Variable same_resolved : string -> string -> bool.

(** [None]: the call returns; [Some e]: it raises [ValueError]. *)
Definition validate_paths (src dst : string) : option ValueError :=
  if negb (is_absolute src) || negb (is_absolute dst) then Some NotAbsolute
  else if same_resolved src dst then Some SameLocation
  else
    let dst_clean := upper (rstrip_separators dst) in
    if mem_string dst_clean (map upper dangerous)
    then Some DriveRootForbidden
    else None.

End PathGuard.

(* ================================================================== *)
(** * [json.dumps] and [json.loads] on lists of strings *)

Module Json.

Definition dquote : ascii := "034"%char.

Definition hex_digit (n : nat) : ascii :=
  if (n <? 10)%nat then ascii_of_nat (48 + n) else ascii_of_nat (87 + n).

Definition hex_value (c : ascii) : option nat :=
  let n := nat_of_ascii c in
  if ((48 <=? n) && (n <=? 57))%nat then Some (n - 48)
  else if ((97 <=? n) && (n <=? 102))%nat then Some (n - 87)
  else if ((65 <=? n) && (n <=? 70))%nat then Some (n - 55)
  else None.

(** [ensure_ascii=True]: everything outside the printable ASCII range,
    the quote and the backslash are escaped. *)
Definition escape_char (c : ascii) : chars :=
  let n := nat_of_ascii c in
  if Ascii.eqb c dquote then [backslash; dquote]
  else if Ascii.eqb c backslash then [backslash; backslash]
  else if (n =? 10)%nat then [backslash; "n"%char]
  else if (n =? 13)%nat then [backslash; "r"%char]
  else if (n =? 9)%nat then [backslash; "t"%char]
  else if (n =? 8)%nat then [backslash; "b"%char]
  else if (n =? 12)%nat then [backslash; "f"%char]
  else if ((32 <=? n) && (n <=? 126))%nat then [c]
  else [backslash; "u"%char; "0"%char; "0"%char;
        hex_digit (n / 16); hex_digit (n mod 16)].

Definition encode_string (s : string) : chars :=
  dquote :: flat_map escape_char (list_ascii_of_string s) ++ [dquote].

Fixpoint encode_items (l : list string) : chars :=
  match l with
  | [] => []
  | [s] => encode_string s
  | s :: rest => encode_string s ++ ","%char :: " "%char :: encode_items rest
  end.

(** [json.dumps(l)] for a list of strings *)
Definition dumps (l : list string) : string :=
  string_of_list_ascii ("["%char :: encode_items l ++ ["]"%char]).

(** The decoder is a scanner over the characters of the document.  It
    accepts the JSON arrays of strings (the documents [to_dict] writes),
    with escapes that denote a character of the model, and rejects every
    other document with [JSONDecodeError]. *)
Inductive jstate : Type :=
| JStart
| JOpen
| JValue (acc : list string)
| JString (acc : list string) (cur : chars)
| JEscape (acc : list string) (cur : chars)
| JHex (acc : list string) (cur : chars) (digits : list nat)
| JAfter (acc : list string)
| JEnd (acc : list string)
| JFail.

Definition is_space (c : ascii) : bool :=
  let n := nat_of_ascii c in
  ((n =? 32) || (n =? 9) || (n =? 10) || (n =? 13))%nat.

Definition unescape (c : ascii) : option ascii :=
  if Ascii.eqb c dquote then Some dquote
  else if Ascii.eqb c backslash then Some backslash
  else if Ascii.eqb c "/" then Some "/"%char
  else if Ascii.eqb c "b" then Some (ascii_of_nat 8)
  else if Ascii.eqb c "f" then Some (ascii_of_nat 12)
  else if Ascii.eqb c "n" then Some (ascii_of_nat 10)
  else if Ascii.eqb c "r" then Some (ascii_of_nat 13)
  else if Ascii.eqb c "t" then Some (ascii_of_nat 9)
  else None.

Definition step (s : jstate) (c : ascii) : jstate :=
  match s with
  | JStart =>
      if is_space c then JStart
      else if Ascii.eqb c "[" then JOpen else JFail
  | JOpen =>
      if is_space c then JOpen
      else if Ascii.eqb c "]" then JEnd []
      else if Ascii.eqb c dquote then JString [] []
      else JFail
  | JValue acc =>
      if is_space c then JValue acc
      else if Ascii.eqb c dquote then JString acc []
      else JFail
  | JString acc cur =>
      if Ascii.eqb c dquote then JAfter (string_of_list_ascii cur :: acc)
      else if Ascii.eqb c backslash then JEscape acc cur
      else if (nat_of_ascii c <? 32)%nat then JFail
      else JString acc (cur ++ [c])
  | JEscape acc cur =>
      if Ascii.eqb c "u" then JHex acc cur []
      else match unescape c with
           | Some x => JString acc (cur ++ [x])
           | None => JFail
           end
  | JHex acc cur digits =>
      match hex_value c with
      | None => JFail
      | Some d =>
          match digits with
          | [d1; d2; d3] =>
              let v := ((d1 * 16 + d2) * 16 + d3) * 16 + d in
              if (v <? 256)%nat then JString acc (cur ++ [ascii_of_nat v])
              else JFail
          | _ => JHex acc cur (digits ++ [d])
          end
      end
  | JAfter acc =>
      if is_space c then JAfter acc
      else if Ascii.eqb c "," then JValue acc
      else if Ascii.eqb c "]" then JEnd acc
      else JFail
  | JEnd acc => if is_space c then JEnd acc else JFail
  | JFail => JFail
  end.

Definition run (s : jstate) (doc : chars) : jstate := fold_left step doc s.

(** [json.loads(doc)] *)
Definition loads (doc : string) : result (list string) :=
  match run JStart (list_ascii_of_string doc) with
  | JEnd acc => Ok (rev acc)
  | _ => Raise JSONDecodeError
  end.

End Json.

(* ================================================================== *)
(** * [core/backup_task.py] *)

Definition dict := list (string * string).

(** [data.get(key)] *)
Fixpoint dict_get (key : string) (data : dict) : option string :=
  match data with
  | [] => None
  | (k, v) :: data' => if String.eqb key k then Some v else dict_get key data'
  end.

(** [data.get(key, default)] *)
Definition dict_get_default (key default : string) (data : dict) : string :=
  match dict_get key data with
  | Some v => v
  | None => default
  end.

(** [str(b)] for a boolean *)
Definition str_bool (b : bool) : string :=
  if b then "True"%string else "False"%string.

Section Task.

(** [pathlib]: the constructor [Path(s)] and [str(p)] *)
Variable P : Type.
Variable Path : string -> P.
Variable str : P -> string.

(** [BackupTask.__init__]: [exclude_patterns or DEFAULT_EXCLUDE_PATTERNS.copy()]
    takes the defaults for [None] and for the empty list alike. *)
Definition BackupTask_init (name source destination : string)
           (exclude_patterns : option (list string)) (delete_extra : bool)
  : BackupTask P :=
  mkBackupTask name (Path source) (Path destination)
               (match exclude_patterns with
                | Some (x :: l) => x :: l
                | Some [] | None => DEFAULT_EXCLUDE_PATTERNS
                end)
               delete_extra.

Definition to_dict (t : BackupTask P) : dict :=
  [ ("name", name t);
    ("source", str (source t));
    ("destination", str (destination t));
    ("exclude_patterns", Json.dumps (exclude_patterns t));
    ("delete_extra", str_bool (delete_extra t)) ]%string.

Definition from_dict (data : dict) : result (BackupTask P) :=
  match dict_get "name" data with
  | None => Raise KeyError
  | Some name =>
      match dict_get "source" data with
      | None => Raise KeyError
      | Some source =>
          match dict_get "destination" data with
          | None => Raise KeyError
          | Some destination =>
              match Json.loads (dict_get_default "exclude_patterns" "[]" data) with
              | Raise e => Raise e
              | Ok patterns =>
                  Ok (BackupTask_init name source destination (Some patterns)
                        (String.eqb
                           (lower (dict_get_default "delete_extra" "True" data))
                           "true"))
              end
          end
      end
  end.

End Task.

(* ================================================================== *)
(** * Vocabulary of the statements *)

(** [diverge p q]: the two paths part at some segment, so that neither lies
    at or below the other. *)
Fixpoint diverge (p q : path) : bool :=
  match p, q with
  | a :: p', b :: q' => if String.eqb a b then diverge p' q' else true
  | _, _ => false
  end.

(** The last character of a string *)
Fixpoint last_char (s : string) : option ascii :=
  match s with
  | EmptyString => None
  | String c EmptyString => Some c
  | String _ s' => last_char s'
  end.

(** The names of the children of the directory at [p] ([[]] when [p] is not a
    directory). *)
Definition children_names (fs : node) (p : path) : list string :=
  match lookup p fs with
  | Some (Dir es) => names es
  | _ => []
  end.

(** The number of regular files in a tree *)
Fixpoint count_files (n : node) : nat :=
  match n with
  | File _ _ => 1
  | Dir es =>
      (fix sum (es : listing) : nat :=
         match es with
         | [] => 0
         | (_, c) :: es' => count_files c + sum es'
         end) es
  end.

Definition count_files_at (fs : node) (p : path) : nat :=
  match lookup p fs with
  | Some n => count_files n
  | None => 0
  end.

(** Reading a trace *)
Definition is_progress (e : event) : bool :=
  match e with Progress _ _ => true | Log _ => false end.

Definition is_failure (e : event) : bool :=
  match e with
  | Log (MsgCopyError _ _ _) | Log (MsgRemoveError _ _) => true
  | _ => false
  end.

Definition count_events (f : event -> bool) (evs : list event) : nat :=
  List.length (filter f evs).

(** The copies attempted, in order: source and destination of every
    ["copied"] and every ["copy failed"] line. *)
Fixpoint copy_attempts (evs : list event) : list (path * path) :=
  match evs with
  | [] => []
  | Log (MsgCopied s d) :: evs' => (s, d) :: copy_attempts evs'
  | Log (MsgCopyError s d _) :: evs' => (s, d) :: copy_attempts evs'
  | _ :: evs' => copy_attempts evs'
  end.

(** The removals attempted, in order *)
Fixpoint remove_attempts (evs : list event) : list path :=
  match evs with
  | [] => []
  | Log (MsgRemoved p) :: evs' => p :: remove_attempts evs'
  | Log (MsgRemoveError p _) :: evs' => p :: remove_attempts evs'
  | _ :: evs' => remove_attempts evs'
  end.

(** [accounted st st']: from [st] to [st'] the trace has only grown, by
    events among which the failure lines are as many as the increase of
    [errors] and the calls of [update_progress] as many as the increase of
    [copied_files]. *)
Definition accounted (st st' : state) : Prop :=
  exists evs,
    trace st' = trace st ++ evs
    /\ errors (metrics st') = errors (metrics st) + count_events is_failure evs
    /\ copied_files (metrics st')
       = copied_files (metrics st) + count_events is_progress evs.

(** What a successful primitive may have changed: nothing at a path that
    diverges from its target [d], and the parent of [d] stays a
    directory. *)
Definition touches_only (d : path) (fs0 fs1 : node) : Prop :=
  (forall q, diverge d q = true -> lookup q fs1 = lookup q fs0)
  /\ (is_dir fs0 (parent d) = true -> is_dir fs1 (parent d) = true).

(** [preserves Q a fs0 fs1]: every path of [Q] holds in [fs1] what it held
    in [fs0], and [a] is still a directory if it was one. *)
Definition preserves (Q : path -> Prop) (a : path) (fs0 fs1 : node) : Prop :=
  (forall q, Q q -> lookup q fs1 = lookup q fs0)
  /\ (is_dir fs0 a = true -> is_dir fs1 a = true).

(** An environment in which no access is refused *)
Definition no_denial (p : path) : bool := false.

Definition fresh_metrics (total : nat) : BackupMetrics := mkMetrics total 0 0.

Definition initial_state (fs : node) (total : nat) : state :=
  mkState fs (fresh_metrics total) (mkProgress total 0 EmptyString) [].

(** [ui/main_window.py: task_runner] hands the task's [delete_extra] flag to
    the engine as [should_delete]. *)
Definition mirror (denied : path -> bool) (fuel : nat)
           (task : BackupTask path) (st : state) : outcome * state :=
  Core.sync_recursive denied fuel task (delete_extra task) st.

(** The keys of [src_items] at the level of [src], read off a file system *)
Definition src_items_of (fs : node) (src : path) (patterns : list string)
  : list string :=
  Core.filter_excluded src patterns (children_names fs src).

(** The paths a level of the copy pass cannot reach: those that are not the
    destination or one of its ancestors, and that diverge from [dst / m] for
    every key [m] of [src_items]. *)
Definition untouched_by (dst : path) (items : list string) (q : path) : Prop :=
  is_prefix q dst = false
  /\ forall m, In m items -> diverge (child dst m) q = true.

(** The file-system calls inside the [try] block of [safe_copy], and of
    [safe_remove] *)
Definition copy_calls (denied : path -> bool) (src dst : path) (fs : node)
  : result node :=
  match mkdir_parents denied (parent dst) fs with
  | Raise e => Raise e
  | Ok fs1 =>
      if is_dir fs1 src then copytree denied src dst fs1
      else copy2 denied src dst fs1
  end.

Definition remove_calls (denied : path -> bool) (p : path) (fs : node)
  : result node :=
  if is_dir fs p then rmtree denied p fs else unlink denied p fs.

(* ================================================================== *)
(** * Scenarios *)

Open Scope string_scope.

(** Source [x.txt] (10 bytes) and [logs/a.log]; empty destination; pattern
    [*.log]; [delete_extra] set. *)
Definition scenario_fs : node :=
  Dir [ ("src", Dir [ ("x.txt", File 10 100);
                      ("logs", Dir [ ("a.log", File 5 100) ]) ]);
        ("dst", Dir []) ].

Definition scenario_task : BackupTask path :=
  mkBackupTask "scenario" ["src"] ["dst"] ["*.log"] true.

Definition scenario_state : state :=
  initial_state scenario_fs (get_total_files scenario_fs ["src"] ["*.log"]).

(** The state in which the first run of the scenario ends *)
Definition scenario_after_first_run : state :=
  snd (mirror no_denial 1 scenario_task scenario_state).

(** Source [d/f]; destination with an empty directory [d]. *)
Definition nested_fs : node :=
  Dir [ ("src", Dir [ ("d", Dir [ ("f", File 3 7) ]) ]);
        ("dst", Dir [ ("d", Dir []) ]) ].

Definition nested_task : BackupTask path :=
  mkBackupTask "nested" ["src"] ["dst"] ["*.tmp"] true.

Definition nested_state : state := initial_state nested_fs 1.

(** Source [x.txt] and [docs/b.txt], [docs/c.txt]; empty destination;
    nothing excluded. *)
Definition subtree_fs : node :=
  Dir [ ("src", Dir [ ("x.txt", File 10 100);
                      ("docs", Dir [ ("b.txt", File 2 100);
                                     ("c.txt", File 3 100) ]) ]);
        ("dst", Dir []) ].

Definition subtree_task : BackupTask path :=
  mkBackupTask "subtree" ["src"] ["dst"] ["*.tmp"] true.

Definition subtree_state : state :=
  initial_state subtree_fs (get_total_files subtree_fs ["src"] ["*.tmp"]).

(** The destination path is taken by a regular file. *)
Definition blocked_fs : node :=
  Dir [ ("src", Dir [ ("x.txt", File 10 100) ]);
        ("dst", File 1 1) ].

Definition blocked_task : BackupTask path :=
  mkBackupTask "blocked" ["src"] ["dst"] ["*.tmp"] true.

Definition blocked_state : state := initial_state blocked_fs 1.

(** Destination with [stale.bin], which the source does not have;
    [delete_extra] cleared. *)
Definition stale_fs : node :=
  Dir [ ("src", Dir [ ("x.txt", File 10 100) ]);
        ("dst", Dir [ ("stale.bin", File 7 50) ]) ].

Definition stale_task : BackupTask path :=
  mkBackupTask "stale" ["src"] ["dst"] ["*.tmp"] false.

Definition stale_state : state := initial_state stale_fs 1.

(** Source [x.txt], [y.txt]; destination with the same [x.txt], with
    [old.log] (which matches the exclusion pattern) and with [stale.bin];
    in one environment access to [src/y.txt] is refused, in another access
    to [dst/stale.bin]. *)
Definition extras_fs : node :=
  Dir [ ("src", Dir [ ("x.txt", File 10 100); ("y.txt", File 4 100) ]);
        ("dst", Dir [ ("x.txt", File 10 100);
                      ("old.log", File 9 60);
                      ("stale.bin", File 7 50) ]) ].

Definition extras_task : BackupTask path :=
  mkBackupTask "extras" ["src"] ["dst"] ["*.log"] true.

Definition extras_state : state := initial_state extras_fs 2.

(** Source [y.txt] and [z.txt]; empty destination. *)
Definition siblings_fs : node :=
  Dir [ ("src", Dir [ ("y.txt", File 4 100); ("z.txt", File 6 100) ]);
        ("dst", Dir []) ].

Definition siblings_task : BackupTask path :=
  mkBackupTask "siblings" ["src"] ["dst"] ["*.log"] true.

Definition siblings_state : state := initial_state siblings_fs 2.

(** Source and destination with the same [a.txt] and [sub/b.txt]. *)
Definition twin_fs : node :=
  Dir [ ("src", Dir [ ("a.txt", File 4 9);
                      ("sub", Dir [ ("b.txt", File 5 9) ]) ]);
        ("dst", Dir [ ("a.txt", File 4 9);
                      ("sub", Dir [ ("b.txt", File 5 9) ]) ]) ].

Definition twin_state : state := initial_state twin_fs 2.

Definition deny_stale (p : path) : bool := path_eqb p ["dst"; "stale.bin"].

Definition deny_y (p : path) : bool := path_eqb p ["src"; "y.txt"].

(** A Windows host without symbolic links: a path is absolute when it starts
    with a drive letter, a colon and a separator; two paths resolve to the
    same location when they are spelled alike. *)
Definition windows_is_absolute (s : string) : bool :=
  match s with
  | String d (String c (String sep _)) =>
      (is_upper d || is_lower d) && Ascii.eqb c ":" && is_separator sep
  | _ => false
  end.

(** A POSIX host: a path is absolute when it starts with a slash. *)
Definition posix_is_absolute (s : string) : bool :=
  match s with
  | String c _ => Ascii.eqb c "/"
  | EmptyString => false
  end.

Close Scope string_scope.

(* ================================================================== *)
(** * Further helpers of [utils/helpers.py] and [app1.py] *)

(** [utils/helpers.py: get_folder_size], when no directory refuses access:
    [path.glob("**/*")] yields what lies below [path], [is_file()] keeps the
    regular files, and their [st_size] are added up. *)
Definition get_folder_size (fs : node) (p : path) : Z :=
  match lookup p fs with
  | Some (Dir es) =>
      fold_left
        (fun total rel =>
           match stat fs (p ++ rel) with
           | Ok s => (total + size_of s)%Z
           | Raise _ => total
           end)
        (files_below (Dir es)) 0%Z
  | _ => 0%Z
  end.

(** The sum of the sizes of the regular files of a tree *)
Fixpoint tree_size (n : node) : Z :=
  match n with
  | File sz _ => sz
  | Dir es =>
      (fix sum (es : listing) : Z :=
         match es with
         | [] => 0%Z
         | (_, c) :: es' => (tree_size c + sum es')%Z
         end) es
  end.

Section LogCleanup.

(** [denied p]: listing or unlinking [p] is refused.  [hidden p]:
    [os.stat] of [p] is refused.  The test of line 164,
    [datetime.fromtimestamp(st_mtime) < cutoff] with [cutoff =
    datetime.now() - timedelta(days=days)], is made by the [datetime] module
    on local wall-clock times rounded to the microsecond: it is a parameter
    [is_old] of the model, a function of the modification time of the file
    ([false] when [fromtimestamp] raises); [days] and the clock are inside
    it. *)
Variable denied : path -> bool.
Variable hidden : path -> bool.
Variable is_old : Q -> bool.

(** [log_dir.glob("*.log")]: the children of [log_dir] whose names match;
    nothing when [log_dir] is not a directory that can be listed. *)
Definition glob_logs (log_dir : path) (fs : node) : list string :=
  match iterdir denied log_dir fs with
  | Ok children => filter (fun n => Glob.fnmatchcase n "*.log") children
  | Raise _ => []
  end.

(** The body of the loop of [cleanup_old_logs]: the [try] block with its
    [except Exception: pass].  A directory named [*.log] stays whatever its
    age: [unlink] raises on it. *)
Definition cleanup_step (log_dir : path) (fs : node) (file_name : string)
  : node :=
  let log_file := child log_dir file_name in
  if hidden log_file then fs
  else
    match lookup log_file fs with
    | Some (File _ mt) =>
        if is_old mt then
          match unlink denied log_file fs with
          | Ok fs1 => fs1
          | Raise _ => fs
          end
        else fs
    | Some (Dir _) => fs
    | None => fs
    end.

(** [app1.py: cleanup_old_logs(log_dir, days)]; [log_dir.exists()] stands
    outside the [try]. *)
Definition cleanup_old_logs (log_dir : path) (fs : node) : result node :=
  if hidden log_dir then Raise PermissionError
  else if negb (exists_ fs log_dir) then Ok fs
  else Ok (fold_left (cleanup_step log_dir) (glob_logs log_dir fs) fs).

End LogCleanup.

(** A name without a slash *)
Definition has_slash (s : string) : bool :=
  existsb (Ascii.eqb "/") (list_ascii_of_string s).

Definition is_regular (n : node) : bool :=
  match n with File _ _ => true | Dir _ => false end.

(** What [app1.py] keeps count of between two states: the trace has only
    grown, the metrics object is not touched, and [processed_files] has
    grown by the number of calls of [update_progress]. *)
Definition app1_accounted (st st' : state) : Prop :=
  exists evs,
    trace st' = trace st ++ evs
    /\ metrics st' = metrics st
    /\ pi_total_files (progress_info st') = pi_total_files (progress_info st)
    /\ processed_files (progress_info st')
       = processed_files (progress_info st) + count_events is_progress evs.

(** A listing in which no name comes twice, as a directory yields it *)
Fixpoint distinct (l : list string) : bool :=
  match l with
  | [] => true
  | x :: r => negb (mem_string x r) && distinct r
  end.

(** The children of [log_dir] that [cleanup_old_logs] removes: regular
    files named [*.log] that the age test selects, and whose metadata and
    removal are not refused. *)
Definition removable (denied hidden : path -> bool) (is_old : Q -> bool)
           (log_dir : path) (fs : node) (n : string) : bool :=
  negb (hidden (child log_dir n))
  && negb (denied (child log_dir n))
  && match lookup (child log_dir n) fs with
     | Some (File _ mt) => is_old mt
     | _ => false
     end.

Definition expired (denied hidden : path -> bool) (is_old : Q -> bool)
           (log_dir : path) (fs : node) (n : string) : bool :=
  Glob.fnmatchcase n "*.log" && removable denied hidden is_old log_dir fs n.

(** A tree in which no directory lists a name twice *)
Fixpoint well_formed (n : node) : bool :=
  match n with
  | File _ _ => true
  | Dir es =>
      distinct (names es)
      && (fix all (es : listing) : bool :=
            match es with
            | [] => true
            | (_, c) :: es' => well_formed c && all es'
            end) es
  end.

(** The depth of a tree: 0 for a regular file, one more than the deepest
    child for a directory *)
Fixpoint height (n : node) : nat :=
  match n with
  | File _ _ => 0
  | Dir es =>
      S ((fix deepest (es : listing) : nat :=
            match es with
            | [] => 0
            | (_, c) :: es' => Nat.max (height c) (deepest es')
            end) es)
  end.

Definition height_at (fs : node) (p : path) : nat :=
  match lookup p fs with
  | Some n => height n
  | None => 0
  end.

(** [is_excluded] as [sync_recursive] applies it to a child called [k] of
    the directory it lists *)
Definition excluded_name (patterns : list string) (k : string) : bool :=
  is_excluded [k] patterns [].

(** A tree in which no name, at any depth, is excluded *)
Fixpoint unexcluded (patterns : list string) (n : node) : bool :=
  match n with
  | File _ _ => true
  | Dir es =>
      (fix all (es : listing) : bool :=
         match es with
         | [] => true
         | (k, c) :: es' =>
             negb (excluded_name patterns k) && unexcluded patterns c && all es'
         end) es
  end.

(** [mirrored fs src dst]: below [dst] there is what there is below [src]
    and nothing else: a directory where [src] has a directory, a regular
    file that [files_are_equal] accepts where [src] has a regular file,
    nothing where [src] has nothing. *)
Definition mirrored (fs : node) (src dst : path) : Prop :=
  forall r : path,
    match lookup (src ++ r) fs with
    | Some (File _ _) => files_are_equal fs (src ++ r) (dst ++ r) = Ok true
    | Some (Dir _) => is_dir fs (dst ++ r) = true
    | None => lookup (dst ++ r) fs = None
    end.

(* ================================================================== *)
(** * The host, call by call *)

(** The engines above read the metadata of a path without fail, and their
    [mkdir], [copytree] and [rmtree] do all of their work or none of it.
    This part keeps what a run meets on a host that refuses a call:
    [exists], [is_dir], [is_file] and [stat] raise [PermissionError] when
    the entry cannot be reached; [mkdir] keeps the directories it made
    before it failed; [rmtree] stops at the first entry it cannot remove and
    leaves the rest; [copytree] copies what it can and raises at the end.
    The code compares the modification times as binary floating-point
    numbers: that test is a parameter of the host, and so is what [stat]
    reports of a directory. *)
Record host : Type := mkHost {
  refuses : path -> bool;
  hides : path -> bool;
  dir_stat : path -> stat_result;
  close_in_time : Q -> Q -> bool
}.

(** [a and b], on two tests that can raise: [b] is not evaluated when [a]
    is false or raises. *)
Definition lazy_and (a b : result bool) : result bool :=
  match a with
  | Raise e => Raise e
  | Ok false => Ok false
  | Ok true => b
  end.

Module Host.
Section Calls.

(** [refuses h p]: opening, listing, creating or removing the entry at [p]
    fails with [PermissionError].  [hides h p]: [os.stat] of [p] fails with
    [PermissionError] (a directory above [p] cannot be searched). *)
Variable h : host.

(** [p.exists()], [p.is_dir()], [p.is_file()]: pathlib lets
    [PermissionError] through. *)
Definition read_exists (fs : node) (p : path) : result bool :=
  if hides h p then Raise PermissionError else Ok (exists_ fs p).

Definition read_is_dir (fs : node) (p : path) : result bool :=
  if hides h p then Raise PermissionError else Ok (is_dir fs p).

Definition read_is_file (fs : node) (p : path) : result bool :=
  if hides h p then Raise PermissionError else Ok (is_file fs p).

(** [p.stat()] *)
Definition read_stat (fs : node) (p : path) : result stat_result :=
  if hides h p then Raise PermissionError
  else match lookup p fs with
       | Some (File sz mt) => Ok (mkStat sz mt)
       | Some (Dir _) => Ok (dir_stat h p)
       | None => Raise FileNotFoundError
       end.

(** The descent of [mkdir(parents=True, exist_ok=True)]: what is missing on
    the way to [p] is created from the top; the second component is the
    exception that ended the descent, and what was created before it
    stays. *)
Fixpoint mkdir_walk (pre p : path) (n : node) : node * option exn :=
  match p with
  | [] =>
      match n with
      | Dir _ => (n, None)
      | File _ _ => (n, Some FileExistsError)
      end
  | k :: p' =>
      match n with
      | File _ _ => (n, Some NotADirectoryError)
      | Dir es =>
          match assoc k es with
          | Some c =>
              let (c', r) := mkdir_walk (pre ++ [k]) p' c in
              (Dir (set_entry k c' es), r)
          | None =>
              if refuses h (pre ++ [k]) then (n, Some PermissionError)
              else
                let (c', r) := mkdir_walk (pre ++ [k]) p' (Dir []) in
                (Dir (set_entry k c' es), r)
          end
      end
  end.

(** [p.mkdir(parents=True, exist_ok=True)], and [os.makedirs(p,
    exist_ok=True)] *)
Definition mkdir_parents (p : path) (fs : node) : node * option exn :=
  if hides h p then (fs, Some PermissionError) else mkdir_walk [] p fs.

(** What [shutil.rmtree] leaves of the tree [n] at [p]: [None] when all of
    it is gone, else what is left with the exception that stopped the
    removal.  The entries go in the order of the listing, a directory after
    its entries. *)
Fixpoint rm (p : path) (n : node) {struct n} : option (node * exn) :=
  match n with
  | File _ _ => if refuses h p then Some (n, PermissionError) else None
  | Dir es =>
      if refuses h p then Some (n, PermissionError)
      else
        match (fix go (es : listing) : option (listing * exn) :=
                 match es with
                 | [] => None
                 | (k, c) :: es' =>
                     match rm (p ++ [k]) c with
                     | Some (c', e) => Some ((k, c') :: es', e)
                     | None => go es'
                     end
                 end) es with
        | Some (rest, e) => Some (Dir rest, e)
        | None => None
        end
  end.

(** [shutil.rmtree(p)] *)
Definition rmtree (p : path) (fs : node) : node * option exn :=
  if hides h p then (fs, Some PermissionError)
  else match lookup p fs with
       | None => (fs, Some FileNotFoundError)
       | Some (File _ _) => (fs, Some NotADirectoryError)
       | Some (Dir es) =>
           match rm p (Dir es) with
           | None => (update p None fs, None)
           | Some (rest, e) => (update p (Some rest) fs, Some e)
           end
       end.

(** One entry of [shutil.copytree(..., dirs_exist_ok=True)]: the source node
    [sn] at [s] is copied to [d], where [dn] stands.  The result is what
    stands at [d] afterwards, and whether every call succeeded: a failure is
    collected and the copy goes on with the next entry.  A regular file goes
    by [copy2] (inside [d] when [d] is a directory), a directory by a
    listing of [s], a [mkdir] of [d] and its entries in turn. *)
Fixpoint copy_into (s d : path) (sn : node) (dn : option node) {struct sn}
  : option node * bool :=
  match sn with
  | File sz mt =>
      if refuses h s || refuses h d then (dn, false)
      else
        match dn with
        | Some (Dir cs) =>
            match assoc (basename s) cs with
            | Some (Dir _) => (dn, false)
            | _ => (Some (Dir (set_entry (basename s) (File sz mt) cs)), true)
            end
        | _ => (Some (File sz mt), true)
        end
  | Dir es =>
      if refuses h s then (dn, false)
      else
        let walk :=
          fix walk (es : listing) (ds : listing) (ok : bool) {struct es}
            : listing * bool :=
            match es with
            | [] => (ds, ok)
            | (k, c) :: es' =>
                match copy_into (s ++ [k]) (d ++ [k]) c (assoc k ds) with
                | (Some c', ok') => walk es' (set_entry k c' ds) (ok && ok')
                | (None, ok') => walk es' ds (ok && ok')
                end
            end in
        match dn with
        | Some (File _ _) => (dn, false)
        | Some (Dir ds) => let (ds', ok) := walk es ds true in (Some (Dir ds'), ok)
        | None =>
            if refuses h d then (None, false)
            else let (ds', ok) := walk es [] true in (Some (Dir ds'), ok)
        end
  end.

(** [shutil.copytree(src, dst, dirs_exist_ok=True)]: the listing of [src]
    and the creation of [dst] raise at once; the failures met below are
    raised together at the end, as [shutil.Error], when the rest has been
    copied. *)
Definition copytree (src dst : path) (fs : node) : node * option exn :=
  if refuses h src then (fs, Some PermissionError)
  else match lookup src fs with
       | None => (fs, Some FileNotFoundError)
       | Some (File _ _) => (fs, Some NotADirectoryError)
       | Some (Dir es) =>
           match mkdir_parents dst fs with
           | (fs1, Some e) => (fs1, Some e)
           | (fs1, None) =>
               match copy_into src dst (Dir es) (lookup dst fs1) with
               | (Some dn, ok) =>
                   (update dst (Some dn) fs1,
                    if ok then None else Some ShutilError)
               | (None, _) => (fs1, Some ShutilError)
               end
           end
       end.

(** [utils/helpers.py: files_are_equal] *)
Definition files_are_equal (fs : node) (file1 file2 : path) : result bool :=
  match read_exists fs file2 with
  | Raise e => Raise e
  | Ok false => Ok false
  | Ok true =>
      match read_stat fs file1 with
      | Raise e => Raise e
      | Ok stat1 =>
          match read_stat fs file2 with
          | Raise e => Raise e
          | Ok stat2 =>
              Ok (Z.eqb (size_of stat1) (size_of stat2)
                  && close_in_time h (mtime_of stat1) (mtime_of stat2))
          end
      end
  end.

End Calls.
End Host.

(** [core/sync_logic.py] on a host *)
Module CoreHost.
Section Engine.

Variable h : host.

Definition safe_copy (src dst : path) (st : state) : state :=
  match Host.mkdir_parents h (parent dst) (fs st) with
  | (fs1, Some e) =>
      incr_errors (log_callback (MsgCopyError src dst e) (with_fs fs1 st))
  | (fs1, None) =>
      match Host.read_is_dir h fs1 src with
      | Raise e =>
          incr_errors (log_callback (MsgCopyError src dst e) (with_fs fs1 st))
      | Ok true =>
          match Host.copytree h src dst fs1 with
          | (fs2, None) => log_callback (MsgCopied src dst) (with_fs fs2 st)
          | (fs2, Some e) =>
              incr_errors
                (log_callback (MsgCopyError src dst e) (with_fs fs2 st))
          end
      | Ok false =>
          match copy2 (refuses h) src dst fs1 with
          | Ok fs2 =>
              log_callback (MsgCopied src dst)
                (update_progress (incr_copied (with_fs fs2 st)))
          | Raise e =>
              incr_errors
                (log_callback (MsgCopyError src dst e) (with_fs fs1 st))
          end
      end
  end.

Definition safe_remove (p : path) (st : state) : state :=
  match Host.read_is_dir h (fs st) p with
  | Raise e => incr_errors (log_callback (MsgRemoveError p e) st)
  | Ok true =>
      match Host.rmtree h p (fs st) with
      | (fs1, None) => log_callback (MsgRemoved p) (with_fs fs1 st)
      | (fs1, Some e) =>
          incr_errors (log_callback (MsgRemoveError p e) (with_fs fs1 st))
      end
  | Ok false =>
      match unlink (refuses h) p (fs st) with
      | Ok fs1 => log_callback (MsgRemoved p) (with_fs fs1 st)
      | Raise e => incr_errors (log_callback (MsgRemoveError p e) st)
      end
  end.

(** The body of the first [for] loop, for one [name] of [src_items]; the
    tests of lines 37 and 39 stand outside every [try]. *)
Definition sync_item (recurse : state -> outcome * state)
           (src dst : path) (dst_items : list string)
           (name : string) (st : state) : outcome * state :=
  let src_path := child src name in
  let dst_path := child dst name in
  if negb (mem_string name dst_items) then
    (Returned, safe_copy src_path dst_path st)
  else
    let existing_dst := child dst name in
    match lazy_and (Host.read_is_dir h (fs st) src_path)
                   (Host.read_is_dir h (fs st) existing_dst) with
    | Raise e => (Raised e, st)
    | Ok true => recurse st
    | Ok false =>
        match lazy_and (Host.read_is_file h (fs st) src_path)
                       (Host.read_is_file h (fs st) existing_dst) with
        | Raise e => (Raised e, st)
        | Ok true =>
            match Host.files_are_equal h (fs st) src_path existing_dst with
            | Raise e => (Raised e, st)
            | Ok true => (Returned, st)
            | Ok false => (Returned, safe_copy src_path dst_path st)
            end
        | Ok false =>
            (Returned,
             safe_copy src_path dst_path (safe_remove existing_dst st))
        end
    end.

Fixpoint copy_pass (recurse : state -> outcome * state)
         (src dst : path) (dst_items : list string)
         (src_items : list string) (st : state) : outcome * state :=
  match src_items with
  | [] => (Returned, st)
  | name :: rest =>
      match sync_item recurse src dst dst_items name st with
      | (Returned, st1) => copy_pass recurse src dst dst_items rest st1
      | (Raised e, st1) => (Raised e, st1)
      end
  end.

Fixpoint delete_pass (dst : path) (src_items : list string)
         (dst_items : list string) (st : state) : state :=
  match dst_items with
  | [] => st
  | name :: rest =>
      if negb (mem_string name src_items)
      then delete_pass dst src_items rest (safe_remove (child dst name) st)
      else delete_pass dst src_items rest st
  end.

(** The two listings of lines 22 and 23, inside their [try] *)
Definition listings (src dst : path) (exclude_patterns : list string)
           (fs : node) : result (list string * list string) :=
  match iterdir (refuses h) src fs with
  | Raise e => Raise e
  | Ok children =>
      match iterdir (refuses h) dst fs with
      | Raise e => Raise e
      | Ok dst_items =>
          Ok (Core.filter_excluded src exclude_patterns children, dst_items)
      end
  end.

Definition sync_body (recurse : state -> outcome * state)
           (task : BackupTask path) (should_delete : bool) (st : state)
  : outcome * state :=
  let src := source task in
  let dst := destination task in
  let exclude_patterns := exclude_patterns task in
  match Host.read_exists h (fs st) src with
  | Raise e => (Raised e, st)
  | Ok false => (Returned, log_callback (MsgSourceMissing src) st)
  | Ok true =>
      match Host.mkdir_parents h dst (fs st) with
      | (fs1, Some e) => (Raised e, with_fs fs1 st)
      | (fs1, None) =>
          let st1 := with_fs fs1 st in
          match listings src dst exclude_patterns fs1 with
          | Raise PermissionError =>
              (Returned, log_callback (MsgNoAccess src dst PermissionError) st1)
          | Raise e =>
              if is_OSError e
              then (Returned, log_callback (MsgAccessError src dst e) st1)
              else (Raised e, st1)
          | Ok (src_items, dst_items) =>
              match copy_pass recurse src dst dst_items src_items st1 with
              | (Raised e, st2) => (Raised e, st2)
              | (Returned, st2) =>
                  if should_delete
                  then (Returned, delete_pass dst src_items dst_items st2)
                  else (Returned, st2)
              end
          end
      end
  end.

Fixpoint sync_recursive (fuel : nat) (task : BackupTask path)
         (should_delete : bool) (st : state) : outcome * state :=
  match fuel with
  | O => (Raised RecursionError, st)
  | S fuel' =>
      sync_body (sync_recursive fuel' task should_delete) task should_delete st
  end.

End Engine.
End CoreHost.

(** The test of [files_are_equal] on exact times *)
Definition exact_close (a b : Q) : bool := Qlt_bool (Qabs (a - b)) 1.

(** A host that refuses the paths of [deny], hides those of [hide], and
    compares exact times *)
Definition host_of (deny hide : path -> bool) : host :=
  mkHost deny hide (fun _ => mkStat 4096 0) exact_close.

(** A host on which every call succeeds *)
Definition quiet_host : host := host_of no_denial no_denial.

(** [counted st st']: [accounted], and the shared [progress_info] is as it
    was. *)
Definition counted (st st' : state) : Prop :=
  accounted st st' /\ progress_info st' = progress_info st.

(** The metadata reads that [sync_recursive] makes outside its [try]
    blocks at the level of [src] and [dst]: of the source, and of a child
    of either side. *)
Definition unguarded_read (src dst p : path) : Prop :=
  p = src \/ exists m : string, p = child src m \/ p = child dst m.

(** The file-system calls inside the [try] block of [safe_copy], and of
    [safe_remove], on a host: the file system they leave, and the exception
    that ended them. *)
Definition host_copy_calls (h : host) (src dst : path) (fs : node)
  : node * option exn :=
  match Host.mkdir_parents h (parent dst) fs with
  | (fs1, Some e) => (fs1, Some e)
  | (fs1, None) =>
      match Host.read_is_dir h fs1 src with
      | Raise e => (fs1, Some e)
      | Ok true => Host.copytree h src dst fs1
      | Ok false =>
          match copy2 (refuses h) src dst fs1 with
          | Ok fs2 => (fs2, None)
          | Raise e => (fs1, Some e)
          end
      end
  end.

Definition host_remove_calls (h : host) (p : path) (fs : node)
  : node * option exn :=
  match Host.read_is_dir h fs p with
  | Raise e => (fs, Some e)
  | Ok true => Host.rmtree h p fs
  | Ok false =>
      match unlink (refuses h) p fs with
      | Ok fs1 => (fs1, None)
      | Raise e => (fs, Some e)
      end
  end.

(** What lets the exception [e] out of [sync_recursive], read in the file
    system in which the run ended: the stack is used up, a metadata read
    outside the [try] blocks is refused, or the destination directory
    cannot be created. *)
Definition escapes (h : host) (src dst : path) (fs' : node) (e : exn) : Prop :=
  e = RecursionError
  \/ (e = PermissionError
      /\ exists p, unguarded_read src dst p /\ hides h p = true)
  \/ snd (Host.mkdir_parents h dst fs') = Some e.

(** The destination names that have no namesake among the source children
    that are not excluded, in the order of the destination listing *)
Definition unmatched (src : path) (patterns : list string) (es ds : listing)
  : list string :=
  filter (fun k => negb (mem_string k (names es))
                   || is_excluded (child src k) patterns src)
         (names ds).

(** What the removal of the entry at [p] leaves there, and whether it
    fails *)
Definition left_at (h : host) (fs : node) (p : path) : option node :=
  match lookup p fs with
  | Some c =>
      if hides h p then Some c
      else match Host.rm h p c with
           | Some (rest, _) => Some rest
           | None => None
           end
  | None => None
  end.

Definition removal_fails (h : host) (fs : node) (p : path) : bool :=
  hides h p
  || match lookup p fs with
     | Some c => match Host.rm h p c with Some _ => true | None => false end
     | None => true
     end.

Open Scope string_scope.

(** Source [x.txt] (newer than the copy at the destination), [k] (a regular
    file where the destination has a directory) and [z.txt] (new); the host
    refuses [dst/x.txt] and [dst/k]. *)
Definition retry_fs : node :=
  Dir [ ("src", Dir [ ("x.txt", File 10 200); ("k", File 3 100);
                      ("z.txt", File 6 100) ]);
        ("dst", Dir [ ("x.txt", File 10 100);
                      ("k", Dir [ ("inner", File 1 1) ]) ]) ].

Definition retry_task : BackupTask path :=
  mkBackupTask "retry" ["src"] ["dst"] ["*.tmp"] true.

Definition retry_state : state := initial_state retry_fs 3.

Definition retry_host : host :=
  host_of (fun p => path_eqb p ["dst"; "x.txt"] || path_eqb p ["dst"; "k"])
          no_denial.

(** A destination directory that can be listed and not searched: the
    metadata of [dst/x.txt] cannot be read. *)
Definition unsearchable_host : host :=
  host_of no_denial (fun p => path_eqb p ["dst"; "x.txt"]).

(** Source [x.txt] and [keep.log]; destination with the same two files,
    with [old.log], the directory [tmp] and [stale.bin]; pattern [*.log];
    the host refuses [dst/tmp/b]. *)
Definition purge_fs : node :=
  Dir [ ("src", Dir [ ("x.txt", File 10 100); ("keep.log", File 2 100) ]);
        ("dst", Dir [ ("x.txt", File 10 100); ("keep.log", File 2 100);
                      ("old.log", File 9 60);
                      ("tmp", Dir [ ("a", File 1 1); ("b", File 1 1);
                                    ("c", File 1 1) ]);
                      ("stale.bin", File 7 50) ]) ].

Definition purge_task : BackupTask path :=
  mkBackupTask "purge" ["src"] ["dst"] ["*.log"] true.

Definition purge_state : state := initial_state purge_fs 1.

Definition purge_host : host :=
  host_of (fun p => path_eqb p ["dst"; "tmp"; "b"]) no_denial.

Close Scope string_scope.

(* ================================================================== *)
(** * [st_mtime] in binary64 *)

(** [os.stat] gives the modification time as a whole number of seconds and
    a number of nanoseconds; CPython makes the float [st_mtime] of them as
    [sec + 1e-9 * nsec], in binary64 arithmetic, rounding to nearest even
    after the product and after the sum.  [files_are_equal] subtracts two
    such floats and compares the absolute value with 1.  The operations are
    those of [SpecFloat], the specification of IEEE 754 arithmetic of the
    standard library, at precision 53 and exponent bound 1024. *)
Module Binary64.

Definition prec : Z := 53.
Definition emax : Z := 1024.

(** [(double) z] *)
Definition of_Z (z : Z) : SpecFloat.spec_float :=
  SpecFloat.binary_normalize prec emax z 0 false.

(** The double nearest to [1e-9]: [0x1.12e0be826d695p-30] *)
Definition nano : SpecFloat.spec_float :=
  SpecFloat.S754_finite false 4835703278458517 (-82).

(** The seconds and the nanoseconds of a time: a time stamp that is not a
    whole number of nanoseconds is cut down to one. *)
Definition seconds (t : Q) : Z := Qfloor t.

Definition nanoseconds (t : Q) : Z :=
  Qfloor ((t - inject_Z (Qfloor t)) * inject_Z 1000000000)%Q.

(** [st_mtime] *)
Definition st_mtime (t : Q) : SpecFloat.spec_float :=
  SpecFloat.SFadd prec emax (of_Z (seconds t))
    (SpecFloat.SFmul prec emax nano (of_Z (nanoseconds t))).

(** [abs(a - b) < 1] *)
Definition close (a b : SpecFloat.spec_float) : bool :=
  SpecFloat.SFltb (SpecFloat.SFabs (SpecFloat.SFsub prec emax a b)) (of_Z 1).

(** [abs(stat1.st_mtime - stat2.st_mtime) < 1], of the times of two files *)
Definition close_in_time (t1 t2 : Q) : bool :=
  close (st_mtime t1) (st_mtime t2).

End Binary64.

(** A host that compares the times as the code does *)
Definition binary64_host (deny hide : path -> bool)
           (dir_stat : path -> stat_result) : host :=
  mkHost deny hide dir_stat Binary64.close_in_time.

Open Scope string_scope.

(** Three pairs of files of equal size at the present epoch: [a.bin] with
    modification times 0.9 s apart, [b.bin] with modification times 1.5 s
    apart, [c.bin] with modification times 0.999999999 s apart. *)
Definition clock_fs : node :=
  Dir [ ("src", Dir [ ("a.bin", File 10 1700000000);
                      ("b.bin", File 10 1700000000);
                      ("c.bin", File 10 1700000000) ]);
        ("dst", Dir [ ("a.bin", File 10 (17000000009 # 10));
                      ("b.bin", File 10 (3400000003 # 2));
                      ("c.bin", File 10 (1700000000999999999 # 1000000000)) ]) ].

Definition clock_state : state := initial_state clock_fs 3.

Definition clock_task : BackupTask path :=
  mkBackupTask "clock" ["src"] ["dst"] ["*.tmp"] true.

Definition clock_host : host :=
  binary64_host no_denial no_denial (fun _ => mkStat 4096 0).

Close Scope string_scope.

(* ================================================================== *)
(** * [core/backup_task.py] on Unicode text *)

(** A Python [str] is a sequence of code points below 0x110000, the
    surrogates 0xD800-0xDFFF among them.  The strings above hold the code
    points below 256 only; this part takes [to_dict] and [from_dict] on
    whole strings, with what [json.dumps] (under its default
    [ensure_ascii=True]) and [json.loads] do to the code points beyond
    ASCII: a code point of the basic plane is written as one escape
    [\uXXXX], a code point beyond it as the two escapes of its surrogate
    pair, and the reader joins every escaped high surrogate that is
    directly followed by an escaped low surrogate into one code point. *)
Module Unicode.

Open Scope Z_scope.

Definition text := list Z.

Definition of_string (s : string) : text :=
  map (fun c => Z.of_N (N_of_ascii c)) (list_ascii_of_string s).

Fixpoint text_eqb (a b : text) : bool :=
  match a, b with
  | [], [] => true
  | x :: a', y :: b' => (x =? y) && text_eqb a' b'
  | _, _ => false
  end.

Definition in_range (c : Z) : bool := (0 <=? c) && (c <? 1114112).

Definition is_high (v : Z) : bool := (55296 <=? v) && (v <=? 56319).

Definition is_low (v : Z) : bool := (56320 <=? v) && (v <=? 57343).

(** ['0'..'9'], ['a'..'f'] *)
Definition hex_digit (d : Z) : Z := if d <? 10 then 48 + d else 87 + d.

Definition hex_value (c : Z) : option Z :=
  if (48 <=? c) && (c <=? 57) then Some (c - 48)
  else if (97 <=? c) && (c <=? 102) then Some (c - 87)
  else if (65 <=? c) && (c <=? 70) then Some (c - 55)
  else None.

(** ['\\u{0:04x}'.format(v)] *)
Definition u_escape (v : Z) : text :=
  [92; 117; hex_digit (v / 4096); hex_digit ((v / 256) mod 16);
   hex_digit ((v / 16) mod 16); hex_digit (v mod 16)].

(** [json.encoder.py_encode_basestring_ascii], for one code point: the
    quote, the backslash and five control characters have short escapes,
    printable ASCII stands for itself; beyond the basic plane [n = c -
    0x10000] is written as [0xd800 | ((n >> 10) & 0x3ff)] and
    [0xdc00 | (n & 0x3ff)]. *)
Definition escape_char (c : Z) : text :=
  if c =? 34 then [92; 34]
  else if c =? 92 then [92; 92]
  else if c =? 10 then [92; 110]
  else if c =? 13 then [92; 114]
  else if c =? 9 then [92; 116]
  else if c =? 8 then [92; 98]
  else if c =? 12 then [92; 102]
  else if (32 <=? c) && (c <=? 126) then [c]
  else if c <? 65536 then u_escape c
  else
    let n := c - 65536 in
    u_escape (55296 + (n / 1024) mod 1024) ++ u_escape (56320 + n mod 1024).

Definition encode_string (s : text) : text :=
  34 :: flat_map escape_char s ++ [34].

Fixpoint encode_items (l : list text) : text :=
  match l with
  | [] => []
  | [s] => encode_string s
  | s :: rest => encode_string s ++ 44 :: 32 :: encode_items rest
  end.

(** [json.dumps(l)] for a list of strings *)
Definition dumps (l : list text) : text := 91 :: encode_items l ++ [93].

(** The reader is a scanner over the code points of the document.
    [pend] is an escaped high surrogate that has just been read: it is
    joined with an escaped low surrogate that follows at once, and stands
    for itself before anything else. *)
Inductive jstate : Type :=
| JStart
| JOpen
| JValue (acc : list text)
| JString (acc : list text) (cur : text) (pend : option Z)
| JEscape (acc : list text) (cur : text) (pend : option Z)
| JHex (acc : list text) (cur : text) (pend : option Z) (digits : list Z)
| JAfter (acc : list text)
| JEnd (acc : list text)
| JFail.

Definition is_space (c : Z) : bool :=
  (c =? 32) || (c =? 9) || (c =? 10) || (c =? 13).

Definition unescape (c : Z) : option Z :=
  if c =? 34 then Some 34
  else if c =? 92 then Some 92
  else if c =? 47 then Some 47
  else if c =? 98 then Some 8
  else if c =? 102 then Some 12
  else if c =? 110 then Some 10
  else if c =? 114 then Some 13
  else if c =? 116 then Some 9
  else None.

Definition flush (cur : text) (pend : option Z) : text :=
  match pend with
  | Some hi => cur ++ [hi]
  | None => cur
  end.

(** The end of an escape [\uXXXX] of value [v] *)
Definition close_hex (acc : list text) (cur : text) (pend : option Z) (v : Z)
  : jstate :=
  match pend with
  | Some hi =>
      if is_low v
      then JString acc (cur ++ [65536 + ((hi - 55296) * 1024 + (v - 56320))])
                   None
      else if is_high v then JString acc (cur ++ [hi]) (Some v)
      else JString acc (cur ++ [hi; v]) None
  | None =>
      if is_high v then JString acc cur (Some v)
      else JString acc (cur ++ [v]) None
  end.

Definition step (s : jstate) (c : Z) : jstate :=
  match s with
  | JStart =>
      if is_space c then JStart
      else if c =? 91 then JOpen else JFail
  | JOpen =>
      if is_space c then JOpen
      else if c =? 93 then JEnd []
      else if c =? 34 then JString [] [] None
      else JFail
  | JValue acc =>
      if is_space c then JValue acc
      else if c =? 34 then JString acc [] None
      else JFail
  | JString acc cur pend =>
      if c =? 34 then JAfter (flush cur pend :: acc)
      else if c =? 92 then JEscape acc cur pend
      else if c <? 32 then JFail
      else JString acc (flush cur pend ++ [c]) None
  | JEscape acc cur pend =>
      if c =? 117 then JHex acc cur pend []
      else match unescape c with
           | Some x => JString acc (flush cur pend ++ [x]) None
           | None => JFail
           end
  | JHex acc cur pend digits =>
      match hex_value c with
      | None => JFail
      | Some d =>
          match digits with
          | [d1; d2; d3] =>
              close_hex acc cur pend (((d1 * 16 + d2) * 16 + d3) * 16 + d)
          | _ => JHex acc cur pend (digits ++ [d])
          end
      end
  | JAfter acc =>
      if is_space c then JAfter acc
      else if c =? 44 then JValue acc
      else if c =? 93 then JEnd acc
      else JFail
  | JEnd acc => if is_space c then JEnd acc else JFail
  | JFail => JFail
  end.

Definition run (s : jstate) (doc : text) : jstate := fold_left step doc s.

(** [json.loads(doc)], when [doc] is a JSON array of strings; [None]
    stands for every other document, on which [json.loads] raises or
    returns a value of another kind. *)
Definition loads (doc : text) : option (list text) :=
  match run JStart doc with
  | JEnd acc => Some (rev acc)
  | _ => None
  end.

Definition DEFAULT_EXCLUDE_PATTERNS : list text :=
  map of_string DEFAULT_EXCLUDE_PATTERNS.

Record BackupTask (P : Type) : Type := mkBackupTask {
  name : text;
  source : P;
  destination : P;
  exclude_patterns : list text;
  delete_extra : bool
}.

Definition dict := list (text * text).

Fixpoint dict_get (key : text) (data : dict) : option text :=
  match data with
  | [] => None
  | (k, v) :: data' => if text_eqb key k then Some v else dict_get key data'
  end.

Definition dict_get_default (key default : text) (data : dict) : text :=
  match dict_get key data with
  | Some v => v
  | None => default
  end.

Definition str_bool (b : bool) : text :=
  of_string (if b then "True" else "False").

(** [v.lower() == "true"]: the four letters in either case; no other code
    point has one of them as its lower case. *)
Definition lower_is_true (v : text) : bool :=
  match v with
  | [a; b; c; d] =>
      ((a =? 116) || (a =? 84)) && ((b =? 114) || (b =? 82))
      && ((c =? 117) || (c =? 85)) && ((d =? 101) || (d =? 69))
  | _ => false
  end.

(** A string that [json.loads(json.dumps(...))] gives back: its code
    points are in range, and no high surrogate is directly followed by a
    low one. *)
Fixpoint joined (s : text) : bool :=
  match s with
  | a :: (b :: _) as r => (is_high a && is_low b) || joined r
  | _ => false
  end.

Definition well_coded (s : text) : bool :=
  forallb in_range s && negb (joined s).

Section Task.

Variable P : Type.
Variable Path : text -> P.
Variable str : P -> text.

Definition BackupTask_init (name source destination : text)
           (exclude_patterns : option (list text)) (delete_extra : bool)
  : BackupTask P :=
  mkBackupTask name (Path source) (Path destination)
               (match exclude_patterns with
                | Some (x :: l) => x :: l
                | Some [] | None => DEFAULT_EXCLUDE_PATTERNS
                end)
               delete_extra.

Definition to_dict (t : BackupTask P) : dict :=
  [ (of_string "name", name t);
    (of_string "source", str (source t));
    (of_string "destination", str (destination t));
    (of_string "exclude_patterns", dumps (exclude_patterns t));
    (of_string "delete_extra", str_bool (delete_extra t)) ].

(** [from_dict]; [None] when the entry [exclude_patterns] is not a JSON
    array of strings. *)
Definition from_dict (data : dict) : option (result (BackupTask P)) :=
  match dict_get (of_string "name") data with
  | None => Some (Raise KeyError)
  | Some name =>
      match dict_get (of_string "source") data with
      | None => Some (Raise KeyError)
      | Some source =>
          match dict_get (of_string "destination") data with
          | None => Some (Raise KeyError)
          | Some destination =>
              match loads (dict_get_default (of_string "exclude_patterns")
                                            (of_string "[]") data) with
              | None => None
              | Some patterns =>
                  Some (Ok (BackupTask_init name source destination
                              (Some patterns)
                              (lower_is_true
                                 (dict_get_default (of_string "delete_extra")
                                                   (of_string "True") data))))
              end
          end
      end
  end.

End Task.

Close Scope Z_scope.

End Unicode.

(* ================================================================== *)
(** * Facts about listings and paths *)

Lemma string_eqb_neq (a b : string) : a <> b -> String.eqb a b = false.
Proof. intros H. apply String.eqb_neq. exact H. Qed.

Lemma mem_string_In (x : string) (l : list string) :
  mem_string x l = true <-> In x l.
Proof.
  induction l as [|y l IH]; simpl.
  - split; [discriminate | tauto].
  - rewrite orb_true_iff, IH, String.eqb_eq. split; intros [H|H]; auto.
Qed.

Lemma mem_string_not_In (x : string) (l : list string) :
  mem_string x l = false <-> ~ In x l.
Proof.
  rewrite <- mem_string_In. destruct (mem_string x l); split; intros; congruence.
Qed.

Lemma assoc_set_same (k : string) (v : node) (es : listing) :
  assoc k (set_entry k v es) = Some v.
Proof.
  induction es as [|[k' v'] es IH]; simpl.
  - now rewrite String.eqb_refl.
  - destruct (String.eqb k k') eqn:E; simpl.
    + now rewrite String.eqb_refl.
    + now rewrite E.
Qed.

Lemma assoc_set_other (k k' : string) (v : node) (es : listing) :
  k <> k' -> assoc k' (set_entry k v es) = assoc k' es.
Proof.
  intros Hne. induction es as [|[k0 v0] es IH]; simpl.
  - rewrite string_eqb_neq; auto.
  - destruct (String.eqb k k0) eqn:E; simpl.
    + apply String.eqb_eq in E. subst k0.
      rewrite string_eqb_neq; auto.
    + destruct (String.eqb k' k0); auto.
Qed.

Lemma assoc_remove_same (k : string) (es : listing) :
  assoc k (remove_entry k es) = None.
Proof.
  induction es as [|[k0 v0] es IH]; simpl; auto.
  destruct (String.eqb k k0) eqn:E; simpl; auto. now rewrite E.
Qed.

Lemma assoc_remove_other (k k' : string) (es : listing) :
  k <> k' -> assoc k' (remove_entry k es) = assoc k' es.
Proof.
  intros Hne. induction es as [|[k0 v0] es IH]; simpl; auto.
  destruct (String.eqb k k0) eqn:E; simpl.
  - apply String.eqb_eq in E. subst k0. rewrite string_eqb_neq; auto.
  - destruct (String.eqb k' k0); auto.
Qed.

Lemma assoc_In_names (k : string) (es : listing) (v : node) :
  assoc k es = Some v -> In k (names es).
Proof.
  induction es as [|[k0 v0] es IH]; simpl; [discriminate|].
  destruct (String.eqb k k0) eqn:E; intros H.
  - left. symmetry. now apply String.eqb_eq.
  - right. auto.
Qed.

Lemma assoc_None_names (k : string) (es : listing) :
  assoc k es = None <-> ~ In k (names es).
Proof.
  induction es as [|[k0 v0] es IH]; simpl; [tauto|].
  destruct (String.eqb k k0) eqn:E.
  - apply String.eqb_eq in E. subst. split; [discriminate | intros H; exfalso; auto].
  - apply String.eqb_neq in E. rewrite IH. split; intros H; [intros [H1|H1]|]; auto.
Qed.

Lemma diverge_sym (p q : path) : diverge p q = diverge q p.
Proof.
  revert q. induction p as [|a p IH]; intros [|b q]; simpl; auto.
  rewrite (String.eqb_sym b a). destruct (String.eqb a b); auto.
Qed.

Lemma diverge_app_l (p q r : path) :
  diverge p q = true -> diverge (p ++ r) q = true.
Proof.
  revert q. induction p as [|a p IH]; intros [|b q]; simpl; try discriminate.
  destruct (String.eqb a b); auto.
Qed.

Lemma diverge_app_r (p q r : path) :
  diverge p q = true -> diverge p (q ++ r) = true.
Proof.
  intros H. rewrite diverge_sym. apply diverge_app_l. now rewrite diverge_sym.
Qed.

Lemma diverge_child (d : path) (n m : string) :
  n <> m -> diverge (child d n) (child d m) = true.
Proof.
  intros Hne. unfold child. induction d as [|a d IH]; simpl.
  - now rewrite string_eqb_neq.
  - now rewrite String.eqb_refl.
Qed.

Lemma diverge_not_prefix (p q : path) :
  diverge p q = true -> is_prefix q p = false.
Proof.
  revert q. induction p as [|a p IH]; intros [|b q]; simpl; try discriminate.
  rewrite (String.eqb_sym b a).
  destruct (String.eqb a b); simpl; auto.
Qed.

Lemma child_not_prefix (d : path) (n : string) : is_prefix (child d n) d = false.
Proof.
  unfold child. induction d as [|a d IH]; simpl; auto.
  now rewrite String.eqb_refl.
Qed.

Lemma parent_child (d : path) (n : string) : parent (child d n) = d.
Proof. unfold parent, child. apply removelast_last. Qed.

Lemma basename_child (d : path) (n : string) : basename (child d n) = n.
Proof. unfold basename, child. apply last_last. Qed.

(* ================================================================== *)
(** * Facts about [lookup] and [update] *)

Lemma lookup_app (p q : path) (n : node) :
  lookup (p ++ q) n =
  match lookup p n with Some c => lookup q c | None => None end.
Proof.
  revert n. induction p as [|k p IH]; intros n; simpl; auto.
  destruct n as [sz mt|es]; auto.
  destruct (assoc k es); auto.
Qed.

Lemma lookup_update_diverge (p q : path) (v : option node) (n : node) :
  diverge p q = true -> lookup q (update p v n) = lookup q n.
Proof.
  revert q n. induction p as [|a p IH]; intros [|b q] n; simpl; try discriminate.
  destruct (String.eqb a b) eqn:E; intros H.
  - apply String.eqb_eq in E. subst b.
    destruct n as [sz mt|es]; auto.
    destruct p as [|a' p']; [discriminate|].
    destruct (assoc a es) as [c|] eqn:Ea.
    + simpl. rewrite assoc_set_same. apply IH. exact H.
    + simpl. now rewrite Ea.
  - apply String.eqb_neq in E.
    destruct n as [sz mt|es]; auto.
    destruct p as [|a' p'].
    + destruct v; simpl.
      * rewrite assoc_set_other; auto.
      * rewrite assoc_remove_other; auto.
    + destruct (assoc a es) as [c|] eqn:Ea; auto.
      simpl. rewrite assoc_set_other; auto.
Qed.

Lemma lookup_update_same_None (p : path) (n : node) :
  p <> [] -> lookup p (update p None n) = None.
Proof.
  revert n. induction p as [|a p IH]; intros n Hne; [congruence|].
  simpl. destruct n as [sz mt|es]; auto.
  destruct p as [|a' p'].
  - simpl. now rewrite assoc_remove_same.
  - destruct (assoc a es) as [c|] eqn:Ea.
    + simpl. rewrite assoc_set_same. apply IH. discriminate.
    + simpl. now rewrite Ea.
Qed.

Lemma lookup_update_same_Some (p : path) (c : node) (n : node) :
  p <> [] -> is_dir n (parent p) = true ->
  lookup p (update p (Some c) n) = Some c.
Proof.
  revert n. induction p as [|a p IH]; intros n Hne Hpar; [congruence|].
  destruct p as [|a' p'].
  - unfold is_dir, parent in Hpar. simpl in Hpar.
    destruct n as [sz mt|es]; [discriminate|].
    simpl. now rewrite assoc_set_same.
  - unfold is_dir, parent in Hpar.
    change (removelast (a :: a' :: p')) with (a :: removelast (a' :: p')) in Hpar.
    simpl lookup in Hpar.
    destruct n as [sz mt|es]; [discriminate|].
    destruct (assoc a es) as [c0|] eqn:Ea; [|discriminate].
    cbn [update lookup]. rewrite Ea. cbn [lookup]. rewrite assoc_set_same.
    apply IH; [discriminate|]. exact Hpar.
Qed.

Lemma update_deeper (a : string) (p : path) (v : option node) (es : listing) :
  p <> [] ->
  update (a :: p) v (Dir es) =
  match assoc a es with
  | Some c => Dir (set_entry a (update p v c) es)
  | None => Dir es
  end.
Proof. destruct p; [congruence | reflexivity]. Qed.

(** An update strictly below a directory leaves it a directory. *)
Lemma is_dir_update_below (d : path) (k : string) (r : path)
      (v : option node) (n : node) :
  is_dir n d = true -> is_dir (update (d ++ k :: r) v n) d = true.
Proof.
  unfold is_dir. revert n. induction d as [|a d IH]; intros n H.
  - simpl in H. destruct n as [sz mt|es]; [discriminate|].
    simpl. destruct r; [auto|]. destruct (assoc k es); auto.
  - simpl in H. destruct n as [sz mt|es]; [discriminate|].
    destruct (assoc a es) as [c|] eqn:Ea; [|discriminate].
    change ((a :: d) ++ k :: r) with (a :: (d ++ k :: r)).
    rewrite update_deeper by (destruct d; discriminate).
    rewrite Ea. cbn [lookup]. rewrite assoc_set_same.
    apply IH. exact H.
Qed.

Lemma lookup_below_missing (p q : path) (n : node) :
  lookup p n = None -> lookup (p ++ q) n = None.
Proof. intros H. now rewrite lookup_app, H. Qed.

(* ================================================================== *)
(** * Facts about the primitives *)

Section PrimitiveFacts.

Variable denied : path -> bool.

Lemma mkdir_walk_frame (p : path) :
  forall (pre q : path) (n n' : node),
    mkdir_walk denied pre p n = Ok n' ->
    is_prefix q p = false ->
    lookup q n' = lookup q n.
Proof.
  induction p as [|k p IH]; intros pre q n n' Hw Hq.
  - simpl in Hw. destruct n; inversion Hw; auto.
  - destruct q as [|b q]; [discriminate|].
    simpl in Hq. simpl in Hw.
    destruct n as [sz mt|es]; [discriminate|].
    destruct (assoc k es) as [c|] eqn:Ek.
    + destruct (mkdir_walk denied (pre ++ [k]) p c) as [c'|e] eqn:Hc; inversion Hw.
      simpl. destruct (String.eqb b k) eqn:Ebk.
      * apply String.eqb_eq in Ebk. subst b.
        rewrite assoc_set_same, Ek. eapply IH; eauto.
      * apply String.eqb_neq in Ebk. rewrite assoc_set_other; auto.
    + destruct (denied (pre ++ [k])); [discriminate|].
      destruct (mkdir_walk denied (pre ++ [k]) p (Dir [])) as [c'|e] eqn:Hc;
        inversion Hw.
      simpl. destruct (String.eqb b k) eqn:Ebk.
      * apply String.eqb_eq in Ebk. subst b.
        rewrite assoc_set_same, Ek.
        rewrite (IH _ q _ _ Hc Hq).
        destruct q as [|x q']; [destruct p; discriminate | reflexivity].
      * apply String.eqb_neq in Ebk. rewrite assoc_set_other; auto.
Qed.

Lemma mkdir_walk_is_dir (p : path) :
  forall (pre : path) (n n' : node),
    mkdir_walk denied pre p n = Ok n' -> is_dir n' p = true.
Proof.
  unfold is_dir.
  induction p as [|k p IH]; intros pre n n' Hw; simpl in Hw.
  - destruct n; inversion Hw; subst; reflexivity.
  - destruct n as [sz mt|es]; [discriminate|].
    destruct (assoc k es) as [c|] eqn:Ek.
    + destruct (mkdir_walk denied (pre ++ [k]) p c) as [c'|e] eqn:Hc; inversion Hw.
      simpl. rewrite assoc_set_same. eapply IH; eauto.
    + destruct (denied (pre ++ [k])); [discriminate|].
      destruct (mkdir_walk denied (pre ++ [k]) p (Dir [])) as [c'|e] eqn:Hc;
        inversion Hw.
      simpl. rewrite assoc_set_same. eapply IH; eauto.
Qed.

Lemma mkdir_parents_existing (p : path) (fs0 : node) :
  is_dir fs0 p = true -> mkdir_parents denied p fs0 = Ok fs0.
Proof.
  unfold is_dir, mkdir_parents.
  destruct (lookup p fs0) as [[sz mt|es]|]; congruence.
Qed.

Lemma mkdir_parents_is_dir (p : path) (fs0 fs1 : node) :
  mkdir_parents denied p fs0 = Ok fs1 -> is_dir fs1 p = true.
Proof.
  unfold mkdir_parents. intros H.
  destruct (lookup p fs0) as [[sz mt|es]|] eqn:E.
  - discriminate.
  - inversion H; subst. unfold is_dir. now rewrite E.
  - eapply mkdir_walk_is_dir; eauto.
Qed.

Lemma mkdir_parents_frame (p q : path) (fs0 fs1 : node) :
  mkdir_parents denied p fs0 = Ok fs1 ->
  is_prefix q p = false ->
  lookup q fs1 = lookup q fs0.
Proof.
  unfold mkdir_parents. intros H Hq.
  destruct (lookup p fs0) as [[sz mt|es]|] eqn:E.
  - discriminate.
  - inversion H; auto.
  - eapply mkdir_walk_frame; eauto.
Qed.

Lemma touches_only_refl (d : path) (fs0 : node) : touches_only d fs0 fs0.
Proof. split; auto. Qed.

Lemma touches_only_trans (d : path) (fs0 fs1 fs2 : node) :
  touches_only d fs0 fs1 -> touches_only d fs1 fs2 -> touches_only d fs0 fs2.
Proof.
  intros [A1 B1] [A2 B2]. split.
  - intros q Hq. rewrite A2, A1; auto.
  - auto.
Qed.

Lemma touches_only_update (a : path) (k : string) (r : path)
      (v : option node) (fs0 : node) :
  touches_only (child a k) fs0 (update (a ++ k :: r) v fs0).
Proof.
  split.
  - intros q Hq. apply lookup_update_diverge.
    replace (a ++ k :: r) with (child a k ++ r)
      by (unfold child; now rewrite <- app_assoc).
    now apply diverge_app_l.
  - rewrite parent_child. apply is_dir_update_below.
Qed.

Lemma touches_only_update_child (a : path) (k : string)
      (v : option node) (fs0 : node) :
  touches_only (child a k) fs0 (update (child a k) v fs0).
Proof. apply (touches_only_update a k [] v fs0). Qed.

Lemma copy2_touches (s a : path) (k : string) (fs0 fs1 : node) :
  copy2 denied s (child a k) fs0 = Ok fs1 -> touches_only (child a k) fs0 fs1.
Proof.
  unfold copy2. intros H.
  destruct (denied s || denied (child a k)); [discriminate|].
  destruct (lookup s fs0) as [[sz mt|es]|]; try discriminate.
  destruct (is_dir fs0 (child a k)).
  - destruct (path_eqb s (child (child a k) (basename s))); [discriminate|].
    destruct (is_dir fs0 (child (child a k) (basename s))); [discriminate|].
    destruct (is_dir fs0 (parent (child (child a k) (basename s))));
      inversion H.
    unfold child. rewrite <- app_assoc. apply touches_only_update.
  - destruct (path_eqb s (child a k)); [discriminate|].
    destruct (is_dir fs0 (child a k)); [discriminate|].
    destruct (is_dir fs0 (parent (child a k))); inversion H.
    apply touches_only_update_child.
Qed.

Lemma copytree_touches (s a : path) (k : string) (fs0 fs1 : node) :
  is_dir fs0 a = true ->
  copytree denied s (child a k) fs0 = Ok fs1 -> touches_only (child a k) fs0 fs1.
Proof.
  unfold copytree. intros Ha H.
  destruct (denied s || denied (child a k)); [discriminate|].
  destruct (lookup s fs0) as [[sz mt|es]|]; try discriminate.
  destruct (lookup (child a k) fs0) as [[sz mt|ds]|]; try discriminate.
  - destruct (overlay (Dir es) (Dir ds)) as [merged ok].
    destruct ok; inversion H. apply touches_only_update_child.
  - rewrite parent_child, (mkdir_parents_existing _ _ Ha) in H.
    inversion H. apply touches_only_update_child.
Qed.

Lemma unlink_touches (a : path) (k : string) (fs0 fs1 : node) :
  unlink denied (child a k) fs0 = Ok fs1 -> touches_only (child a k) fs0 fs1.
Proof.
  unfold unlink. intros H.
  destruct (denied (child a k)); [discriminate|].
  destruct (lookup (child a k) fs0) as [[sz mt|es]|]; inversion H.
  apply touches_only_update_child.
Qed.

Lemma rmtree_touches (a : path) (k : string) (fs0 fs1 : node) :
  rmtree denied (child a k) fs0 = Ok fs1 -> touches_only (child a k) fs0 fs1.
Proof.
  unfold rmtree. intros H.
  destruct (denied (child a k)); [discriminate|].
  destruct (lookup (child a k) fs0) as [[sz mt|es]|]; inversion H.
  apply touches_only_update_child.
Qed.

(** A removal that succeeds leaves nothing at the path. *)
Lemma child_not_root (a : path) (k : string) : child a k <> [].
Proof. unfold child. destruct a; discriminate. Qed.

Lemma unlink_removes (a : path) (k : string) (fs0 fs1 : node) :
  unlink denied (child a k) fs0 = Ok fs1 -> lookup (child a k) fs1 = None.
Proof.
  unfold unlink. intros H.
  destruct (denied (child a k)); [discriminate|].
  destruct (lookup (child a k) fs0) as [[sz mt|es]|] eqn:E; inversion H.
  apply lookup_update_same_None, child_not_root.
Qed.

Lemma rmtree_removes (a : path) (k : string) (fs0 fs1 : node) :
  rmtree denied (child a k) fs0 = Ok fs1 -> lookup (child a k) fs1 = None.
Proof.
  unfold rmtree. intros H.
  destruct (denied (child a k)); [discriminate|].
  destruct (lookup (child a k) fs0) as [[sz mt|es]|] eqn:E; inversion H.
  apply lookup_update_same_None, child_not_root.
Qed.

End PrimitiveFacts.

(* ================================================================== *)
(** * Facts about the engine of [core/sync_logic.py] *)

Section CoreFacts.

Variable denied : path -> bool.

Lemma preserves_refl Q a fs0 : preserves Q a fs0 fs0.
Proof. split; auto. Qed.

Lemma preserves_trans Q a fs0 fs1 fs2 :
  preserves Q a fs0 fs1 -> preserves Q a fs1 fs2 -> preserves Q a fs0 fs2.
Proof.
  intros [A1 B1] [A2 B2]. split; auto.
  intros q Hq. rewrite A2, A1; auto.
Qed.

Lemma touches_preserves (Q : path -> Prop) (a : path) (k : string) fs0 fs1 :
  (forall q, Q q -> diverge (child a k) q = true) ->
  touches_only (child a k) fs0 fs1 -> preserves Q a fs0 fs1.
Proof.
  intros HQ [A B]. rewrite parent_child in B. split; auto.
Qed.

Lemma safe_copy_touches (s a : path) (k : string) (st : state) :
  is_dir (fs st) a = true ->
  touches_only (child a k) (fs st) (fs (Core.safe_copy denied s (child a k) st)).
Proof.
  intros Ha. unfold Core.safe_copy.
  rewrite parent_child, (mkdir_parents_existing denied _ _ Ha).
  destruct (is_dir (fs st) s).
  - destruct (copytree denied s (child a k) (fs st)) as [fs2|e] eqn:E; simpl.
    + eapply copytree_touches; eauto.
    + apply touches_only_refl.
  - destruct (copy2 denied s (child a k) (fs st)) as [fs2|e] eqn:E; simpl.
    + eapply copy2_touches; eauto.
    + apply touches_only_refl.
Qed.

Lemma safe_remove_touches (a : path) (k : string) (st : state) :
  touches_only (child a k) (fs st) (fs (Core.safe_remove denied (child a k) st)).
Proof.
  unfold Core.safe_remove.
  destruct (is_dir (fs st) (child a k)).
  - destruct (rmtree denied (child a k) (fs st)) as [fs1|e] eqn:E; simpl.
    + eapply rmtree_touches; eauto.
    + apply touches_only_refl.
  - destruct (unlink denied (child a k) (fs st)) as [fs1|e] eqn:E; simpl.
    + eapply unlink_touches; eauto.
    + apply touches_only_refl.
Qed.

(** Comparing two regular files never raises. *)
Lemma files_are_equal_total (fs0 : node) (f1 f2 : path) :
  is_file fs0 f1 = true -> is_file fs0 f2 = true ->
  exists b, files_are_equal fs0 f1 f2 = Ok b.
Proof.
  unfold is_file, files_are_equal, exists_, stat. intros H1 H2.
  destruct (lookup f1 fs0) as [[sz1 mt1|es1]|]; try discriminate.
  destruct (lookup f2 fs0) as [[sz2 mt2|es2]|]; try discriminate.
  simpl. eauto.
Qed.

Section Level.

Variables src dst : path.
Variable dst_items : list string.
Variable recurse : state -> outcome * state.
Variable Q : path -> Prop.
Variable L0 : option node.

Hypothesis Q_src : Q src.

Hypothesis recurse_preserves :
  forall st o st',
    is_dir (fs st) dst = true -> lookup src (fs st) = L0 ->
    recurse st = (o, st') -> preserves Q dst (fs st) (fs st').

Lemma sync_item_preserves (m : string) (st : state) o st' :
  (forall q, Q q -> diverge (child dst m) q = true) ->
  is_dir (fs st) dst = true -> lookup src (fs st) = L0 ->
  Core.sync_item denied recurse src dst dst_items m st = (o, st') ->
  preserves Q dst (fs st) (fs st').
Proof.
  intros HQ Hd Hs. unfold Core.sync_item.
  destruct (negb (mem_string m dst_items)).
  - intros H. inversion H; subst.
    eapply touches_preserves; eauto. now apply safe_copy_touches.
  - destruct (is_dir (fs st) (child src m) && is_dir (fs st) (child dst m)).
    + intros H. eapply recurse_preserves; eauto.
    + destruct (is_file (fs st) (child src m) && is_file (fs st) (child dst m)).
      * destruct (files_are_equal (fs st) (child src m) (child dst m))
          as [[|]|e]; intros H; inversion H; subst;
          try apply preserves_refl.
        eapply touches_preserves; eauto. now apply safe_copy_touches.
      * intros H. inversion H; subst.
        pose proof (safe_remove_touches dst m st) as T1.
        eapply preserves_trans.
        -- eapply touches_preserves; eauto.
        -- eapply touches_preserves; eauto.
           apply safe_copy_touches.
           destruct T1 as [_ T1]. rewrite parent_child in T1. auto.
Qed.

Lemma copy_pass_preserves (items : list string) :
  (forall m q, In m items -> Q q -> diverge (child dst m) q = true) ->
  forall st o st',
    is_dir (fs st) dst = true -> lookup src (fs st) = L0 ->
    Core.copy_pass denied recurse src dst dst_items items st = (o, st') ->
    preserves Q dst (fs st) (fs st').
Proof.
  induction items as [|m items IH]; intros HQ st o st' Hd Hs H.
  - simpl in H. inversion H; subst. apply preserves_refl.
  - simpl in H.
    destruct (Core.sync_item denied recurse src dst dst_items m st)
      as [o1 st1] eqn:E1.
    assert (P1 : preserves Q dst (fs st) (fs st1)).
    { eapply sync_item_preserves; eauto. intros q Hq. apply HQ; simpl; auto. }
    destruct o1.
    + eapply preserves_trans; [exact P1|].
      eapply IH; eauto.
      * intros m' q Hm Hq. apply HQ; simpl; auto.
      * destruct P1 as [_ B]. auto.
      * destruct P1 as [A _]. rewrite A; auto.
    + inversion H; subst. exact P1.
Qed.

End Level.

End CoreFacts.

Section CoreFrame.

Variable denied : path -> bool.
Variable task : BackupTask path.

Let src := source task.
Let dst := destination task.
Let pats := exclude_patterns task.

Lemma preserves_weaken (Q Q' : path -> Prop) a fs0 fs1 :
  (forall q, Q' q -> Q q) -> preserves Q a fs0 fs1 -> preserves Q' a fs0 fs1.
Proof. intros HQ [A B]. split; auto. Qed.

Lemma iterdir_Ok (p : path) (fs0 : node) (l : list string) :
  iterdir denied p fs0 = Ok l -> l = children_names fs0 p.
Proof.
  unfold iterdir, children_names. destruct (denied p); [discriminate|].
  destruct (lookup p fs0) as [[sz mt|es]|]; intros H; inversion H; auto.
Qed.

Lemma src_items_of_ext (fs0 fs1 : node) :
  lookup src fs1 = lookup src fs0 ->
  src_items_of fs1 src pats = src_items_of fs0 src pats.
Proof. unfold src_items_of, children_names. now intros ->. Qed.

Lemma untouched_src (items : list string) :
  diverge dst src = true -> untouched_by dst items src.
Proof.
  intros Hd. split.
  - now apply diverge_not_prefix.
  - intros m _. now apply diverge_app_l.
Qed.

(** Without the deletion pass, a run (finished or interrupted by an
    exception) changes nothing outside [dst / m], [m] a key of
    [src_items]. *)
Lemma core_sync_preserves (fuel : nat) :
  diverge dst src = true ->
  forall st o st',
    Core.sync_recursive denied fuel task false st = (o, st') ->
    preserves (untouched_by dst (src_items_of (fs st) src pats)) dst
              (fs st) (fs st').
Proof.
  intros Hdiv. induction fuel as [|fuel IH]; intros st o st' H.
  - simpl in H. inversion H; subst. apply preserves_refl.
  - simpl in H. unfold Core.sync_body in H.
    fold src dst pats in H.
    destruct (negb (exists_ (fs st) src)).
    { inversion H; subst. apply preserves_refl. }
    destruct (mkdir_parents denied dst (fs st)) as [fs1|e] eqn:Emk.
    2:{ inversion H; subst. apply preserves_refl. }
    assert (Hsrc1 : lookup src fs1 = lookup src (fs st)).
    { eapply mkdir_parents_frame; eauto. now apply diverge_not_prefix. }
    assert (P0 : preserves (untouched_by dst (src_items_of (fs st) src pats))
                           dst (fs st) fs1).
    { split.
      - intros q [Hq _]. eapply mkdir_parents_frame; eauto.
      - intros _. eapply mkdir_parents_is_dir; eauto. }
    destruct (iterdir denied src fs1) as [children|e1] eqn:E1.
    2:{ destruct e1; simpl in H; inversion H; subst; exact P0. }
    destruct (iterdir denied dst fs1) as [dst_items|e2] eqn:E2.
    2:{ destruct e2; simpl in H; inversion H; subst; exact P0. }
    apply iterdir_Ok in E1. subst children.
    change (Core.filter_excluded src pats (children_names fs1 src))
      with (src_items_of fs1 src pats) in H.
    rewrite (src_items_of_ext _ _ Hsrc1) in H.
    set (items := src_items_of (fs st) src pats) in *.
    destruct (Core.copy_pass denied (Core.sync_recursive denied fuel task false)
                             src dst dst_items items (with_fs fs1 st))
      as [o2 st2] eqn:Ecp.
    assert (P1 : preserves (untouched_by dst items) dst fs1 (fs st2)).
    { eapply (@copy_pass_preserves denied src dst dst_items
                (Core.sync_recursive denied fuel task false)
                (untouched_by dst items) (lookup src (fs st)))
        with (st := with_fs fs1 st); eauto.
      - now apply untouched_src.
      - intros stk ok stk' Hdk Hsk Hr.
        apply IH in Hr. rewrite (src_items_of_ext _ _ Hsk) in Hr. exact Hr.
      - intros m q Hm [_ Hq]. auto.
      - simpl. eapply mkdir_parents_is_dir; eauto. }
    destruct o2; inversion H; subst; eapply preserves_trans; eauto.
Qed.

End CoreFrame.

Section CoreLevel.

Variable denied : path -> bool.

Lemma safe_remove_removes (a : path) (k : string) (st : state) :
  denied (child a k) = false ->
  lookup (child a k) (fs (Core.safe_remove denied (child a k) st)) = None.
Proof.
  intros Hden. unfold Core.safe_remove, is_dir.
  destruct (lookup (child a k) (fs st)) as [[sz mt|es]|] eqn:E.
  - destruct (unlink denied (child a k) (fs st)) as [fs1|e] eqn:U; simpl.
    + eapply unlink_removes; eauto.
    + unfold unlink in U. rewrite Hden, E in U. discriminate.
  - destruct (rmtree denied (child a k) (fs st)) as [fs1|e] eqn:U; simpl.
    + eapply rmtree_removes; eauto.
    + unfold rmtree in U. rewrite Hden, E in U. discriminate.
  - destruct (unlink denied (child a k) (fs st)) as [fs1|e] eqn:U; simpl.
    + eapply unlink_removes; eauto.
    + exact E.
Qed.

Lemma safe_remove_keeps_missing (a : path) (k m : string) (st : state) :
  lookup (child a k) (fs st) = None ->
  lookup (child a k) (fs (Core.safe_remove denied (child a m) st)) = None.
Proof.
  intros Hnone. destruct (String.eqb m k) eqn:E.
  - apply String.eqb_eq in E. subst m.
    unfold Core.safe_remove, is_dir, unlink. rewrite Hnone.
    destruct (denied (child a k)); simpl; exact Hnone.
  - apply String.eqb_neq in E.
    destruct (safe_remove_touches denied a m st) as [A _].
    rewrite A; auto. now apply diverge_child.
Qed.

Lemma delete_pass_keeps_missing (dst : path) (src_items dst_items : list string)
      (k : string) :
  forall st,
    lookup (child dst k) (fs st) = None ->
    lookup (child dst k)
           (fs (Core.delete_pass denied dst src_items dst_items st)) = None.
Proof.
  induction dst_items as [|m rest IH]; intros st H; simpl; auto.
  destruct (negb (mem_string m src_items)); auto.
  apply IH. now apply safe_remove_keeps_missing.
Qed.

(** Every destination child without a namesake among [src_items] is gone
    after the deletion pass, unless access to it is refused. *)
Lemma delete_pass_removes (dst : path) (src_items dst_items : list string)
      (k : string) :
  forall st,
    In k dst_items -> mem_string k src_items = false ->
    denied (child dst k) = false ->
    lookup (child dst k)
           (fs (Core.delete_pass denied dst src_items dst_items st)) = None.
Proof.
  induction dst_items as [|m rest IH]; intros st Hin Hmem Hden; [contradiction|].
  simpl. destruct Hin as [->|Hin].
  - rewrite Hmem. simpl.
    apply delete_pass_keeps_missing. now apply safe_remove_removes.
  - destruct (negb (mem_string m src_items)); auto.
Qed.

(** The deletion pass touches nothing else. *)
Lemma delete_pass_keeps (dst : path) (src_items dst_items : list string)
      (q : path) :
  (forall m, In m dst_items -> mem_string m src_items = false ->
             diverge (child dst m) q = true) ->
  forall st,
    lookup q (fs (Core.delete_pass denied dst src_items dst_items st))
    = lookup q (fs st).
Proof.
  induction dst_items as [|m rest IH]; intros HQ st; simpl; auto.
  destruct (mem_string m src_items) eqn:Em; simpl.
  - apply IH. intros m' Hm'. apply HQ. now right.
  - rewrite IH by (intros m' Hm'; apply HQ; now right).
    destruct (safe_remove_touches denied dst m st) as [A _].
    apply A. apply HQ; [now left | exact Em].
Qed.

Lemma remove_attempts_app (l1 l2 : list event) :
  remove_attempts (l1 ++ l2) = remove_attempts l1 ++ remove_attempts l2.
Proof.
  induction l1 as [|e l1 IH]; simpl; auto.
  destruct e as [[]|]; simpl; rewrite ?IH; auto.
Qed.

End CoreLevel.

(* ================================================================== *)
(** * The matcher on the names of the scenarios *)

Example glob_log : Glob.fnmatch "a.log" "*.log" = true.
Proof. reflexivity. Qed.

Example glob_dir : Glob.fnmatch "logs" "*.log" = false.
Proof. reflexivity. Qed.

Example glob_nested : Glob.fnmatch "logs/a.log" "*.log" = true.
Proof. reflexivity. Qed.

Example glob_class : Glob.fnmatch "b7" "[a-c][!a-z]" = true.
Proof. reflexivity. Qed.

Example glob_open_bracket : Glob.fnmatch "[x" "[x" = true.
Proof. reflexivity. Qed.

Example glob_trailing_segment : Glob.fnmatch "a/b/.git" "**/.git" = true.
Proof. reflexivity. Qed.

(* ================================================================== *)
(** * Exclusion and whole-directory copies *)

Section WholeDirectory.

Variable denied : path -> bool.

(** A source directory that is absent at the destination is copied as it
    is: [safe_copy] consults no pattern. *)
Lemma safe_copy_dir_verbatim (s a : path) (k : string) (es : listing)
      (st : state) :
  is_dir (fs st) a = true ->
  lookup s (fs st) = Some (Dir es) ->
  lookup (child a k) (fs st) = None ->
  denied s = false -> denied (child a k) = false ->
  lookup (child a k) (fs (Core.safe_copy denied s (child a k) st))
  = Some (Dir es).
Proof.
  intros Ha Hs Hk Ds Dk. unfold Core.safe_copy.
  rewrite parent_child, (mkdir_parents_existing denied _ _ Ha).
  unfold is_dir at 1. rewrite Hs.
  unfold copytree. rewrite Ds, Dk, Hs, Hk. simpl.
  rewrite parent_child, (mkdir_parents_existing denied _ _ Ha). simpl.
  apply lookup_update_same_Some.
  - apply child_not_root.
  - now rewrite parent_child.
Qed.

End WholeDirectory.

(** C1 (the code departs from the claim).  In the scenario of the claim
    (source [x.txt] and [logs/a.log], pattern [*.log], empty destination,
    [delete_extra] set) the run returns with [copied_files = 1] and
    [errors = 0], and the pre-count of [get_total_files] leaves [logs/a.log]
    out; but [logs/a.log], whose path relative to the source root matches
    [*.log], is at the destination after the run: the directory [logs] was
    absent there and [shutil.copytree] copied it whole.  The engine of
    [app1.py] does the same. *)
Theorem C1_excluded_file_is_copied :
  let r := mirror no_denial 1 scenario_task scenario_state in
  fst r = Returned
  /\ is_excluded ["src"; "logs"; "a.log"]%string
                 (exclude_patterns scenario_task) (source scenario_task) = true
  /\ get_total_files scenario_fs (source scenario_task)
                     (exclude_patterns scenario_task) = 1
  /\ lookup ["dst"; "logs"; "a.log"]%string (fs (snd r)) = Some (File 5 100)
  /\ lookup ["dst"; "x.txt"]%string (fs (snd r)) = Some (File 10 100)
  /\ copied_files (metrics (snd r)) = 1
  /\ errors (metrics (snd r)) = 0
  /\ lookup ["dst"; "logs"; "a.log"]%string
            (fs (snd (App1.sync_recursive no_denial 1 ["src"]%string
                        ["dst"]%string ["*.log"]%string true scenario_state)))
     = Some (File 5 100).
Proof. vm_compute. repeat split; reflexivity. Qed.

(* ================================================================== *)
(** * The recursive call *)

Lemma nested_body_recurses (recurse : state -> outcome * state) :
  Core.sync_body no_denial recurse nested_task true nested_state
  = match recurse nested_state with
    | (Raised e, st2) => (Raised e, st2)
    | (Returned, st2) =>
        (Returned,
         Core.delete_pass no_denial ["dst"]%string ["d"]%string ["d"]%string st2)
    end.
Proof. vm_compute. destruct (recurse _) as [[|e] st2]; reflexivity. Qed.

Lemma nested_never_returns (fuel : nat) :
  Core.sync_recursive no_denial fuel nested_task true nested_state
  = (Raised RecursionError, nested_state).
Proof.
  induction fuel as [|fuel IH]; [reflexivity|].
  change (Core.sync_recursive no_denial (S fuel) nested_task true nested_state)
    with (Core.sync_body no_denial
            (Core.sync_recursive no_denial fuel nested_task true)
            nested_task true nested_state).
  rewrite nested_body_recurses, IH. reflexivity.
Qed.

(** C2 (the code departs from the claim).  With source [d/f] and a
    destination that already has the directory [d], the engine of
    [core/sync_logic.py] calls itself on the same task, hence on the same
    pair of directories: whatever the depth of stack allowed, the run ends in
    [RecursionError] with the file system untouched, and [d/f] is never
    copied.  The engine of [app1.py] recurses into the pair [(src/d, dst/d)]
    and copies [d/f]. *)
Theorem C2_core_recurses_on_same_pair :
  (forall fuel,
      mirror no_denial fuel nested_task nested_state
      = (Raised RecursionError, nested_state))
  /\ lookup ["dst"; "d"; "f"]%string (fs nested_state) = None
  /\ (let r := App1.sync_recursive no_denial 2 ["src"]%string ["dst"]%string
                 ["*.tmp"]%string true nested_state in
      fst r = Returned
      /\ lookup ["dst"; "d"; "f"]%string (fs (snd r)) = Some (File 3 7)).
Proof.
  split; [|split].
  - intros fuel. apply nested_never_returns.
  - reflexivity.
  - vm_compute. split; reflexivity.
Qed.

(* ================================================================== *)
(** * Running twice *)

Lemma second_run_body_recurses (recurse : state -> outcome * state) :
  Core.sync_body no_denial recurse scenario_task true scenario_after_first_run
  = match recurse scenario_after_first_run with
    | (Raised e, st2) => (Raised e, st2)
    | (Returned, st2) =>
        (Returned,
         Core.delete_pass no_denial ["dst"]%string ["x.txt"; "logs"]%string
                          ["x.txt"; "logs"]%string st2)
    end.
Proof. vm_compute. destruct (recurse _) as [[|e] st2]; reflexivity. Qed.

Lemma second_run_never_returns (fuel : nat) :
  Core.sync_recursive no_denial fuel scenario_task true scenario_after_first_run
  = (Raised RecursionError, scenario_after_first_run).
Proof.
  induction fuel as [|fuel IH]; [reflexivity|].
  change (Core.sync_recursive no_denial (S fuel) scenario_task true
            scenario_after_first_run)
    with (Core.sync_body no_denial
            (Core.sync_recursive no_denial fuel scenario_task true)
            scenario_task true scenario_after_first_run).
  rewrite second_run_body_recurses, IH. reflexivity.
Qed.

(** C7 (the code departs from the claim).  In the scenario of C1 the first
    run returns.  The second run of the engine of [core/sync_logic.py], on
    the unchanged source, never completes: [logs] is now a directory on both
    sides and the engine recurses on the same task until [RecursionError].
    The engine of [app1.py] completes its second run, and deletes
    [logs/a.log] from the destination during it. *)
Theorem C7_second_run_is_not_idle :
  fst (mirror no_denial 1 scenario_task scenario_state) = Returned
  /\ (forall fuel,
         mirror no_denial fuel scenario_task scenario_after_first_run
         = (Raised RecursionError, scenario_after_first_run))
  /\ (let run := App1.sync_recursive no_denial 3 ["src"]%string ["dst"]%string
                   ["*.log"]%string true in
      let first := run scenario_state in
      let second := run (snd first) in
      fst first = Returned /\ fst second = Returned
      /\ remove_attempts (trace (snd first)) = []
      /\ remove_attempts (trace (snd second)) = [["dst"; "logs"; "a.log"]%string]
      /\ lookup ["dst"; "logs"; "a.log"]%string (fs (snd first)) = Some (File 5 100)
      /\ lookup ["dst"; "logs"; "a.log"]%string (fs (snd second)) = None).
Proof.
  split; [|split].
  - reflexivity.
  - intros fuel. apply second_run_never_returns.
  - vm_compute. repeat split; reflexivity.
Qed.

(* ================================================================== *)
(** * Destination-only entries *)

(** C9.  When [delete_extra] is false, a destination entry whose name is not
    the name of a child of the source holds after the run exactly what it
    held before (for a source and a destination of which neither lies inside
    the other); this is so for every environment, whether the run returns or
    is interrupted by an exception. *)
Theorem C9_extras_survive_without_delete_extra :
  forall (denied : path -> bool) (fuel : nat) (task : BackupTask path)
         (st : state) (n : string),
    delete_extra task = false ->
    diverge (destination task) (source task) = true ->
    mem_string n (children_names (fs st) (source task)) = false ->
    lookup (child (destination task) n) (fs (snd (mirror denied fuel task st)))
    = lookup (child (destination task) n) (fs st).
Proof.
  intros denied fuel task st n Hde Hdiv Hn. unfold mirror. rewrite Hde.
  destruct (Core.sync_recursive denied fuel task false st) as [o st'] eqn:E.
  destruct (core_sync_preserves denied task fuel Hdiv st E) as [A _].
  simpl. apply A. split.
  - apply child_not_prefix.
  - intros m Hm. apply diverge_child.
    intros ->. apply mem_string_not_In in Hn. apply Hn.
    unfold src_items_of, Core.filter_excluded in Hm.
    apply filter_In in Hm. tauto.
Qed.

(** The scenario of the claim: [stale.bin] is at the destination only, the
    run returns, and [stale.bin] is as it was. *)
Lemma C9_stale_bin_untouched :
  fst (mirror no_denial 1 stale_task stale_state) = Returned
  /\ lookup (child (destination stale_task) "stale.bin")
            (fs (snd (mirror no_denial 1 stale_task stale_state)))
     = Some (File 7 50).
Proof.
  split; [reflexivity|].
  exact (C9_extras_survive_without_delete_extra
           no_denial 1 stale_task stale_state "stale.bin"
           eq_refl eq_refl eq_refl).
Defined.

(* ================================================================== *)
(** * Counters and callbacks *)

Lemma count_events_app (f : event -> bool) (l1 l2 : list event) :
  count_events f (l1 ++ l2) = count_events f l1 + count_events f l2.
Proof. unfold count_events. now rewrite filter_app, length_app. Qed.

Lemma accounted_refl (st : state) : accounted st st.
Proof.
  exists []. unfold count_events. simpl. rewrite app_nil_r.
  repeat split; lia.
Qed.

Lemma accounted_trans (st0 st1 st2 : state) :
  accounted st0 st1 -> accounted st1 st2 -> accounted st0 st2.
Proof.
  intros [e1 [T1 [E1 C1]]] [e2 [T2 [E2 C2]]]. exists (e1 ++ e2).
  rewrite T2, T1, E2, E1, C2, C1, !count_events_app, <- app_assoc.
  repeat split; lia.
Qed.

Ltac account evs :=
  exists evs; unfold count_events; simpl;
  rewrite <- ?app_assoc, ?app_nil_r; simpl;
  repeat split; try reflexivity; lia.

Section Accounting.

Variable denied : path -> bool.

Lemma with_fs_accounted (fs1 : node) (st : state) : accounted st (with_fs fs1 st).
Proof. account (@nil event). Qed.

Lemma log_accounted (msg : message) (st : state) :
  is_failure (Log msg) = false -> accounted st (log_callback msg st).
Proof.
  intros H. exists [Log msg]. unfold count_events.
  cbn [filter is_progress]. rewrite H. simpl.
  repeat split; lia.
Qed.

End Accounting.

(* ================================================================== *)
(** * A level of the walk *)

(** A level whose two listings succeed: the copy pass, then, if it returned
    and [should_delete] is set, the deletion pass. *)
Lemma sync_body_at_level (denied : path -> bool)
      (recurse : state -> outcome * state) (task : BackupTask path)
      (should_delete : bool) (st : state) (es ds : listing) :
  lookup (source task) (fs st) = Some (Dir es) ->
  lookup (destination task) (fs st) = Some (Dir ds) ->
  denied (source task) = false -> denied (destination task) = false ->
  Core.sync_body denied recurse task should_delete st
  = match Core.copy_pass denied recurse (source task) (destination task)
            (names ds)
            (src_items_of (fs st) (source task) (exclude_patterns task)) st with
    | (Raised e, st2) => (Raised e, st2)
    | (Returned, st2) =>
        (Returned,
         if should_delete
         then Core.delete_pass denied (destination task)
                (src_items_of (fs st) (source task) (exclude_patterns task))
                (names ds) st2
         else st2)
    end.
Proof.
  intros Hsrc Hdst Dsrc Ddst.
  destruct st as [fs0 m pi tr]. simpl in *.
  assert (Hd : is_dir fs0 (destination task) = true)
    by (unfold is_dir; now rewrite Hdst).
  unfold Core.sync_body, exists_. simpl. rewrite Hsrc. simpl.
  rewrite (mkdir_parents_existing denied _ _ Hd).
  unfold iterdir. rewrite Dsrc, Ddst, Hsrc, Hdst.
  unfold with_fs, src_items_of, children_names. simpl. rewrite Hsrc.
  destruct (Core.copy_pass denied recurse (source task) (destination task)
              (names ds)
              (Core.filter_excluded (source task) (exclude_patterns task) (names es))
              (mkState fs0 m pi tr)) as [[|e] st2]; [|reflexivity].
  destruct should_delete; reflexivity.
Qed.

(* ================================================================== *)
(** * What a listing raises *)

Lemma iterdir_raises_OSError (denied : path -> bool) (p : path) (fs0 : node)
      (e : exn) :
  iterdir denied p fs0 = Raise e -> is_OSError e = true.
Proof.
  unfold iterdir. destruct (denied p).
  - intros H; inversion H; reflexivity.
  - destruct (lookup p fs0) as [[sz mt|es]|]; intros H; inversion H; reflexivity.
Qed.

(* ================================================================== *)
(** * A copy that succeeds *)

Section CallFacts.

Variable denied : path -> bool.

Lemma safe_copy_file_ok (s d : path) (st : state) (fs1 fs2 : node) :
  mkdir_parents denied (parent d) (fs st) = Ok fs1 ->
  is_dir fs1 s = false ->
  copy2 denied s d fs1 = Ok fs2 ->
  let m' := mkMetrics (total_files (metrics st))
                      (S (copied_files (metrics st)))
                      (errors (metrics st)) in
  Core.safe_copy denied s d st
  = mkState fs2 m' (progress_info st)
            (trace st ++ [Progress m' (progress_info st); Log (MsgCopied s d)]).
Proof.
  intros Hmk Hdir Hcp m'. unfold Core.safe_copy.
  rewrite Hmk, Hdir, Hcp.
  unfold log_callback, update_progress, incr_copied, with_fs; simpl.
  now rewrite <- app_assoc.
Qed.

End CallFacts.

(* ================================================================== *)
(** * The equality test *)

Lemma Qlt_bool_iff (a b : Q) : Qlt_bool a b = true <-> (a < b)%Q.
Proof.
  unfold Qlt_bool. rewrite negb_true_iff. split.
  - intros H. apply Qnot_le_lt. intros Hle.
    apply Qle_bool_iff in Hle. congruence.
  - intros H. destruct (Qle_bool b a) eqn:E; auto.
    apply Qle_bool_iff in E. exfalso. now apply (Qlt_not_le a b).
Qed.

Lemma is_file_not_dir (fs0 : node) (p : path) :
  is_file fs0 p = true -> is_dir fs0 p = false.
Proof.
  unfold is_file, is_dir. destruct (lookup p fs0) as [[sz mt|es]|]; congruence.
Qed.

(* ================================================================== *)
(** * The drive-root check *)

Lemma last_char_rstrip (s : string) (c : ascii) :
  last_char (rstrip_separators s) = Some c -> is_separator c = false.
Proof.
  induction s as [|a s IH]; simpl; [discriminate|].
  destruct (rstrip_separators s) as [|b r] eqn:E.
  - destruct (is_separator a) eqn:Ea; simpl; [discriminate|].
    intros H. inversion H; subst. exact Ea.
  - intros H. apply IH. exact H.
Qed.

Lemma last_char_map (f : ascii -> ascii) (s : string) :
  last_char (map_string f s) = option_map f (last_char s).
Proof.
  induction s as [|a s IH]; simpl; auto.
  destruct s as [|b s']; simpl in *; auto.
Qed.

Lemma upper_char_backslash (c : ascii) :
  upper_char c = backslash -> c = backslash.
Proof.
  destruct c as [[] [] [] [] [] [] [] []]; vm_compute; intros H;
    try discriminate; reflexivity.
Qed.

Lemma dangerous_end_in_backslash (d : string) :
  In d (map upper dangerous) -> last_char d = Some backslash.
Proof.
  intros H. vm_compute in H.
  repeat (destruct H as [<-|H]; [reflexivity|]). contradiction.
Qed.

(** No string that went through [rstrip("\\/")] and [upper()] is in the
    list of the drive roots. *)
Lemma dst_clean_not_dangerous (dst : string) :
  mem_string (upper (rstrip_separators dst)) (map upper dangerous) = false.
Proof.
  destruct (mem_string (upper (rstrip_separators dst)) (map upper dangerous))
    eqn:E; auto.
  apply mem_string_In, dangerous_end_in_backslash in E.
  unfold upper in E. rewrite last_char_map in E.
  destruct (last_char (rstrip_separators dst)) as [c|] eqn:L; [|discriminate].
  simpl in E. inversion E as [Hc]. apply upper_char_backslash in Hc. subst c.
  apply last_char_rstrip in L. discriminate.
Qed.

(** C6 (the code departs from the claim).  [validate_paths] never raises the
    drive-root error: the destination is compared after its trailing
    separators were stripped, with strings that all end in a backslash.  The
    destination ["C:\"] on Windows and the destination ["/"] on POSIX pass
    the validation. *)
Theorem C6_drive_root_check_never_fires :
  (forall is_absolute same_resolved src dst,
      validate_paths is_absolute same_resolved src dst <> Some DriveRootForbidden)
  /\ validate_paths windows_is_absolute String.eqb "D:\data" "C:\" = None
  /\ validate_paths windows_is_absolute String.eqb "D:\data" "c:\\" = None
  /\ validate_paths posix_is_absolute String.eqb "/home/user/data" "/" = None.
Proof.
  split; [|repeat split; reflexivity].
  intros is_absolute same_resolved src dst. unfold validate_paths.
  destruct (negb (is_absolute src) || negb (is_absolute dst)); [discriminate|].
  destruct (same_resolved src dst); [discriminate|].
  rewrite dst_clean_not_dangerous. discriminate.
Qed.

(* ================================================================== *)
(** * Further properties: exclusion *)

Lemma relative_to_app (base rel : path) : relative_to (base ++ rel) base = Some rel.
Proof.
  induction base as [|b base IH]; simpl.
  - destruct rel; reflexivity.
  - now rewrite String.eqb_refl.
Qed.

Lemma relative_to_prefix (p base : path) :
  is_prefix base p = false -> relative_to p base = None.
Proof.
  revert p. induction base as [|b base IH]; intros p H; simpl in H;
    [discriminate|].
  destruct p as [|x p]; [reflexivity|]. simpl.
  rewrite (String.eqb_sym b x) in H.
  destruct (String.eqb x b); simpl in H; auto.
Qed.

Lemma matches_star (q : list Glob.tok) (s : chars) :
  Glob.matches (Glob.TStar :: q) s
  = Glob.matches q s
    || match s with
       | [] => false
       | _ :: s' => Glob.matches (Glob.TStar :: q) s'
       end.
Proof. destruct s; reflexivity. Qed.

Lemma star_needs (c : ascii) (q : list Glob.tok) :
  (forall s, Glob.matches q s = true -> In c s) ->
  forall s, Glob.matches (Glob.TStar :: q) s = true -> In c s.
Proof.
  intros Hq s. induction s as [|x s IH]; rewrite matches_star; intros H.
  - rewrite orb_false_r in H. auto.
  - apply orb_true_iff in H. destruct H as [H|H]; auto. right. auto.
Qed.

Lemma literal_needs (c : ascii) (q : list Glob.tok) (s : chars) :
  Glob.matches (Glob.TLit c :: q) s = true -> In c s.
Proof.
  destruct s as [|x s]; simpl; [discriminate|].
  intros H. apply andb_true_iff in H. destruct H as [H _].
  apply Ascii.eqb_eq in H. now left.
Qed.

Lemma translate_globstar (pat : string) :
  Glob.translate (list_ascii_of_string ("**/" ++ pat))
  = Glob.TStar :: Glob.TStar :: Glob.TLit "/" ::
      Glob.translate (list_ascii_of_string pat).
Proof. reflexivity. Qed.

(** The alternative [**/pattern] only matches names that hold a slash. *)
Lemma globstar_needs_slash (name0 pat : string) :
  has_slash name0 = false -> Glob.fnmatch name0 ("**/" ++ pat) = false.
Proof.
  intros Hs. unfold Glob.fnmatch, Glob.fnmatchcase, Glob.normcase.
  rewrite translate_globstar.
  destruct (Glob.matches _ _) eqn:E; auto.
  assert (Hin : In "/"%char (list_ascii_of_string name0)).
  { revert E. apply (@star_needs "/"%char). apply (@star_needs "/"%char).
    intros s. apply literal_needs. }
  unfold has_slash in Hs.
  assert (existsb (Ascii.eqb "/") (list_ascii_of_string name0) = true).
  { apply existsb_exists. exists "/"%char.
    split; [exact Hin | apply Ascii.eqb_refl]. }
  congruence.
Qed.

(** X1.  For an immediate child of the base directory (which is how
    [sync_recursive] calls it) [is_excluded] is decided by the first
    alternative alone: the name is matched against each pattern, and the
    alternative [**/pattern] never adds a match. *)
Theorem X1_is_excluded_on_a_child :
  forall (base : path) (name0 : string) (patterns : list string),
    has_slash name0 = false ->
    is_excluded (child base name0) patterns base
    = existsb (fun pattern => Glob.fnmatch name0 pattern) patterns.
Proof.
  intros base name0 patterns Hs. unfold is_excluded, child.
  rewrite relative_to_app. simpl as_posix.
  induction patterns as [|pat patterns IH]; cbn [existsb]; auto.
  rewrite (@globstar_needs_slash name0 pat Hs), orb_false_r, IH. reflexivity.
Qed.

Lemma X1_on_a_log_file :
  is_excluded ["src"; "a.log"]%string ["*.tmp"; "*.log"]%string ["src"]%string
  = true.
Proof.
  exact (X1_is_excluded_on_a_child ["src"]%string "a.log"
           ["*.tmp"; "*.log"]%string eq_refl).
Defined.

(** X2.  The patterns are alternatives: a path is excluded by a list put
    together from two lists exactly when one of the two excludes it; so
    neither the order of the patterns nor a repetition changes the
    answer. *)
Theorem X2_patterns_are_alternatives :
  forall (p base : path) (l1 l2 : list string),
    is_excluded p (l1 ++ l2) base
    = is_excluded p l1 base || is_excluded p l2 base
    /\ is_excluded p (l1 ++ l2) base = is_excluded p (l2 ++ l1) base
    /\ is_excluded p (rev l1) base = is_excluded p l1 base
    /\ is_excluded p (l1 ++ l1) base = is_excluded p l1 base.
Proof.
  intros p base l1 l2. unfold is_excluded.
  destruct (relative_to p base) as [rel|]; [|repeat split; reflexivity].
  set (f := fun pattern : string =>
              Glob.fnmatch (as_posix rel) pattern
              || Glob.fnmatch (as_posix rel) ("**/" ++ pattern)).
  repeat split.
  - apply existsb_app.
  - rewrite !existsb_app. apply orb_comm.
  - induction l1 as [|x l1 IH]; simpl; auto.
    rewrite existsb_app, IH. simpl. rewrite orb_false_r. apply orb_comm.
  - rewrite existsb_app. apply orb_diag.
Qed.

(** X3.  [is_excluded] fails open: a path that does not lie at or below the
    base directory is never excluded, whatever the patterns. *)
Theorem X3_is_excluded_outside_base :
  forall (p base : path) (patterns : list string),
    is_prefix base p = false -> is_excluded p patterns base = false.
Proof.
  intros p base patterns H. unfold is_excluded.
  now rewrite (relative_to_prefix _ _ H).
Qed.

Lemma X3_outside_base_with_star :
  is_excluded ["other"; "a.log"]%string ["*"]%string ["src"]%string = false.
Proof.
  exact (X3_is_excluded_outside_base ["other"; "a.log"]%string ["src"]%string
           ["*"]%string eq_refl).
Defined.

(* ================================================================== *)
(** * Further properties: counting the files of the source *)

Lemma is_excluded_app (p base : path) (l1 l2 : list string) :
  is_excluded p (l1 ++ l2) base = is_excluded p l1 base || is_excluded p l2 base.
Proof.
  unfold is_excluded. destruct (relative_to p base); [apply existsb_app | reflexivity].
Qed.

Lemma is_excluded_nil (p base : path) : is_excluded p [] base = false.
Proof. unfold is_excluded. now destruct (relative_to p base). Qed.

Lemma files_below_length : forall n : node,
  List.length (files_below n) = count_files n.
Proof.
  fix IH 1. intros [sz mt | es]; [reflexivity|].
  simpl. induction es as [|[k c] es IHes]; [reflexivity|].
  rewrite length_app, length_map. f_equal; [apply IH | exact IHes].
Qed.

Lemma filter_length_mono (A : Type) (f g : A -> bool) (l : list A) :
  (forall x, f x = true -> g x = true) ->
  List.length (filter f l) <= List.length (filter g l).
Proof.
  intros Hfg. induction l as [|x l IH]; simpl; auto.
  destruct (f x) eqn:Ef.
  - rewrite (Hfg x Ef). simpl. lia.
  - destruct (g x); simpl; lia.
Qed.

(** X4.  [get_total_files] never counts more than the regular files below
    the source, counts all of them when nothing is excluded, counts nothing
    when the source is not a directory, and can only count fewer files when
    patterns are added. *)
Theorem X4_get_total_files_is_bounded :
  forall (fs0 : node) (src : path) (patterns more : list string),
    get_total_files fs0 src (patterns ++ more) <= get_total_files fs0 src patterns
    /\ get_total_files fs0 src patterns <= count_files_at fs0 src
    /\ get_total_files fs0 src []
       = (if is_dir fs0 src then count_files_at fs0 src else 0).
Proof.
  intros fs0 src patterns more.
  unfold get_total_files, count_files_at, is_dir.
  destruct (lookup src fs0) as [[sz mt|es]|];
    [repeat split; simpl; lia | | repeat split; lia].
  refine (conj _ (conj _ _)).
  - apply filter_length_mono. intros rel H.
    rewrite is_excluded_app in H. apply negb_true_iff in H.
    apply orb_false_iff in H. destruct H as [H _]. now rewrite H.
  - rewrite <- files_below_length. apply filter_length_le.
  - rewrite <- files_below_length. f_equal. apply forallb_filter_id.
    apply forallb_forall. intros rel _. now rewrite is_excluded_nil.
Qed.

(* ================================================================== *)
(** * Further properties: building a task *)

Lemma loads_not_KeyError (doc : string) : Json.loads doc <> Raise KeyError.
Proof.
  unfold Json.loads.
  destruct (Json.run Json.JStart (list_ascii_of_string doc)); discriminate.
Qed.

Section TaskEdges.

Variable P : Type.
Variable Path : string -> P.

(** X5.  A task never holds an empty exclusion list: [__init__] puts the
    default patterns in the place of [None] and of the empty list alike, and
    [from_dict] goes through [__init__]; a caller cannot switch the
    exclusions off by handing over no pattern. *)
Theorem X5_exclusions_cannot_be_switched_off :
  forall (name0 src dst : string) (flag : bool),
    exclude_patterns (BackupTask_init Path name0 src dst None flag)
    = DEFAULT_EXCLUDE_PATTERNS
    /\ exclude_patterns (BackupTask_init Path name0 src dst (Some []) flag)
       = DEFAULT_EXCLUDE_PATTERNS
    /\ (forall patterns,
           exclude_patterns
             (BackupTask_init Path name0 src dst patterns flag) <> [])
    /\ (forall data t,
           from_dict Path data = Ok t -> exclude_patterns t <> []).
Proof.
  intros name0 src dst flag.
  assert (Hinit : forall n s d patterns f,
             exclude_patterns (BackupTask_init Path n s d patterns f) <> []).
  { intros n s d [[|x l]|] f; simpl; discriminate. }
  refine (conj eq_refl (conj eq_refl (conj (fun pats => Hinit _ _ _ pats _) _))).
  intros data t. unfold from_dict.
  destruct (dict_get "name" data); [|discriminate].
  destruct (dict_get "source" data); [|discriminate].
  destruct (dict_get "destination" data); [|discriminate].
  destruct (Json.loads _); [|discriminate].
  intros H. inversion H; subst. apply Hinit.
Qed.

(** X6.  [from_dict] on a dictionary with missing keys: [KeyError] is
    raised exactly when one of [name], [source], [destination] is missing;
    a missing [delete_extra] gives [True], and when [exclude_patterns] is
    missing as well the task holds the default patterns. *)
Theorem X6_from_dict_missing_keys :
  forall data : dict,
    (from_dict Path data = Raise KeyError
     <-> dict_get "name" data = None
         \/ dict_get "source" data = None
         \/ dict_get "destination" data = None)
    /\ (dict_get "delete_extra" data = None ->
        forall t, from_dict Path data = Ok t -> delete_extra t = true)
    /\ (forall n s d,
           dict_get "name" data = Some n ->
           dict_get "source" data = Some s ->
           dict_get "destination" data = Some d ->
           dict_get "exclude_patterns" data = None ->
           dict_get "delete_extra" data = None ->
           from_dict Path data
           = Ok (mkBackupTask n (Path s) (Path d) DEFAULT_EXCLUDE_PATTERNS true)).
Proof.
  intros data. refine (conj _ (conj _ _)).
  - unfold from_dict. split.
    + destruct (dict_get "name" data); auto.
      destruct (dict_get "source" data); auto.
      destruct (dict_get "destination" data); auto.
      destruct (Json.loads _) as [l|e] eqn:E; [discriminate|].
      intros H. inversion H; subst. now apply loads_not_KeyError in E.
    + intros [H|[H|H]]; rewrite H; auto.
      * now destruct (dict_get "name" data).
      * destruct (dict_get "name" data); auto.
        now destruct (dict_get "source" data).
  - intros Hf t. unfold from_dict, dict_get_default. rewrite Hf.
    destruct (dict_get "name" data); [|discriminate].
    destruct (dict_get "source" data); [|discriminate].
    destruct (dict_get "destination" data); [|discriminate].
    destruct (Json.loads _); [|discriminate].
    intros H. inversion H; subst. reflexivity.
  - intros n s d Hn Hs Hd He Hf. unfold from_dict, dict_get_default.
    rewrite Hn, Hs, Hd, He, Hf. reflexivity.
Qed.

End TaskEdges.

Lemma X5_empty_list_in_a_dictionary :
  exclude_patterns (BackupTask_init (fun s => s) "t" "/a" "/b" (Some []) false)
  <> []
  /\ (from_dict (fun s => s)
        [ ("name", "t"); ("source", "/a"); ("destination", "/b");
          ("exclude_patterns", "[]"); ("delete_extra", "False") ]%string
      = Ok (mkBackupTask "t" "/a" "/b" DEFAULT_EXCLUDE_PATTERNS false)%string
      /\ DEFAULT_EXCLUDE_PATTERNS <> []).
Proof.
  split.
  - apply (X5_exclusions_cannot_be_switched_off (fun s => s) "t" "/a" "/b" false).
  - split; [reflexivity|].
    apply (proj2 (proj2 (proj2
             (X5_exclusions_cannot_be_switched_off (fun s => s) "t" "/a" "/b" false)))
             [ ("name", "t"); ("source", "/a"); ("destination", "/b");
               ("exclude_patterns", "[]"); ("delete_extra", "False") ]%string
             (mkBackupTask "t" "/a" "/b" DEFAULT_EXCLUDE_PATTERNS false)%string).
    reflexivity.
Defined.

Lemma X6_a_dictionary_of_three_keys :
  from_dict (fun s => s)
    [ ("name", "t"); ("source", "/a"); ("destination", "/b") ]%string
  = Ok (mkBackupTask "t" "/a" "/b" DEFAULT_EXCLUDE_PATTERNS true)%string.
Proof.
  exact (proj2 (proj2 (X6_from_dict_missing_keys (fun s : string => s)
                  [ ("name", "t"); ("source", "/a"); ("destination", "/b") ]%string))
           "t"%string "/a"%string "/b"%string
           eq_refl eq_refl eq_refl eq_refl eq_refl).
Defined.

(* ================================================================== *)
(** * Further properties: what a run can reach *)

Section StaysBelow.

Variable denied : path -> bool.

Lemma safe_copy_frame (s a : path) (k : string) (st : state) (q : path) :
  diverge a q = true ->
  lookup q (fs (Core.safe_copy denied s (child a k) st)) = lookup q (fs st).
Proof.
  intros Hq. unfold Core.safe_copy. rewrite parent_child.
  destruct (mkdir_parents denied a (fs st)) as [fsm|e] eqn:Emk; [|reflexivity].
  assert (Hm : lookup q fsm = lookup q (fs st)).
  { eapply mkdir_parents_frame; eauto. now apply diverge_not_prefix. }
  assert (Hd : is_dir fsm a = true) by (eapply mkdir_parents_is_dir; eauto).
  assert (Hq' : diverge (child a k) q = true) by (now apply diverge_app_l).
  destruct (is_dir fsm s).
  - destruct (copytree denied s (child a k) fsm) as [fs2|e] eqn:E; simpl; auto.
    rewrite <- Hm. now apply (@copytree_touches denied s a k fsm fs2 Hd E).
  - destruct (copy2 denied s (child a k) fsm) as [fs2|e] eqn:E; simpl; auto.
    rewrite <- Hm. now apply (@copy2_touches denied s a k fsm fs2 E).
Qed.

Lemma safe_remove_frame (a : path) (k : string) (st : state) (q : path) :
  diverge a q = true ->
  lookup q (fs (Core.safe_remove denied (child a k) st)) = lookup q (fs st).
Proof.
  intros Hq. apply (safe_remove_touches denied a k st). now apply diverge_app_l.
Qed.

Lemma app1_safe_copy_fs (s d : path) (st : state) :
  fs (App1.safe_copy denied s d st) = fs (Core.safe_copy denied s d st).
Proof.
  unfold App1.safe_copy, Core.safe_copy.
  destruct (mkdir_parents denied (parent d) (fs st)) as [fs1|e]; [|reflexivity].
  destruct (is_dir fs1 s).
  - now destruct (copytree denied s d fs1).
  - now destruct (copy2 denied s d fs1).
Qed.

Lemma app1_safe_remove_fs (p : path) (st : state) :
  fs (App1.safe_remove denied p st) = fs (Core.safe_remove denied p st).
Proof.
  unfold App1.safe_remove, Core.safe_remove.
  now destruct (if is_dir (fs st) p then rmtree denied p (fs st)
                else unlink denied p (fs st)).
Qed.

Lemma core_sync_item_frame (recurse : state -> outcome * state)
      (src dst : path) (dst_items : list string) (m : string) (st : state)
      (q : path) :
  (forall st0, lookup q (fs (snd (recurse st0))) = lookup q (fs st0)) ->
  diverge dst q = true ->
  lookup q (fs (snd (Core.sync_item denied recurse src dst dst_items m st)))
  = lookup q (fs st).
Proof.
  intros Hrec Hq. unfold Core.sync_item.
  destruct (negb (mem_string m dst_items)); simpl.
  - now apply safe_copy_frame.
  - destruct (is_dir (fs st) (child src m) && is_dir (fs st) (child dst m)).
    + apply Hrec.
    + destruct (is_file (fs st) (child src m) && is_file (fs st) (child dst m)).
      * destruct (files_are_equal (fs st) (child src m) (child dst m))
          as [[|]|e]; simpl; auto.
        now apply safe_copy_frame.
      * simpl. rewrite safe_copy_frame by assumption.
        now apply safe_remove_frame.
Qed.

Lemma core_copy_pass_frame (recurse : state -> outcome * state)
      (src dst : path) (dst_items items : list string) (q : path) :
  (forall st0, lookup q (fs (snd (recurse st0))) = lookup q (fs st0)) ->
  diverge dst q = true ->
  forall st,
    lookup q (fs (snd (Core.copy_pass denied recurse src dst dst_items items st)))
    = lookup q (fs st).
Proof.
  intros Hrec Hq. induction items as [|m items IH]; intros st; simpl; auto.
  pose proof (@core_sync_item_frame recurse src dst dst_items m st q Hrec Hq) as A.
  destruct (Core.sync_item denied recurse src dst dst_items m st) as [[|e] st1];
    simpl in *; auto.
  now rewrite IH.
Qed.

Lemma core_delete_pass_frame (dst : path) (src_items dst_items : list string)
      (q : path) (st : state) :
  diverge dst q = true ->
  lookup q (fs (Core.delete_pass denied dst src_items dst_items st))
  = lookup q (fs st).
Proof.
  intros Hq. apply delete_pass_keeps. intros m _ _. now apply diverge_app_l.
Qed.

Lemma core_sync_body_frame (recurse : state -> outcome * state)
      (task : BackupTask path) (sd : bool) (st : state) (q : path) :
  (forall st0, lookup q (fs (snd (recurse st0))) = lookup q (fs st0)) ->
  diverge (destination task) q = true ->
  lookup q (fs (snd (Core.sync_body denied recurse task sd st)))
  = lookup q (fs st).
Proof.
  intros Hrec Hq. unfold Core.sync_body.
  destruct (negb (exists_ (fs st) (source task))); [reflexivity|].
  destruct (mkdir_parents denied (destination task) (fs st)) as [fs1|e] eqn:Emk;
    [|reflexivity].
  assert (Hm : lookup q fs1 = lookup q (fs st)).
  { eapply mkdir_parents_frame; eauto. now apply diverge_not_prefix. }
  destruct (iterdir denied (source task) fs1) as [children|e1].
  2:{ destruct e1; simpl; exact Hm. }
  destruct (iterdir denied (destination task) fs1) as [dst_items|e2].
  2:{ destruct e2; simpl; exact Hm. }
  pose proof (@core_copy_pass_frame recurse (source task) (destination task)
                dst_items
                (Core.filter_excluded (source task) (exclude_patterns task) children)
                q Hrec Hq (with_fs fs1 st)) as A.
  destruct (Core.copy_pass denied recurse (source task) (destination task)
              dst_items
              (Core.filter_excluded (source task) (exclude_patterns task) children)
              (with_fs fs1 st)) as [[|e] st2]; simpl in *.
  - destruct sd; simpl.
    + rewrite core_delete_pass_frame by assumption. now rewrite A.
    + now rewrite A.
  - now rewrite A.
Qed.

Lemma app1_sync_item_frame (recurse : path -> path -> state -> outcome * state)
      (src dst : path) (dst_items : list string) (m : string) (st : state)
      (q : path) :
  (forall s k st0,
      lookup q (fs (snd (recurse s (child dst k) st0))) = lookup q (fs st0)) ->
  diverge dst q = true ->
  lookup q (fs (snd (App1.sync_item denied recurse src dst dst_items m st)))
  = lookup q (fs st).
Proof.
  intros Hrec Hq. unfold App1.sync_item.
  destruct (negb (mem_string m dst_items)); simpl.
  - rewrite app1_safe_copy_fs. now apply safe_copy_frame.
  - destruct (is_dir (fs st) (child src m) && is_dir (fs st) (child dst m)).
    + apply Hrec.
    + destruct (is_file (fs st) (child src m) && is_file (fs st) (child dst m)).
      * destruct (files_are_equal (fs st) (child src m) (child dst m))
          as [[|]|e]; simpl; auto.
        rewrite app1_safe_copy_fs. now apply safe_copy_frame.
      * simpl. rewrite app1_safe_copy_fs, safe_copy_frame by assumption.
        rewrite app1_safe_remove_fs. now apply safe_remove_frame.
Qed.

Lemma app1_copy_pass_frame (recurse : path -> path -> state -> outcome * state)
      (src dst : path) (dst_items items : list string) (q : path) :
  (forall s k st0,
      lookup q (fs (snd (recurse s (child dst k) st0))) = lookup q (fs st0)) ->
  diverge dst q = true ->
  forall st,
    lookup q (fs (snd (App1.copy_pass denied recurse src dst dst_items items st)))
    = lookup q (fs st).
Proof.
  intros Hrec Hq. induction items as [|m items IH]; intros st; simpl; auto.
  pose proof (@app1_sync_item_frame recurse src dst dst_items m st q Hrec Hq) as A.
  destruct (App1.sync_item denied recurse src dst dst_items m st) as [[|e] st1];
    simpl in *; auto.
  now rewrite IH.
Qed.

Lemma app1_delete_pass_frame (dst : path) (src_items dst_items : list string)
      (q : path) :
  diverge dst q = true ->
  forall st,
    lookup q (fs (App1.delete_pass denied dst src_items dst_items st))
    = lookup q (fs st).
Proof.
  intros Hq. induction dst_items as [|m rest IH]; intros st; simpl; auto.
  destruct (negb (mem_string m src_items)); auto.
  rewrite IH, app1_safe_remove_fs. now apply safe_remove_frame.
Qed.

Lemma app1_sync_body_frame (recurse : path -> path -> state -> outcome * state)
      (src dst : path) (patterns : list string) (sd : bool) (st : state)
      (q : path) :
  (forall s k st0,
      lookup q (fs (snd (recurse s (child dst k) st0))) = lookup q (fs st0)) ->
  diverge dst q = true ->
  lookup q (fs (snd (App1.sync_body denied recurse src dst patterns sd st)))
  = lookup q (fs st).
Proof.
  intros Hrec Hq. unfold App1.sync_body.
  destruct (negb (exists_ (fs st) src)); [reflexivity|].
  destruct (mkdir_parents denied dst (fs st)) as [fs1|e] eqn:Emk; [|reflexivity].
  assert (Hm : lookup q fs1 = lookup q (fs st)).
  { eapply mkdir_parents_frame; eauto. now apply diverge_not_prefix. }
  destruct (iterdir denied src fs1) as [children|e1].
  2:{ destruct e1; simpl; exact Hm. }
  destruct (iterdir denied dst fs1) as [dst_items|e2].
  2:{ destruct e2; simpl; exact Hm. }
  pose proof (@app1_copy_pass_frame recurse src dst dst_items
                (Core.filter_excluded src patterns children)
                q Hrec Hq (with_fs fs1 st)) as A.
  destruct (App1.copy_pass denied recurse src dst dst_items
              (Core.filter_excluded src patterns children)
              (with_fs fs1 st)) as [[|e] st2]; simpl in *.
  - destruct sd; simpl.
    + rewrite app1_delete_pass_frame by assumption. now rewrite A.
    + now rewrite A.
  - now rewrite A.
Qed.

End StaysBelow.

(** X7.  A run of [core/sync_logic.py: sync_recursive] writes at or below
    the destination only, and at the ancestors it has to create: whatever
    the environment refuses, however the run ends and with or without the
    deletion pass, a path that lies neither on the way to the destination
    nor below it holds afterwards what it held before.  In particular the
    source tree is not modified when source and destination do not contain
    one another. *)
Theorem X7_core_run_stays_below_destination :
  forall (denied : path -> bool) (fuel : nat) (task : BackupTask path)
         (sd : bool) (st : state) (q : path),
    diverge (destination task) q = true ->
    lookup q (fs (snd (Core.sync_recursive denied fuel task sd st)))
    = lookup q (fs st).
Proof.
  intros denied fuel task sd st q Hq. revert st.
  induction fuel as [|fuel IH]; intros st; [reflexivity|].
  simpl. now apply core_sync_body_frame.
Qed.

Lemma X7_source_of_the_scenario_is_kept :
  lookup ["src"]%string (fs (snd (mirror no_denial 1 scenario_task scenario_state)))
  = lookup ["src"]%string scenario_fs.
Proof.
  exact (X7_core_run_stays_below_destination no_denial 1 scenario_task true
           scenario_state ["src"]%string eq_refl).
Defined.

(** X8.  The same for the engine of [app1.py], through all its recursive
    calls: every level works on a pair [src / name], [dst / name], and
    nothing outside the first destination is written. *)
Theorem X8_app1_run_stays_below_destination :
  forall (denied : path -> bool) (fuel : nat) (src dst : path)
         (patterns : list string) (sd : bool) (st : state) (q : path),
    diverge dst q = true ->
    lookup q (fs (snd (App1.sync_recursive denied fuel src dst patterns sd st)))
    = lookup q (fs st).
Proof.
  intros denied fuel src dst patterns sd st q. revert src dst st.
  induction fuel as [|fuel IH]; intros src dst st Hq; [reflexivity|].
  simpl. apply app1_sync_body_frame; auto.
  intros s k st0. apply IH. now apply diverge_app_l.
Qed.

Lemma X8_source_of_the_nested_scenario_is_kept :
  lookup ["src"; "d"; "f"]%string
         (fs (snd (App1.sync_recursive no_denial 2 ["src"]%string ["dst"]%string
                     ["*.tmp"]%string true nested_state)))
  = Some (File 3 7).
Proof.
  exact (X8_app1_run_stays_below_destination no_denial 2 ["src"]%string
           ["dst"]%string ["*.tmp"]%string true nested_state
           ["src"; "d"; "f"]%string eq_refl).
Defined.

(* ================================================================== *)
(** * Further properties: the counters of [app1.py] *)

Lemma app1_accounted_refl (st : state) : app1_accounted st st.
Proof.
  exists []. unfold count_events. simpl. rewrite app_nil_r.
  repeat split; lia.
Qed.

Lemma app1_accounted_trans (st0 st1 st2 : state) :
  app1_accounted st0 st1 -> app1_accounted st1 st2 -> app1_accounted st0 st2.
Proof.
  intros [e1 [T1 [M1 [N1 C1]]]] [e2 [T2 [M2 [N2 C2]]]]. exists (e1 ++ e2).
  rewrite T2, T1, M2, M1, N2, N1, C2, C1, !count_events_app, <- app_assoc.
  repeat split; lia.
Qed.

Section App1Accounting.

Variable denied : path -> bool.

Lemma app1_safe_copy_accounted (s d : path) (st : state) :
  app1_accounted st (App1.safe_copy denied s d st).
Proof.
  unfold App1.safe_copy.
  destruct (mkdir_parents denied (parent d) (fs st)) as [fs1|e].
  - destruct (is_dir fs1 s).
    + destruct (copytree denied s d fs1) as [fs2|e].
      * account [Log (MsgCopied s d)].
      * account [Log (MsgCopyError s d e)].
    + destruct (copy2 denied s d fs1) as [fs2|e].
      * account [Progress (metrics st)
                          (mkProgress (pi_total_files (progress_info st))
                                      (S (processed_files (progress_info st)))
                                      (basename s));
                 Log (MsgCopied s d)].
      * account [Log (MsgCopyError s d e)].
  - account [Log (MsgCopyError s d e)].
Qed.

Lemma app1_safe_remove_accounted (p : path) (st : state) :
  app1_accounted st (App1.safe_remove denied p st).
Proof.
  unfold App1.safe_remove.
  destruct (if is_dir (fs st) p then rmtree denied p (fs st)
            else unlink denied p (fs st)) as [fs1|e].
  - account [Log (MsgRemoved p)].
  - account [Log (MsgRemoveError p e)].
Qed.

Lemma app1_sync_item_accounted
      (recurse : path -> path -> state -> outcome * state)
      (src dst : path) (dst_items : list string) (m : string) (st : state) :
  (forall s d st0, app1_accounted st0 (snd (recurse s d st0))) ->
  app1_accounted st (snd (App1.sync_item denied recurse src dst dst_items m st)).
Proof.
  intros Hrec. unfold App1.sync_item.
  destruct (negb (mem_string m dst_items)); simpl.
  - apply app1_safe_copy_accounted.
  - destruct (is_dir (fs st) (child src m) && is_dir (fs st) (child dst m)).
    + apply Hrec.
    + destruct (is_file (fs st) (child src m) && is_file (fs st) (child dst m)).
      * destruct (files_are_equal (fs st) (child src m) (child dst m))
          as [[|]|e]; simpl.
        -- apply app1_accounted_refl.
        -- apply app1_safe_copy_accounted.
        -- apply app1_accounted_refl.
      * simpl. eapply app1_accounted_trans;
          [apply app1_safe_remove_accounted | apply app1_safe_copy_accounted].
Qed.

Lemma app1_copy_pass_accounted
      (recurse : path -> path -> state -> outcome * state)
      (src dst : path) (dst_items items : list string) :
  (forall s d st0, app1_accounted st0 (snd (recurse s d st0))) ->
  forall st,
    app1_accounted st
      (snd (App1.copy_pass denied recurse src dst dst_items items st)).
Proof.
  intros Hrec. induction items as [|m items IH]; intros st; simpl.
  - apply app1_accounted_refl.
  - pose proof (@app1_sync_item_accounted recurse src dst dst_items m st Hrec) as A.
    destruct (App1.sync_item denied recurse src dst dst_items m st) as [[|e] st1];
      simpl in *; auto.
    eapply app1_accounted_trans; [exact A | apply IH].
Qed.

Lemma app1_delete_pass_accounted (dst : path) (src_items dst_items : list string) :
  forall st,
    app1_accounted st (App1.delete_pass denied dst src_items dst_items st).
Proof.
  induction dst_items as [|m rest IH]; intros st; simpl.
  - apply app1_accounted_refl.
  - destruct (negb (mem_string m src_items)); auto.
    eapply app1_accounted_trans; [apply app1_safe_remove_accounted | apply IH].
Qed.

Lemma app1_sync_body_accounted
      (recurse : path -> path -> state -> outcome * state)
      (src dst : path) (patterns : list string) (sd : bool) (st : state) :
  (forall s d st0, app1_accounted st0 (snd (recurse s d st0))) ->
  app1_accounted st (snd (App1.sync_body denied recurse src dst patterns sd st)).
Proof.
  intros Hrec. unfold App1.sync_body.
  destruct (negb (exists_ (fs st) src)); simpl.
  { account [Log (MsgSourceMissing src)]. }
  destruct (mkdir_parents denied dst (fs st)) as [fs1|e]; simpl.
  2:{ apply app1_accounted_refl. }
  assert (A1 : app1_accounted st (with_fs fs1 st)) by (account (@nil event)).
  assert (A0 : forall msg, is_progress (Log msg) = false ->
                           app1_accounted st (log_callback msg (with_fs fs1 st))).
  { intros msg _. account [Log msg]. }
  destruct (iterdir denied src fs1) as [children|e1].
  2:{ destruct e1; simpl; try exact A1. now apply A0. }
  destruct (iterdir denied dst fs1) as [dst_items|e2].
  2:{ destruct e2; simpl; try exact A1. now apply A0. }
  pose proof (@app1_copy_pass_accounted recurse src dst dst_items
                (Core.filter_excluded src patterns children)
                Hrec (with_fs fs1 st)) as A2.
  destruct (App1.copy_pass denied recurse src dst dst_items
              (Core.filter_excluded src patterns children)
              (with_fs fs1 st)) as [[|e] st2]; simpl in *.
  - destruct sd; simpl.
    + eapply app1_accounted_trans; [exact A1|].
      eapply app1_accounted_trans; [exact A2 | apply app1_delete_pass_accounted].
    + eapply app1_accounted_trans; [exact A1 | exact A2].
  - eapply app1_accounted_trans; [exact A1 | exact A2].
Qed.

End App1Accounting.

(** X9.  The engine of [app1.py] counts progress only: over a whole run,
    finished or not, [processed_files] grows by exactly the number of calls
    of [update_progress()], [total_files] is left alone, and no counter of
    failures is kept (the metrics are as before, however many copies or
    removals failed). *)
Theorem X9_app1_counts_progress_only :
  forall (denied : path -> bool) (fuel : nat) (src dst : path)
         (patterns : list string) (sd : bool) (st : state),
    app1_accounted st
      (snd (App1.sync_recursive denied fuel src dst patterns sd st)).
Proof.
  intros denied fuel src dst patterns sd. revert src dst.
  induction fuel as [|fuel IH]; intros src dst st.
  - apply app1_accounted_refl.
  - simpl. apply app1_sync_body_accounted. intros s d st0. apply IH.
Qed.

(* ================================================================== *)
(** * Further properties: a source that is not a directory *)

Section NotADirectory.

Variable denied : path -> bool.

Lemma mkdir_walk_keeps_files (p : path) :
  forall (pre : path) (n n' : node) (q : path) (sz : Z) (mt : Q),
    mkdir_walk denied pre p n = Ok n' ->
    lookup q n = Some (File sz mt) -> lookup q n' = Some (File sz mt).
Proof.
  induction p as [|k p IH]; intros pre n n' q sz mt H Hq.
  - simpl in H. destruct n; inversion H; subst; exact Hq.
  - destruct n as [sz0 mt0|es]; [discriminate|]. simpl in H.
    destruct q as [|x q]; [discriminate|]. simpl in Hq.
    destruct (assoc k es) as [c|] eqn:Ea.
    + destruct (mkdir_walk denied (pre ++ [k]) p c) as [c'|e] eqn:E;
        [|discriminate].
      inversion H; subst. simpl.
      destruct (String.eqb x k) eqn:Exk.
      * apply String.eqb_eq in Exk. subst x. rewrite assoc_set_same.
        rewrite Ea in Hq. eapply IH; eauto.
      * apply String.eqb_neq in Exk.
        rewrite assoc_set_other by congruence. exact Hq.
    + destruct (denied (pre ++ [k])); [discriminate|].
      destruct (mkdir_walk denied (pre ++ [k]) p (Dir [])) as [c'|e] eqn:E;
        [|discriminate].
      inversion H; subst. simpl.
      destruct (String.eqb x k) eqn:Exk.
      * apply String.eqb_eq in Exk. subst x. rewrite Ea in Hq. discriminate.
      * apply String.eqb_neq in Exk.
        rewrite assoc_set_other by congruence. exact Hq.
Qed.

Lemma mkdir_parents_keeps_files (p : path) (fs0 fs1 : node) (q : path)
      (sz : Z) (mt : Q) :
  mkdir_parents denied p fs0 = Ok fs1 ->
  lookup q fs0 = Some (File sz mt) -> lookup q fs1 = Some (File sz mt).
Proof.
  unfold mkdir_parents.
  destruct (lookup p fs0) as [[sz0 mt0|es]|].
  - discriminate.
  - intros H. now inversion H; subst.
  - apply mkdir_walk_keeps_files.
Qed.

End NotADirectory.

(** X10.  A source that exists but is a regular file.  Both engines create
    the destination directory first.  Then [src.iterdir()] raises
    [NotADirectoryError]: [core/sync_logic.py] catches it as an [OSError],
    logs one line, counts no error and returns; [app1.py], which catches
    [PermissionError] only, lets it reach the caller. *)
Theorem X10_source_is_a_regular_file :
  forall (denied : path -> bool) (fuel : nat) (task : BackupTask path)
         (sd : bool) (st : state) (sz : Z) (mt : Q) (fs1 : node),
    lookup (source task) (fs st) = Some (File sz mt) ->
    denied (source task) = false ->
    mkdir_parents denied (destination task) (fs st) = Ok fs1 ->
    Core.sync_recursive denied (S fuel) task sd st
    = (Returned,
       log_callback (MsgAccessError (source task) (destination task)
                                    NotADirectoryError)
                    (with_fs fs1 st))
    /\ App1.sync_recursive denied (S fuel) (source task) (destination task)
                           (exclude_patterns task) sd st
       = (Raised NotADirectoryError, with_fs fs1 st).
Proof.
  intros denied fuel task sd st sz mt fs1 Hsrc Hden Hmk.
  pose proof (mkdir_parents_keeps_files denied _ _ _ Hmk Hsrc) as Hsrc1.
  split; simpl.
  - unfold Core.sync_body, exists_, iterdir.
    rewrite Hsrc, Hmk, Hden, Hsrc1. reflexivity.
  - unfold App1.sync_body, exists_, iterdir.
    rewrite Hsrc, Hmk, Hden, Hsrc1. reflexivity.
Qed.

Lemma X10_a_file_given_as_source :
  let fs0 := Dir [ ("notes.txt", File 3 5) ]%string in
  let task := (mkBackupTask "t" ["notes.txt"] ["backup"] ["*.tmp"] true)%string in
  let fs1 := Dir [ ("notes.txt", File 3 5); ("backup", Dir []) ]%string in
  let st := initial_state fs0 0 in
  mirror no_denial 1 task st
  = (Returned,
     log_callback (MsgAccessError ["notes.txt"] ["backup"] NotADirectoryError)%string
                  (with_fs fs1 st))
  /\ App1.sync_recursive no_denial 1 ["notes.txt"]%string ["backup"]%string
                         ["*.tmp"]%string true st
     = (Raised NotADirectoryError, with_fs fs1 st).
Proof.
  exact (X10_source_is_a_regular_file no_denial 0
           (mkBackupTask "t" ["notes.txt"] ["backup"] ["*.tmp"] true)%string true
           (initial_state (Dir [ ("notes.txt", File 3 5) ]%string) 0)
           eq_refl eq_refl eq_refl).
Defined.

(* ================================================================== *)
(** * Further properties: a copied file and the next comparison *)

Lemma files_are_equal_ext (fs0 fs1 : node) (f1 f2 : path) :
  lookup f1 fs1 = lookup f1 fs0 -> lookup f2 fs1 = lookup f2 fs0 ->
  files_are_equal fs1 f1 f2 = files_are_equal fs0 f1 f2.
Proof. unfold files_are_equal, exists_, stat. now intros -> ->. Qed.

Lemma files_are_equal_same (fs0 : node) (f1 f2 : path) (sz : Z) (mt : Q) :
  lookup f1 fs0 = Some (File sz mt) -> lookup f2 fs0 = Some (File sz mt) ->
  files_are_equal fs0 f1 f2 = Ok true.
Proof.
  unfold files_are_equal, exists_, stat. intros -> ->. simpl.
  rewrite Z.eqb_refl. simpl. f_equal. apply Qlt_bool_iff.
  assert (Z0 : (Qnum mt * QDen mt + - Qnum mt * QDen mt = 0)%Z) by ring.
  rewrite Z0. reflexivity.
Qed.

Lemma files_are_equal_true_inv (fs0 : node) (f1 f2 : path) :
  files_are_equal fs0 f1 f2 = Ok true ->
  is_file fs0 f1 = true /\ is_file fs0 f2 = true.
Proof.
  unfold files_are_equal, exists_, stat, is_file.
  destruct (lookup f2 fs0) as [[sz2 mt2|es2]|]; simpl; try discriminate;
    destruct (lookup f1 fs0) as [[sz1 mt1|es1]|]; simpl; try discriminate; auto.
Qed.

Lemma path_eqb_diverge (p q : path) : diverge q p = true -> path_eqb p q = false.
Proof.
  intros H. unfold path_eqb. rewrite (diverge_not_prefix _ _ H).
  apply andb_false_r.
Qed.

Lemma diverge_children (d s : path) (n m : string) :
  diverge d s = true -> diverge (child d n) (child s m) = true.
Proof. intros H. unfold child. now apply diverge_app_l, diverge_app_r. Qed.

Lemma safe_copy_file_lands (denied : path -> bool) (src dst : path) (m : string)
      (st : state) (sz : Z) (mt : Q) :
  diverge dst src = true ->
  is_dir (fs st) dst = true ->
  lookup (child src m) (fs st) = Some (File sz mt) ->
  is_dir (fs st) (child dst m) = false ->
  denied (child src m) = false -> denied (child dst m) = false ->
  let m' := mkMetrics (total_files (metrics st))
                      (S (copied_files (metrics st)))
                      (errors (metrics st)) in
  Core.safe_copy denied (child src m) (child dst m) st
  = mkState (update (child dst m) (Some (File sz mt)) (fs st)) m'
            (progress_info st)
            (trace st ++ [Progress m' (progress_info st);
                          Log (MsgCopied (child src m) (child dst m))]).
Proof.
  intros Hdiv Hd Hs Hdm Ds Dd m'.
  apply (@safe_copy_file_ok denied (child src m) (child dst m) st (fs st)
           (update (child dst m) (Some (File sz mt)) (fs st))).
  - rewrite parent_child. now apply mkdir_parents_existing.
  - unfold is_dir. now rewrite Hs.
  - unfold copy2. rewrite Ds, Dd, Hs, Hdm. simpl.
    rewrite (@path_eqb_diverge (child src m) (child dst m)
               (@diverge_children dst src m m Hdiv)).
    rewrite Hdm, parent_child, Hd. reflexivity.
Qed.

(** X11.  A regular file that [safe_copy] has put in place compares equal
    to its source ([shutil.copy2] carries the size and the modification
    time over), so the next pass over the same name leaves it alone: the
    copy is counted once, no error is counted, and a later visit of the
    name neither copies nor logs. *)
Theorem X11_copied_file_is_left_alone :
  forall (denied : path -> bool) (src dst : path) (name0 : string)
         (st : state) (sz : Z) (mt : Q),
    diverge dst src = true ->
    is_dir (fs st) dst = true ->
    lookup (child src name0) (fs st) = Some (File sz mt) ->
    is_dir (fs st) (child dst name0) = false ->
    denied (child src name0) = false -> denied (child dst name0) = false ->
    let st' := Core.safe_copy denied (child src name0) (child dst name0) st in
    lookup (child dst name0) (fs st') = Some (File sz mt)
    /\ files_are_equal (fs st') (child src name0) (child dst name0) = Ok true
    /\ copied_files (metrics st') = S (copied_files (metrics st))
    /\ errors (metrics st') = errors (metrics st)
    /\ (forall recurse dst_items,
           mem_string name0 dst_items = true ->
           Core.sync_item denied recurse src dst dst_items name0 st'
           = (Returned, st')).
Proof.
  intros denied src dst name0 st sz mt Hdiv Hd Hs Hdm Ds Dd st'.
  assert (E : st' = _)
    by exact (@safe_copy_file_lands denied src dst name0 st sz mt
                Hdiv Hd Hs Hdm Ds Dd).
  assert (L2 : lookup (child dst name0) (fs st') = Some (File sz mt)).
  { rewrite E. simpl. apply lookup_update_same_Some.
    - apply child_not_root.
    - now rewrite parent_child. }
  assert (L1 : lookup (child src name0) (fs st') = Some (File sz mt)).
  { rewrite E. simpl. rewrite lookup_update_diverge; auto.
    now apply diverge_children. }
  assert (Eq : files_are_equal (fs st') (child src name0) (child dst name0)
               = Ok true) by (eapply files_are_equal_same; eauto).
  refine (conj L2 (conj Eq (conj _ (conj _ _)))).
  - rewrite E. reflexivity.
  - rewrite E. reflexivity.
  - intros recurse dst_items Hmem. unfold Core.sync_item.
    rewrite Hmem. simpl. unfold is_dir, is_file. rewrite L1, L2. simpl.
    now rewrite Eq.
Qed.

Lemma X11_a_file_of_the_siblings :
  let st' := Core.safe_copy no_denial ["src"; "y.txt"]%string
               ["dst"; "y.txt"]%string siblings_state in
  lookup ["dst"; "y.txt"]%string (fs st') = Some (File 4 100)
  /\ files_are_equal (fs st') ["src"; "y.txt"]%string ["dst"; "y.txt"]%string
     = Ok true
  /\ copied_files (metrics st') = 1
  /\ errors (metrics st') = 0
  /\ (forall recurse dst_items,
         mem_string "y.txt" dst_items = true ->
         Core.sync_item no_denial recurse ["src"]%string ["dst"]%string
                        dst_items "y.txt" st'
         = (Returned, st')).
Proof.
  exact (X11_copied_file_is_left_alone no_denial ["src"]%string ["dst"]%string
           "y.txt" siblings_state eq_refl eq_refl eq_refl eq_refl eq_refl eq_refl).
Defined.

(* ================================================================== *)
(** * Further properties: a level of regular files *)

Lemma lookup_child_dir (d : path) (m : string) (fs0 : node) (ds : listing) :
  lookup d fs0 = Some (Dir ds) -> lookup (child d m) fs0 = assoc m ds.
Proof.
  intros H. unfold child. rewrite lookup_app, H. simpl.
  now destruct (assoc m ds).
Qed.

Lemma sync_item_idle (denied : path -> bool) (recurse : state -> outcome * state)
      (src dst : path) (dst_items : list string) (m : string) (st : state) :
  mem_string m dst_items = true ->
  files_are_equal (fs st) (child src m) (child dst m) = Ok true ->
  Core.sync_item denied recurse src dst dst_items m st = (Returned, st).
Proof.
  intros Hmem Eq. destruct (files_are_equal_true_inv _ _ _ Eq) as [F1 F2].
  unfold Core.sync_item. rewrite Hmem. simpl.
  rewrite (is_file_not_dir _ _ F1), F1, F2. simpl. now rewrite Eq.
Qed.

Lemma copy_pass_idle (denied : path -> bool) (recurse : state -> outcome * state)
      (src dst : path) (dst_items items : list string) (st : state) :
  (forall m, In m items ->
             mem_string m dst_items = true
             /\ files_are_equal (fs st) (child src m) (child dst m) = Ok true) ->
  Core.copy_pass denied recurse src dst dst_items items st = (Returned, st).
Proof.
  induction items as [|m items IH]; intros H; simpl; auto.
  destruct (H m (or_introl eq_refl)) as [Hmem Eq].
  rewrite (sync_item_idle denied recurse src dst dst_items m st Hmem Eq).
  apply IH. intros m' Hm'. apply H. now right.
Qed.

Lemma delete_pass_idle (denied : path -> bool) (dst : path)
      (src_items dst_items : list string) (st : state) :
  (forall k, In k dst_items -> mem_string k src_items = true) ->
  Core.delete_pass denied dst src_items dst_items st = st.
Proof.
  induction dst_items as [|k rest IH]; intros H; simpl; auto.
  rewrite (H k (or_introl eq_refl)). simpl.
  apply IH. intros k' Hk'. apply H. now right.
Qed.

Lemma delete_pass_is_dir (denied : path -> bool) (dst : path)
      (src_items dst_items : list string) :
  forall st,
    is_dir (fs st) dst = true ->
    is_dir (fs (Core.delete_pass denied dst src_items dst_items st)) dst = true.
Proof.
  induction dst_items as [|k rest IH]; intros st Hd; simpl; auto.
  destruct (negb (mem_string k src_items)); auto.
  apply IH. destruct (safe_remove_touches denied dst k st) as [_ B].
  rewrite parent_child in B. auto.
Qed.

Section FlatLevel.

Variable denied : path -> bool.
Hypothesis no_refusal : forall p, denied p = false.

Variables src dst : path.
Hypothesis Hdiv : diverge dst src = true.

Lemma safe_remove_clean (k : string) (st : state) (c : node) :
  lookup (child dst k) (fs st) = Some c ->
  exists fs1,
    Core.safe_remove denied (child dst k) st
    = log_callback (MsgRemoved (child dst k)) (with_fs fs1 st)
    /\ lookup (child dst k) fs1 = None
    /\ touches_only (child dst k) (fs st) fs1.
Proof.
  intros H. unfold Core.safe_remove, is_dir, unlink, rmtree.
  rewrite H, no_refusal.
  exists (update (child dst k) None (fs st)).
  refine (conj _ (conj _ _)).
  - now destruct c.
  - apply lookup_update_same_None, child_not_root.
  - apply touches_only_update_child.
Qed.

Lemma landed_equal (m : string) (fs1 : node) (sz : Z) (mt : Q) :
  is_dir fs1 dst = true ->
  lookup (child src m) fs1 = Some (File sz mt) ->
  files_are_equal (update (child dst m) (Some (File sz mt)) fs1)
                  (child src m) (child dst m) = Ok true.
Proof.
  intros Hd Hs. apply files_are_equal_same with (sz := sz) (mt := mt).
  - rewrite lookup_update_diverge; auto. now apply diverge_children.
  - apply lookup_update_same_Some; [apply child_not_root|].
    now rewrite parent_child.
Qed.

Lemma equal_kept (m m' : string) (fs1 fs2 : node) :
  m <> m' ->
  touches_only (child dst m) fs1 fs2 ->
  files_are_equal fs2 (child src m') (child dst m')
  = files_are_equal fs1 (child src m') (child dst m').
Proof.
  intros Hne [A _]. apply files_are_equal_ext; apply A.
  - now apply diverge_children.
  - now apply diverge_child.
Qed.

Variable dst_items : list string.
Variable recurse : state -> outcome * state.
Variable fs0 : node.

(** What holds between two steps of the copy pass *)
Let level_inv (st : state) : Prop :=
  is_dir (fs st) dst = true
  /\ (forall q, diverge dst q = true -> lookup q (fs st) = lookup q fs0)
  /\ (forall m, mem_string m dst_items = true ->
                exists_ (fs st) (child dst m) = true)
  /\ (forall m, mem_string m dst_items = false ->
                is_dir (fs st) (child dst m) = false).

Lemma flat_item (m : string) (st : state) (sz : Z) (mt : Q) :
  level_inv st ->
  lookup (child src m) fs0 = Some (File sz mt) ->
  exists st',
    Core.sync_item denied recurse src dst dst_items m st = (Returned, st')
    /\ files_are_equal (fs st') (child src m) (child dst m) = Ok true
    /\ errors (metrics st') = errors (metrics st)
    /\ touches_only (child dst m) (fs st) (fs st').
Proof.
  intros [Hd [Hfr [Hin Hout]]] Hs0.
  assert (Hs : lookup (child src m) (fs st) = Some (File sz mt)).
  { rewrite Hfr; auto. unfold child. now apply diverge_app_r. }
  assert (Copy : forall st1,
             is_dir (fs st1) dst = true ->
             lookup (child src m) (fs st1) = Some (File sz mt) ->
             is_dir (fs st1) (child dst m) = false ->
             let st' := Core.safe_copy denied (child src m) (child dst m) st1 in
             files_are_equal (fs st') (child src m) (child dst m) = Ok true
             /\ errors (metrics st') = errors (metrics st1)
             /\ touches_only (child dst m) (fs st1) (fs st')).
  { intros st1 Hd1 Hs1 Hdm1 st'.
    assert (E : st' = _)
      by exact (@safe_copy_file_lands denied src dst m st1 sz mt Hdiv Hd1 Hs1 Hdm1
                  (no_refusal _) (no_refusal _)).
    rewrite E. simpl. refine (conj _ (conj eq_refl _)).
    - now apply landed_equal.
    - apply touches_only_update_child. }
  unfold Core.sync_item.
  destruct (mem_string m dst_items) eqn:Em; simpl.
  - pose proof (Hin m Em) as Hex. unfold exists_ in Hex.
    destruct (lookup (child dst m) (fs st)) as [c|] eqn:Ec; [|discriminate].
    unfold is_dir at 1, is_file. rewrite Hs, Ec. simpl.
    destruct c as [sz2 mt2|es2].
    + destruct (files_are_equal (fs st) (child src m) (child dst m))
        as [[|]|e] eqn:Eq.
      * exists st. refine (conj eq_refl (conj Eq (conj eq_refl _))).
        apply touches_only_refl.
      * eexists. split; [reflexivity|]. apply Copy; auto.
        unfold is_dir. now rewrite Ec.
      * destruct (@files_are_equal_total (fs st) (child src m) (child dst m))
          as [b Hb].
        -- unfold is_file. now rewrite Hs.
        -- unfold is_file. now rewrite Ec.
        -- congruence.
    + destruct (@safe_remove_clean m st (Dir es2) Ec) as [fs1 [Er [Hn T1]]].
      rewrite Er. eexists. split; [reflexivity|].
      destruct T1 as [A B]. rewrite parent_child in B.
      destruct (Copy (log_callback (MsgRemoved (child dst m)) (with_fs fs1 st)))
        as [C1 [C2 C3]]; simpl.
      * auto.
      * rewrite A; auto. now apply diverge_children.
      * unfold is_dir. now rewrite Hn.
      * refine (conj C1 (conj C2 _)).
        eapply touches_only_trans; [|exact C3]. simpl. split; auto.
        now rewrite parent_child.
  - eexists. split; [reflexivity|]. apply Copy; auto.
Qed.

Lemma flat_step_inv (m : string) (st st' : state) :
  level_inv st ->
  touches_only (child dst m) (fs st) (fs st') ->
  files_are_equal (fs st') (child src m) (child dst m) = Ok true ->
  level_inv st'.
Proof.
  intros [Hd [Hfr [Hin Hout]]] [A B] Eq. rewrite parent_child in B.
  destruct (files_are_equal_true_inv _ _ _ Eq) as [_ F2].
  refine (conj (B Hd) (conj _ (conj _ _))).
  - intros q Hq. rewrite A; auto. unfold child. now apply diverge_app_l.
  - intros m' Hm'. destruct (String.eqb m m') eqn:E.
    + apply String.eqb_eq in E. subst m'. unfold exists_, is_file in *.
      now destruct (lookup (child dst m) (fs st')).
    + apply String.eqb_neq in E. unfold exists_.
      rewrite A by (now apply diverge_child). now apply Hin.
  - intros m' Hm'. destruct (String.eqb m m') eqn:E.
    + apply String.eqb_eq in E. subst m'. now apply is_file_not_dir.
    + apply String.eqb_neq in E. unfold is_dir.
      rewrite A by (now apply diverge_child). now apply Hout.
Qed.

Lemma flat_copy_pass (items : list string) :
  (forall m, In m items ->
             exists sz mt, lookup (child src m) fs0 = Some (File sz mt)) ->
  forall st,
    level_inv st ->
    exists st',
      Core.copy_pass denied recurse src dst dst_items items st = (Returned, st')
      /\ level_inv st'
      /\ errors (metrics st') = errors (metrics st)
      /\ (forall m, In m items ->
                    files_are_equal (fs st') (child src m) (child dst m) = Ok true)
      /\ (forall m, files_are_equal (fs st) (child src m) (child dst m) = Ok true ->
                    files_are_equal (fs st') (child src m) (child dst m) = Ok true)
      /\ (forall k, ~ In k items ->
                    lookup (child dst k) (fs st') = lookup (child dst k) (fs st)).
Proof.
  induction items as [|m items IH]; intros Hfiles st Hinv.
  - exists st.
    refine (conj eq_refl (conj Hinv (conj eq_refl (conj _ (conj _ _))))); auto.
    intros m [].
  - destruct (Hfiles m (or_introl eq_refl)) as [sz [mt Hs0]].
    destruct (@flat_item m st sz mt Hinv Hs0) as [st1 [E1 [G1 [R1 T1]]]].
    pose proof (@flat_step_inv m st st1 Hinv T1 G1) as Hinv1.
    destruct (IH (fun m' Hm' => Hfiles m' (or_intror Hm')) st1 Hinv1)
      as [st' [E2 [Hinv' [R2 [G2 [K2 F2]]]]]].
    exists st'. simpl. rewrite E1.
    refine (conj E2 (conj Hinv' (conj _ (conj _ (conj _ _))))).
    + now rewrite R2.
    + intros m' [Hm'|Hm']; [subst m'; now apply K2 | now apply G2].
    + intros m' Gm'. apply K2. destruct (String.eqb m m') eqn:E.
      * apply String.eqb_eq in E. now subst m'.
      * apply String.eqb_neq in E. now rewrite (@equal_kept m m' _ _ E T1).
    + intros k Hk. rewrite F2 by (intros Hin'; apply Hk; now right).
      destruct T1 as [A _]. apply A, diverge_child.
      intros ->. apply Hk. now left.
Qed.

Lemma flat_delete_pass (src_items : list string) (listed : list string) :
  distinct listed = true ->
  forall st,
    (forall k, In k listed -> mem_string k src_items = false ->
               exists_ (fs st) (child dst k) = true) ->
    errors (metrics (Core.delete_pass denied dst src_items listed st))
    = errors (metrics st).
Proof.
  induction listed as [|k rest IH]; intros Hdist st Hex; simpl; auto.
  simpl in Hdist. apply andb_true_iff in Hdist. destruct Hdist as [Hk Hrest].
  apply negb_true_iff in Hk.
  destruct (mem_string k src_items) eqn:Ek; simpl.
  - apply IH; auto. intros k' Hk'. apply Hex. now right.
  - pose proof (Hex k (or_introl eq_refl) Ek) as Hx. unfold exists_ in Hx.
    destruct (lookup (child dst k) (fs st)) as [c|] eqn:Ec; [|discriminate].
    destruct (@safe_remove_clean k st c Ec) as [fs1 [Er [_ [A _]]]].
    rewrite Er, IH; auto.
    intros k' Hk' Hm'. simpl. unfold exists_. rewrite A.
    + apply Hex; auto. now right.
    + apply diverge_child. intros ->.
      apply mem_string_not_In in Hk. contradiction.
Qed.

End FlatLevel.

(** X12.  A level at which every source child that is not excluded is a
    regular file, in an environment that refuses nothing, source and
    destination not lying inside one another.  The run of
    [core/sync_logic.py: sync_recursive] returns; afterwards every key of
    [src_items] names a regular file at the destination that
    [files_are_equal] accepts as equal to its source (whatever stood there
    before: nothing, another file, or a directory); with the deletion pass
    every other name is gone from the destination; no error is counted; and
    a second run from the state reached returns that very state: nothing is
    copied, removed, logged or counted. *)
Theorem X12_level_of_regular_files_is_mirrored :
  forall (denied : path -> bool) (fuel : nat) (task : BackupTask path)
         (sd : bool) (st : state) (es ds : listing),
    (forall p, denied p = false) ->
    diverge (destination task) (source task) = true ->
    lookup (source task) (fs st) = Some (Dir es) ->
    lookup (destination task) (fs st) = Some (Dir ds) ->
    distinct (names ds) = true ->
    forallb (fun m => is_file (fs st) (child (source task) m))
            (src_items_of (fs st) (source task) (exclude_patterns task)) = true ->
    let src := source task in
    let dst := destination task in
    let src_items := src_items_of (fs st) src (exclude_patterns task) in
    exists st',
      Core.sync_recursive denied (S fuel) task sd st = (Returned, st')
      /\ (forall m, In m src_items ->
                    files_are_equal (fs st') (child src m) (child dst m) = Ok true)
      /\ (sd = true ->
          forall k, ~ In k src_items -> lookup (child dst k) (fs st') = None)
      /\ errors (metrics st') = errors (metrics st)
      /\ Core.sync_recursive denied (S fuel) task sd st' = (Returned, st').
Proof.
  intros denied fuel task sd st es ds Hden Hdiv Hsrc Hdst Hdist Hflat
         src dst src_items.
  subst src dst.
  assert (Hinv0 :
            is_dir (fs st) (destination task) = true
            /\ (forall q, diverge (destination task) q = true ->
                          lookup q (fs st) = lookup q (fs st))
            /\ (forall m, mem_string m (names ds) = true ->
                          exists_ (fs st) (child (destination task) m) = true)
            /\ (forall m, mem_string m (names ds) = false ->
                          is_dir (fs st) (child (destination task) m) = false)).
  { refine (conj _ (conj _ (conj _ _))).
    - unfold is_dir. now rewrite Hdst.
    - auto.
    - intros m Hm. unfold exists_. rewrite (lookup_child_dir _ m _ Hdst).
      apply mem_string_In in Hm.
      destruct (assoc m ds) eqn:Ea; auto.
      apply assoc_None_names in Ea. contradiction.
    - intros m Hm. unfold is_dir. rewrite (lookup_child_dir _ m _ Hdst).
      apply mem_string_not_In in Hm. apply assoc_None_names in Hm.
      now rewrite Hm. }
  assert (Hfiles : forall m, In m src_items ->
             exists sz mt,
               lookup (child (source task) m) (fs st) = Some (File sz mt)).
  { intros m Hm. rewrite forallb_forall in Hflat. specialize (Hflat m Hm).
    unfold is_file in Hflat.
    destruct (lookup (child (source task) m) (fs st)) as [[sz mt|es0]|];
      try discriminate. eauto. }
  destruct (@flat_copy_pass denied Hden (source task) (destination task) Hdiv
              (names ds) (Core.sync_recursive denied fuel task sd) (fs st)
              src_items Hfiles st Hinv0)
    as [st2 [Ecp [[Hd2 [Hfr2 _]] [R2 [G2 [_ F2]]]]]].
  set (st' := if sd
              then Core.delete_pass denied (destination task) src_items
                                    (names ds) st2
              else st2).
  assert (Erun : Core.sync_recursive denied (S fuel) task sd st = (Returned, st')).
  { simpl.
    rewrite (sync_body_at_level denied (Core.sync_recursive denied fuel task sd)
               task sd st Hsrc Hdst (Hden _) (Hden _)).
    fold src_items. rewrite Ecp. reflexivity. }
  assert (Hfr' : forall q, diverge (destination task) q = true ->
                           lookup q (fs st') = lookup q (fs st)).
  { intros q Hq. unfold st'. destruct sd; [|now apply Hfr2].
    rewrite core_delete_pass_frame by assumption. now apply Hfr2. }
  assert (Hd' : is_dir (fs st') (destination task) = true).
  { unfold st'. destruct sd; [|exact Hd2]. now apply delete_pass_is_dir. }
  assert (G' : forall m, In m src_items ->
             files_are_equal (fs st') (child (source task) m)
                             (child (destination task) m) = Ok true).
  { intros m Hm. specialize (G2 m Hm). unfold st'. destruct sd; [|exact G2].
    rewrite files_are_equal_ext with (fs0 := fs st2); auto.
    - apply core_delete_pass_frame. unfold child. now apply diverge_app_r.
    - apply delete_pass_keeps. intros m' _ Hm'. apply diverge_child.
      intros ->. apply mem_string_not_In in Hm'. contradiction. }
  assert (B' : sd = true -> forall k, ~ In k src_items ->
               lookup (child (destination task) k) (fs st') = None).
  { intros Hsd k Hk. unfold st'. rewrite Hsd.
    destruct (mem_string k (names ds)) eqn:Ek.
    - apply delete_pass_removes; auto.
      + now apply mem_string_In.
      + now apply mem_string_not_In.
    - apply delete_pass_keeps_missing. rewrite F2 by exact Hk.
      rewrite (lookup_child_dir _ k _ Hdst). apply assoc_None_names.
      now apply mem_string_not_In. }
  assert (R' : errors (metrics st') = errors (metrics st)).
  { unfold st'. destruct sd; [|exact R2].
    rewrite (@flat_delete_pass denied Hden (destination task) src_items
               (names ds) Hdist); auto.
    intros k Hk Hm. unfold exists_.
    rewrite F2 by (now apply mem_string_not_In).
    rewrite (lookup_child_dir _ k _ Hdst).
    destruct (assoc k ds) eqn:Ea; auto.
    apply assoc_None_names in Ea. contradiction. }
  assert (Hsrc' : lookup (source task) (fs st') = Some (Dir es))
    by (rewrite Hfr'; auto).
  unfold is_dir in Hd'.
  destruct (lookup (destination task) (fs st')) as [[sz0 mt0|ds']|] eqn:Hdst';
    try discriminate.
  assert (Eitems : src_items_of (fs st') (source task) (exclude_patterns task)
                   = src_items).
  { unfold src_items, src_items_of, children_names. now rewrite Hsrc', Hsrc. }
  exists st'. refine (conj Erun (conj G' (conj B' (conj R' _)))).
  simpl.
  rewrite (sync_body_at_level denied (Core.sync_recursive denied fuel task sd)
             task sd st' Hsrc' Hdst' (Hden _) (Hden _)).
  rewrite Eitems, copy_pass_idle.
  - destruct sd; [|reflexivity]. rewrite delete_pass_idle; auto.
    intros k Hk. destruct (mem_string k src_items) eqn:Ek; auto. exfalso.
    apply mem_string_not_In in Ek. specialize (B' eq_refl k Ek).
    rewrite (lookup_child_dir _ k _ Hdst') in B'.
    apply assoc_None_names in B'. contradiction.
  - intros m Hm. split; [|now apply G'].
    apply mem_string_In.
    destruct (files_are_equal_true_inv _ _ _ (G' m Hm)) as [_ F].
    unfold is_file in F. rewrite (lookup_child_dir _ m _ Hdst') in F.
    destruct (assoc m ds') as [c|] eqn:Ea; [|discriminate].
    eapply assoc_In_names; eauto.
Qed.

Lemma X12_extras_are_cleared_and_files_mirrored :
  exists st',
    Core.sync_recursive no_denial 1 extras_task true extras_state = (Returned, st')
    /\ (forall m, In m ["x.txt"; "y.txt"]%string ->
                  files_are_equal (fs st') (child ["src"]%string m)
                                  (child ["dst"]%string m) = Ok true)
    /\ (true = true ->
        forall k, ~ In k ["x.txt"; "y.txt"]%string ->
                  lookup (child ["dst"]%string k) (fs st') = None)
    /\ errors (metrics st') = 0
    /\ Core.sync_recursive no_denial 1 extras_task true st' = (Returned, st').
Proof.
  exact (X12_level_of_regular_files_is_mirrored no_denial 0 extras_task true
           extras_state (fun _ => eq_refl) eq_refl eq_refl eq_refl eq_refl eq_refl).
Defined.

(* ================================================================== *)
(** * Further properties: the clean-up of old logs *)

Lemma mem_string_filter (f : string -> bool) (n : string) (l : list string) :
  mem_string n (filter f l) = f n && mem_string n l.
Proof.
  induction l as [|x l IH]; simpl; [now rewrite andb_false_r|].
  destruct (String.eqb n x) eqn:E.
  - apply String.eqb_eq in E. subst x.
    destruct (f n) eqn:Ef; simpl.
    + now rewrite String.eqb_refl.
    + exact IH.
  - destruct (f x); simpl; rewrite ?E; exact IH.
Qed.

Lemma child_app (d : path) (n : string) (r : path) :
  d ++ n :: r = child d n ++ r.
Proof. unfold child. now rewrite <- app_assoc. Qed.

Section LogCleanupFacts.

Variable denied : path -> bool.
Variable hidden : path -> bool.
Variable is_old : Q -> bool.
Variable log_dir : path.

Lemma cleanup_step_removable (fs0 : node) (x : string) :
  cleanup_step denied hidden is_old log_dir fs0 x
  = if removable denied hidden is_old log_dir fs0 x
    then update (child log_dir x) None fs0
    else fs0.
Proof.
  unfold cleanup_step, removable, unlink.
  destruct (hidden (child log_dir x)); simpl; auto.
  destruct (lookup (child log_dir x) fs0) as [[sz mt|es]|];
    simpl; rewrite ?andb_false_r; auto.
  destruct (is_old mt); rewrite ?andb_false_r; auto.
  now destruct (denied (child log_dir x)).
Qed.

Lemma cleanup_step_lookup (fs0 : node) (x n : string) (r : path) :
  lookup (log_dir ++ n :: r) (cleanup_step denied hidden is_old log_dir fs0 x)
  = if String.eqb n x && removable denied hidden is_old log_dir fs0 x
    then None
    else lookup (log_dir ++ n :: r) fs0.
Proof.
  rewrite cleanup_step_removable.
  destruct (removable denied hidden is_old log_dir fs0 x);
    [|now rewrite andb_false_r].
  rewrite andb_true_r. destruct (String.eqb n x) eqn:E.
  - apply String.eqb_eq in E. subst x. rewrite child_app.
    apply lookup_below_missing, lookup_update_same_None, child_not_root.
  - apply String.eqb_neq in E. apply lookup_update_diverge.
    rewrite child_app. apply diverge_app_r, diverge_child. congruence.
Qed.

Lemma cleanup_step_frame (fs0 : node) (x : string) (q : path) :
  diverge log_dir q = true ->
  lookup q (cleanup_step denied hidden is_old log_dir fs0 x) = lookup q fs0.
Proof.
  intros Hq. rewrite cleanup_step_removable.
  destruct (removable denied hidden is_old log_dir fs0 x); auto.
  apply lookup_update_diverge. unfold child. now apply diverge_app_l.
Qed.

Lemma cleanup_fold (l : list string) :
  forall fs0 : node,
    let fs1 := fold_left (cleanup_step denied hidden is_old log_dir) l fs0 in
    (forall q, diverge log_dir q = true -> lookup q fs1 = lookup q fs0)
    /\ (forall n r,
           lookup (log_dir ++ n :: r) fs1
           = if mem_string n l && removable denied hidden is_old log_dir fs0 n
             then None
             else lookup (log_dir ++ n :: r) fs0).
Proof.
  induction l as [|x l IH]; intros fs0; simpl.
  - split; auto.
  - destruct (IH (cleanup_step denied hidden is_old log_dir fs0 x)) as [A B].
    split.
    + intros q Hq. rewrite A by assumption. now apply cleanup_step_frame.
    + intros n r. rewrite B, cleanup_step_lookup.
      assert (R : removable denied hidden is_old log_dir
                    (cleanup_step denied hidden is_old log_dir fs0 x) n
                  = if String.eqb n x
                       && removable denied hidden is_old log_dir fs0 x
                    then false
                    else removable denied hidden is_old log_dir fs0 n).
      { unfold removable at 1.
        pose proof (cleanup_step_lookup fs0 x n []) as L.
        unfold child. rewrite L.
        destruct (String.eqb n x
                  && removable denied hidden is_old log_dir fs0 x);
          [apply andb_false_r | reflexivity]. }
      rewrite R.
      destruct (String.eqb n x) eqn:E; simpl.
      * apply String.eqb_eq in E. subst x.
        destruct (removable denied hidden is_old log_dir fs0 n); simpl.
        -- now rewrite andb_false_r.
        -- now rewrite andb_false_r.
      * reflexivity.
Qed.

End LogCleanupFacts.



(* ================================================================== *)
(** * Further properties: the size of a folder *)

Lemma node_nested_ind (P : node -> Prop) :
  (forall sz mt, P (File sz mt)) ->
  (forall es, (forall k c, In (k, c) es -> P c) -> P (Dir es)) ->
  forall n, P n.
Proof.
  intros HF HD. fix IH 1. intros [sz mt|es]; [apply HF|].
  apply HD. induction es as [|[k c] es IHes]; intros k' c' H.
  - destruct H.
  - assert (Pc : P c) by apply IH.
    destruct H as [H|H].
    + inversion H; subst. exact Pc.
    + eapply IHes; eauto.
Qed.

Lemma assoc_distinct (k : string) (c : node) (es : listing) :
  distinct (names es) = true -> In (k, c) es -> assoc k es = Some c.
Proof.
  induction es as [|[k' c'] es IH]; simpl; intros Hd H; [destruct H|].
  apply andb_true_iff in Hd. destruct Hd as [Hk Hd].
  destruct H as [H|H].
  - inversion H; subst. now rewrite String.eqb_refl.
  - destruct (String.eqb k k') eqn:E; [|auto].
    apply String.eqb_eq in E. subst k'.
    apply negb_true_iff, mem_string_not_In in Hk. destruct Hk.
    change k with (fst (k, c)). now apply in_map.
Qed.

Lemma well_formed_children (es : listing) :
  well_formed (Dir es) = true ->
  distinct (names es) = true
  /\ forall k c, In (k, c) es -> well_formed c = true.
Proof.
  simpl. intros H. apply andb_true_iff in H. destruct H as [Hd Hall].
  split; [exact Hd|]. clear Hd.
  induction es as [|[k' c'] es IH]; intros k c Hin; [destruct Hin|].
  apply andb_true_iff in Hall. destruct Hall as [Hc Hall].
  destruct Hin as [Hin|Hin].
  - now inversion Hin; subst.
  - eapply IH; eauto.
Qed.

Section FolderSize.

Variable fs0 : node.

(** The body of the loop of [get_folder_size] *)
Let add_size (p : path) (total : Z) (rel : path) : Z :=
  match stat fs0 (p ++ rel) with
  | Ok s => (total + size_of s)%Z
  | Raise _ => total
  end.

Lemma fold_below_child (p : path) (k : string) (l : list path) :
  forall acc,
    fold_left (add_size p) (map (cons k) l) acc
    = fold_left (add_size (child p k)) l acc.
Proof.
  induction l as [|rel l IH]; intros acc; simpl; auto.
  rewrite IH. unfold add_size. now rewrite child_app.
Qed.

Lemma fold_sizes : forall n : node,
  well_formed n = true ->
  forall (p : path) (acc : Z),
    lookup p fs0 = Some n ->
    fold_left (add_size p) (files_below n) acc = (acc + tree_size n)%Z.
Proof.
  induction n as [sz mt|es IHn] using node_nested_ind; intros Hwf p acc Hp.
  - simpl. unfold add_size, stat. now rewrite app_nil_r, Hp.
  - destruct (well_formed_children es Hwf) as [Hd Hch].
    assert (G : forall es',
               (forall k c, In (k, c) es' -> In (k, c) es) ->
               forall acc0,
                 fold_left (add_size p) (files_below (Dir es')) acc0
                 = (acc0 + tree_size (Dir es'))%Z).
    { induction es' as [|[k c] es' IH']; intros Hsub acc0.
      - simpl. lia.
      - change (files_below (Dir ((k, c) :: es')))
          with (map (cons k) (files_below c) ++ files_below (Dir es')).
        change (tree_size (Dir ((k, c) :: es')))
          with (tree_size c + tree_size (Dir es'))%Z.
        assert (Hin : In (k, c) es) by (apply Hsub; now left).
        rewrite fold_left_app, fold_below_child.
        rewrite (IHn k c Hin (Hch k c Hin) (child p k) acc0).
        + rewrite IH' by (intros k0 c0 H0; apply Hsub; now right). lia.
        + rewrite (lookup_child_dir _ k _ Hp). now apply assoc_distinct. }
    apply G. auto.
Qed.

End FolderSize.

(** X14.  [get_folder_size] of a directory is the sum of the sizes of all
    the regular files below it, at every depth and whatever their names (the
    exclusion patterns play no part); it is 0 for a path that is missing or
    that is a regular file. *)
Theorem X14_get_folder_size_adds_all_files :
  forall (fs0 : node) (p : path),
    (is_dir fs0 p = false -> get_folder_size fs0 p = 0%Z)
    /\ (forall es,
           lookup p fs0 = Some (Dir es) ->
           well_formed (Dir es) = true ->
           get_folder_size fs0 p = tree_size (Dir es)).
Proof.
  intros fs0 p. unfold get_folder_size, is_dir. split.
  - now destruct (lookup p fs0) as [[sz mt|es]|].
  - intros es Hp Hwf. rewrite Hp.
    exact (@fold_sizes fs0 (Dir es) Hwf p 0%Z Hp).
Qed.

Lemma X14_size_of_the_subtree_scenario :
  get_folder_size subtree_fs ["src"]%string = 15%Z
  /\ get_folder_size subtree_fs ["src"; "x.txt"]%string = 0%Z.
Proof.
  split.
  - exact (proj2 (X14_get_folder_size_adds_all_files subtree_fs ["src"]%string)
             _ eq_refl eq_refl).
  - exact (proj1 (X14_get_folder_size_adds_all_files subtree_fs
                    ["src"; "x.txt"]%string) eq_refl).
Defined.

(* ================================================================== *)
(** * Further properties: the depth of the recursion of [app1.py] *)

Lemma height_assoc (m : string) (c : node) (es : listing) :
  assoc m es = Some c -> height c < height (Dir es).
Proof.
  simpl. induction es as [|[k c'] es IH]; simpl; [discriminate|].
  destruct (String.eqb m k).
  - intros H. inversion H; subst. lia.
  - intros H. specialize (IH H). lia.
Qed.

Lemma height_at_child (fs0 : node) (p : path) (m : string) :
  is_dir fs0 (child p m) = true -> height_at fs0 (child p m) < height_at fs0 p.
Proof.
  unfold is_dir, height_at, child. rewrite lookup_app.
  destruct (lookup p fs0) as [[sz mt|es]|]; simpl; try discriminate.
  destruct (assoc m es) as [c|] eqn:Ea; [|discriminate].
  intros _. apply (height_assoc _ _ Ea).
Qed.

Lemma mkdir_walk_raises_OSError (denied : path -> bool) (p : path) :
  forall (pre : path) (n : node) (e : exn),
    mkdir_walk denied pre p n = Raise e -> is_OSError e = true.
Proof.
  induction p as [|k p IH]; intros pre n e; simpl.
  - destruct n; intros H; inversion H; reflexivity.
  - destruct n as [sz mt|es]; [intros H; inversion H; reflexivity|].
    destruct (assoc k es) as [c|].
    + destruct (mkdir_walk denied (pre ++ [k]) p c) as [c'|e'] eqn:E;
        intros H; inversion H; subst. eapply IH; eauto.
    + destruct (denied (pre ++ [k])); [intros H; inversion H; reflexivity|].
      destruct (mkdir_walk denied (pre ++ [k]) p (Dir [])) as [c'|e'] eqn:E;
        intros H; inversion H; subst. eapply IH; eauto.
Qed.

Lemma mkdir_parents_raises_OSError (denied : path -> bool) (p : path)
      (fs0 : node) (e : exn) :
  mkdir_parents denied p fs0 = Raise e -> is_OSError e = true.
Proof.
  unfold mkdir_parents. destruct (lookup p fs0) as [[sz mt|es]|].
  - intros H. inversion H. reflexivity.
  - discriminate.
  - apply mkdir_walk_raises_OSError.
Qed.

Lemma files_are_equal_raises_OSError (fs0 : node) (f1 f2 : path) (e : exn) :
  files_are_equal fs0 f1 f2 = Raise e -> is_OSError e = true.
Proof.
  unfold files_are_equal, stat.
  destruct (negb (exists_ fs0 f2)); [discriminate|].
  destruct (lookup f1 fs0) as [[sz1 mt1|es1]|];
    try (intros H; inversion H; reflexivity).
  destruct (lookup f2 fs0) as [[sz2 mt2|es2]|];
    intros H; inversion H; reflexivity.
Qed.

Lemma app1_sync_recursive_frame (denied : path -> bool) (fuel : nat) :
  forall (src dst : path) (patterns : list string) (sd : bool) (st : state)
         (q : path),
    diverge dst q = true ->
    lookup q (fs (snd (App1.sync_recursive denied fuel src dst patterns sd st)))
    = lookup q (fs st).
Proof.
  induction fuel as [|fuel IH]; intros src dst patterns sd st q Hq;
    [reflexivity|].
  simpl. apply app1_sync_body_frame; auto.
  intros s k st0. apply IH. unfold child. now apply diverge_app_l.
Qed.

Section App1Depth.

Variable denied : path -> bool.
Variable patterns : list string.
Variable sd : bool.
Variable fuel : nat.

Hypothesis deeper_calls :
  forall (src dst : path) (st : state) (e : exn),
    diverge dst src = true ->
    height_at (fs st) src < fuel ->
    fst (App1.sync_recursive denied fuel src dst patterns sd st) = Raised e ->
    is_OSError e = true.

Let recurse (s d : path) (st : state) : outcome * state :=
  App1.sync_recursive denied fuel s d patterns sd st.

Lemma app1_copy_pass_depth (src dst : path) (dst_items items : list string)
      (fs0 : node) :
  diverge dst src = true ->
  height_at fs0 src <= fuel ->
  forall (st : state) (e : exn),
    (forall r, lookup (src ++ r) (fs st) = lookup (src ++ r) fs0) ->
    fst (App1.copy_pass denied recurse src dst dst_items items st) = Raised e ->
    is_OSError e = true.
Proof.
  intros Hdiv Hh. induction items as [|m items IH]; intros st e Hfr; simpl.
  - discriminate.
  - assert (Hfr1 : forall r,
               lookup (src ++ r)
                      (fs (snd (App1.sync_item denied recurse src dst dst_items
                                               m st)))
               = lookup (src ++ r) fs0).
    { intros r. rewrite <- Hfr. apply app1_sync_item_frame.
      - intros s k st0. apply app1_sync_recursive_frame.
        unfold child. now apply diverge_app_l, diverge_app_r.
      - now apply diverge_app_r. }
    assert (Hitem : forall e0,
               fst (App1.sync_item denied recurse src dst dst_items m st)
               = Raised e0 -> is_OSError e0 = true).
    { intros e0. unfold App1.sync_item.
      destruct (negb (mem_string m dst_items)); [discriminate|].
      destruct (is_dir (fs st) (child src m) && is_dir (fs st) (child dst m))
        eqn:Edir.
      - apply andb_true_iff in Edir. destruct Edir as [Ds _].
        apply deeper_calls.
        + now apply diverge_children.
        + pose proof (height_at_child _ _ _ Ds) as Hlt.
          assert (Hsame : height_at (fs st) src = height_at fs0 src).
          { unfold height_at. pose proof (Hfr []) as H0.
            rewrite app_nil_r in H0. now rewrite H0. }
          lia.
      - destruct (is_file (fs st) (child src m) && is_file (fs st) (child dst m));
          [|discriminate].
        destruct (files_are_equal (fs st) (child src m) (child dst m))
          as [[|]|e1] eqn:Eq; try discriminate.
        intros H. inversion H; subst.
        eapply files_are_equal_raises_OSError; eauto. }
    destruct (App1.sync_item denied recurse src dst dst_items m st)
      as [[|e1] st1]; simpl in *.
    + now apply IH.
    + intros H. inversion H; subst. now apply Hitem.
Qed.

Lemma app1_sync_body_depth (src dst : path) (st : state) (e : exn) :
  diverge dst src = true ->
  height_at (fs st) src <= fuel ->
  fst (App1.sync_body denied recurse src dst patterns sd st) = Raised e ->
  is_OSError e = true.
Proof.
  intros Hdiv Hh. unfold App1.sync_body.
  destruct (negb (exists_ (fs st) src)); [discriminate|].
  destruct (mkdir_parents denied dst (fs st)) as [fs1|e0] eqn:Emk.
  2:{ simpl. intros H. inversion H; subst.
      eapply mkdir_parents_raises_OSError; eauto. }
  destruct (iterdir denied src fs1) as [children|e1] eqn:E1.
  2:{ pose proof (iterdir_raises_OSError _ _ _ E1) as O1.
      destruct e1; simpl; try discriminate;
        intros H; inversion H; subst; exact O1. }
  destruct (iterdir denied dst fs1) as [dst_items|e2] eqn:E2.
  2:{ pose proof (iterdir_raises_OSError _ _ _ E2) as O2.
      destruct e2; simpl; try discriminate;
        intros H; inversion H; subst; exact O2. }
  pose proof (@app1_copy_pass_depth src dst dst_items
                (Core.filter_excluded src patterns children) (fs st)
                Hdiv Hh (with_fs fs1 st) e) as Hcp.
  destruct (App1.copy_pass denied recurse src dst dst_items
              (Core.filter_excluded src patterns children) (with_fs fs1 st))
    as [[|e3] st2]; simpl in *.
  - destruct sd; discriminate.
  - intros H. apply Hcp; auto.
    intros r. eapply mkdir_parents_frame; eauto.
    apply diverge_not_prefix. now apply diverge_app_r.
Qed.

End App1Depth.

(** X15.  The recursion of [app1.py: sync_recursive] goes down the source
    tree, one level per call: when source and destination do not lie inside
    one another and the call stack has room for more calls than the source
    tree is deep, no [RecursionError] arises, and an exception that leaves
    the run is an [OSError] (of the creation of a directory or of a
    listing).  The engine of [core/sync_logic.py], which calls itself on the
    pair it was given, has no such bound. *)
Theorem X15_app1_recursion_is_bounded_by_the_depth :
  forall (denied : path -> bool) (patterns : list string) (sd : bool)
         (fuel : nat) (src dst : path) (st : state) (e : exn),
    diverge dst src = true ->
    height_at (fs st) src < fuel ->
    fst (App1.sync_recursive denied fuel src dst patterns sd st) = Raised e ->
    is_OSError e = true /\ e <> RecursionError.
Proof.
  intros denied patterns sd fuel.
  assert (H : forall src dst st e,
             diverge dst src = true ->
             height_at (fs st) src < fuel ->
             fst (App1.sync_recursive denied fuel src dst patterns sd st)
             = Raised e ->
             is_OSError e = true).
  { induction fuel as [|fuel IH]; intros src dst st e Hdiv Hh; [lia|].
    simpl. apply (@app1_sync_body_depth denied patterns sd fuel IH); auto. lia. }
  intros src dst st e Hdiv Hh Hr.
  pose proof (H src dst st e Hdiv Hh Hr) as O. split; [exact O|].
  intros ->. discriminate.
Qed.

Lemma X15_a_destination_taken_by_a_file :
  fst (App1.sync_recursive no_denial 2 ["src"]%string ["dst"]%string
         ["*.tmp"]%string true blocked_state) = Raised FileExistsError
  /\ is_OSError FileExistsError = true
  /\ FileExistsError <> RecursionError.
Proof.
  split; [reflexivity|].
  exact (X15_app1_recursion_is_bounded_by_the_depth no_denial ["*.tmp"]%string
           true ["src"]%string ["dst"]%string blocked_state
           eq_refl (le_n 2) eq_refl).
Defined.

(* ================================================================== *)
(** * Further properties: the answers of [validate_paths] *)

(** X16.  [validate_paths] has two ways to fail and no other: a path that
    is not absolute (tested first, for the source and for the destination),
    then two paths that resolve to the same location.  Every other pair
    passes, a destination inside the source or a source inside the
    destination included. *)
Theorem X16_validate_paths_decision :
  forall (is_absolute : string -> bool) (same_resolved : string -> string -> bool)
         (src dst : string),
    validate_paths is_absolute same_resolved src dst
    = if negb (is_absolute src && is_absolute dst) then Some NotAbsolute
      else if same_resolved src dst then Some SameLocation
           else None.
Proof.
  intros is_absolute same_resolved src dst. unfold validate_paths.
  rewrite dst_clean_not_dangerous.
  destruct (is_absolute src), (is_absolute dst); reflexivity.
Qed.

(* ================================================================== *)
(** * Further properties: [app1.py] on a whole tree *)

Lemma excluded_name_child (src : path) (patterns : list string) (k : string) :
  is_excluded (child src k) patterns src = excluded_name patterns k.
Proof.
  unfold excluded_name, is_excluded, child. now rewrite relative_to_app.
Qed.

Lemma unexcluded_children (patterns : list string) (es : listing) :
  unexcluded patterns (Dir es) = true ->
  forall k c, In (k, c) es ->
              excluded_name patterns k = false /\ unexcluded patterns c = true.
Proof.
  simpl. induction es as [|[k' c'] es IH]; intros H k c Hin; [destruct Hin|].
  apply andb_true_iff in H. destruct H as [H Hall].
  apply andb_true_iff in H. destruct H as [Hk Hc].
  destruct Hin as [Hin|Hin].
  - inversion Hin; subst. split; [now apply negb_true_iff | exact Hc].
  - now apply IH.
Qed.

Lemma unexcluded_items (src : path) (patterns : list string) (es : listing) :
  unexcluded patterns (Dir es) = true ->
  Core.filter_excluded src patterns (names es) = names es.
Proof.
  intros H. unfold Core.filter_excluded. apply forallb_filter_id.
  apply forallb_forall. intros k Hk. unfold names in Hk.
  apply in_map_iff in Hk. destruct Hk as [[k' c] [E Hin]]. simpl in E. subst k'.
  rewrite excluded_name_child.
  now rewrite (proj1 (unexcluded_children patterns es H k c Hin)).
Qed.

Lemma In_assoc_Some (k : string) (es : listing) :
  In k (names es) -> exists c, assoc k es = Some c.
Proof.
  intros H. destruct (assoc k es) as [c|] eqn:E; [eauto|].
  apply assoc_None_names in E. contradiction.
Qed.

Lemma assoc_In_pair (k : string) (c : node) (es : listing) :
  assoc k es = Some c -> In (k, c) es.
Proof.
  induction es as [|[k' c'] es IH]; simpl; [discriminate|].
  destruct (String.eqb k k') eqn:E.
  - apply String.eqb_eq in E. subst k'. intros H. inversion H. now left.
  - intros H. right. now apply IH.
Qed.

Lemma exists_child_dir (d : path) (m : string) (fs0 : node) (ds : listing) :
  lookup d fs0 = Some (Dir ds) ->
  exists_ fs0 (child d m) = mem_string m (names ds).
Proof.
  intros H. unfold exists_. rewrite (lookup_child_dir _ m _ H).
  destruct (assoc m ds) as [c|] eqn:E.
  - symmetry. apply mem_string_In. eapply assoc_In_names; eauto.
  - symmetry. apply mem_string_not_In. now apply assoc_None_names.
Qed.

Lemma is_dir_parent (fs0 : node) (d : path) (m : string) :
  is_dir fs0 (child d m) = true -> is_dir fs0 d = true.
Proof.
  unfold is_dir, child. rewrite lookup_app.
  destruct (lookup d fs0) as [[sz mt|ds]|]; simpl; auto.
Qed.

Lemma mirrored_ext (fs0 fs1 : node) (src dst : path) :
  (forall r, lookup (src ++ r) fs1 = lookup (src ++ r) fs0) ->
  (forall r, lookup (dst ++ r) fs1 = lookup (dst ++ r) fs0) ->
  mirrored fs0 src dst -> mirrored fs1 src dst.
Proof.
  intros Hs Hd M r. specialize (M r). rewrite Hs.
  destruct (lookup (src ++ r) fs0) as [[sz mt|es]|].
  - rewrite <- M. now apply files_are_equal_ext.
  - unfold is_dir in *. now rewrite Hd.
  - now rewrite Hd.
Qed.

Lemma mirrored_file (fs0 : node) (s d : path) :
  is_file fs0 s = true ->
  files_are_equal fs0 s d = Ok true -> mirrored fs0 s d.
Proof.
  intros Fs Eq. destruct (files_are_equal_true_inv _ _ _ Eq) as [_ Fd].
  unfold is_file in Fs, Fd. intros [|x r].
  - rewrite !app_nil_r.
    destruct (lookup s fs0) as [[sz mt|es]|]; try discriminate. exact Eq.
  - rewrite !lookup_app.
    destruct (lookup s fs0) as [[sz mt|es]|]; try discriminate.
    destruct (lookup d fs0) as [[sz' mt'|es']|]; try discriminate.
    reflexivity.
Qed.

Lemma mirrored_same (fs0 : node) (s d : path) :
  lookup d fs0 = lookup s fs0 -> mirrored fs0 s d.
Proof.
  intros H r.
  assert (Hr : lookup (d ++ r) fs0 = lookup (s ++ r) fs0)
    by (now rewrite !lookup_app, H).
  destruct (lookup (s ++ r) fs0) as [[sz mt|es]|] eqn:E.
  - eapply files_are_equal_same; eauto.
  - unfold is_dir. now rewrite Hr.
  - exact Hr.
Qed.

Lemma mirrored_child (fs0 : node) (src dst : path) (m : string) :
  mirrored fs0 src dst -> mirrored fs0 (child src m) (child dst m).
Proof. intros M r. specialize (M (m :: r)). now rewrite <- !child_app. Qed.

Lemma app1_sync_body_at_level (denied : path -> bool)
      (recurse : path -> path -> state -> outcome * state)
      (src dst : path) (patterns : list string) (sd : bool) (st : state)
      (es ds : listing) :
  lookup src (fs st) = Some (Dir es) ->
  lookup dst (fs st) = Some (Dir ds) ->
  denied src = false -> denied dst = false ->
  App1.sync_body denied recurse src dst patterns sd st
  = match App1.copy_pass denied recurse src dst (names ds)
            (Core.filter_excluded src patterns (names es)) st with
    | (Raised e, st2) => (Raised e, st2)
    | (Returned, st2) =>
        (Returned,
         if sd
         then App1.delete_pass denied dst
                (Core.filter_excluded src patterns (names es)) (names ds) st2
         else st2)
    end.
Proof.
  intros Hsrc Hdst Dsrc Ddst.
  destruct st as [fs0 m pi tr]. simpl in *.
  assert (Hd : is_dir fs0 dst = true) by (unfold is_dir; now rewrite Hdst).
  unfold App1.sync_body, exists_. simpl. rewrite Hsrc. simpl.
  rewrite (mkdir_parents_existing denied _ _ Hd).
  unfold iterdir. rewrite Dsrc, Ddst, Hsrc, Hdst.
  unfold with_fs. simpl.
  destruct (App1.copy_pass denied recurse src dst (names ds)
              (Core.filter_excluded src patterns (names es))
              (mkState fs0 m pi tr)) as [[|e] st2]; [|reflexivity].
  destruct sd; reflexivity.
Qed.

Section App1Idle.

Variable denied : path -> bool.
Hypothesis no_refusal : forall p, denied p = false.
Variable patterns : list string.
Variable sd : bool.

Lemma app1_mirrored_is_idle (fuel : nat) :
  forall (src dst : path) (st : state) (es : listing),
    lookup src (fs st) = Some (Dir es) ->
    unexcluded patterns (Dir es) = true ->
    height (Dir es) <= fuel ->
    mirrored (fs st) src dst ->
    App1.sync_recursive denied fuel src dst patterns sd st = (Returned, st).
Proof.
  induction fuel as [|fuel IH]; intros src dst st es Hsrc Hun Hh M.
  - simpl in Hh. lia.
  - assert (Hd : is_dir (fs st) dst = true).
    { pose proof (M []) as M0. rewrite !app_nil_r, Hsrc in M0. exact M0. }
    unfold is_dir in Hd.
    destruct (lookup dst (fs st)) as [[sz0 mt0|ds]|] eqn:Hdst; try discriminate.
    simpl.
    rewrite (app1_sync_body_at_level denied _ src dst patterns sd st Hsrc Hdst
               (no_refusal _) (no_refusal _)).
    rewrite (unexcluded_items src patterns es Hun).
    assert (Hcp : forall items,
               (forall m, In m items -> In m (names es)) ->
               App1.copy_pass denied
                 (fun s d => App1.sync_recursive denied fuel s d patterns sd)
                 src dst (names ds) items st = (Returned, st)).
    { induction items as [|m items IHi]; intros Hsub; simpl; auto.
      assert (Hm : In m (names es)) by (apply Hsub; now left).
      destruct (In_assoc_Some m es Hm) as [c Ec].
      assert (Lm : lookup (child src m) (fs st) = Some c)
        by (now rewrite (lookup_child_dir _ m _ Hsrc)).
      pose proof (mirrored_child m M) as Mm.
      pose proof (Mm []) as M0. rewrite !app_nil_r, Lm in M0.
      assert (Item : App1.sync_item denied
                       (fun s d => App1.sync_recursive denied fuel s d patterns sd)
                       src dst (names ds) m st = (Returned, st)).
      { unfold App1.sync_item.
        destruct c as [sz mt|es_m].
        - destruct (files_are_equal_true_inv _ _ _ M0) as [F1 F2].
          assert (Hex : exists_ (fs st) (child dst m) = true).
          { unfold exists_, is_file in *.
            now destruct (lookup (child dst m) (fs st)). }
          rewrite (exists_child_dir _ m _ Hdst) in Hex. rewrite Hex. simpl.
          rewrite (is_file_not_dir _ _ F1), F1, F2. simpl. now rewrite M0.
        - assert (Hex : exists_ (fs st) (child dst m) = true).
          { unfold exists_, is_dir in *.
            now destruct (lookup (child dst m) (fs st)). }
          rewrite (exists_child_dir _ m _ Hdst) in Hex. rewrite Hex. simpl.
          assert (D1 : is_dir (fs st) (child src m) = true)
            by (unfold is_dir; now rewrite Lm).
          rewrite D1, M0. simpl.
          apply IH with (es := es_m); auto.
          + apply (unexcluded_children patterns es Hun m (Dir es_m)).
            now apply assoc_In_pair.
          + pose proof (height_assoc _ _ Ec). lia. }
      rewrite Item. apply IHi. intros m' Hm'. apply Hsub. now right. }
    rewrite Hcp by auto.
    destruct sd; [|reflexivity].
    assert (Hdp : forall listed st0,
               (forall k, In k listed -> mem_string k (names es) = true) ->
               App1.delete_pass denied dst (names es) listed st0 = st0).
    { induction listed as [|k rest IHl]; intros st0 H; simpl; auto.
      rewrite (H k (or_introl eq_refl)). simpl.
      apply IHl. intros k' Hk'. apply H. now right. }
    rewrite Hdp; auto.
    intros k Hk. destruct (mem_string k (names es)) eqn:Ek; auto. exfalso.
    apply mem_string_not_In, assoc_None_names in Ek.
    pose proof (M [k]) as Mk. fold (child src k) in Mk. fold (child dst k) in Mk.
    rewrite (lookup_child_dir _ k _ Hsrc), Ek in Mk.
    rewrite (lookup_child_dir _ k _ Hdst) in Mk.
    apply assoc_None_names in Mk. contradiction.
Qed.

End App1Idle.

Lemma app1_safe_remove_fs_ext (denied : path -> bool) (p : path)
      (st_a st_c : state) :
  fs st_a = fs st_c ->
  fs (App1.safe_remove denied p st_a) = fs (Core.safe_remove denied p st_c).
Proof.
  intros H. unfold App1.safe_remove, Core.safe_remove. rewrite H.
  now destruct (if is_dir (fs st_c) p then rmtree denied p (fs st_c)
                else unlink denied p (fs st_c)).
Qed.

Lemma app1_delete_pass_fs (denied : path -> bool) (dst : path)
      (src_items dst_items : list string) :
  forall st_a st_c,
    fs st_a = fs st_c ->
    fs (App1.delete_pass denied dst src_items dst_items st_a)
    = fs (Core.delete_pass denied dst src_items dst_items st_c).
Proof.
  induction dst_items as [|k rest IH]; intros st_a st_c H; simpl; auto.
  destruct (negb (mem_string k src_items)); auto.
  apply IH. now apply app1_safe_remove_fs_ext.
Qed.

Section App1Level.

Variable denied : path -> bool.
Hypothesis no_refusal : forall p, denied p = false.
Variable patterns : list string.
Variable fuel : nat.

Let recurse (s d : path) (st : state) : outcome * state :=
  App1.sync_recursive denied fuel s d patterns true st.

Hypothesis deeper_levels :
  forall (s d : path) (st : state) (es ds : listing),
    diverge d s = true ->
    lookup s (fs st) = Some (Dir es) ->
    lookup d (fs st) = Some (Dir ds) ->
    well_formed (Dir es) = true ->
    unexcluded patterns (Dir es) = true ->
    height (Dir es) <= fuel ->
    exists st', recurse s d st = (Returned, st') /\ mirrored (fs st') s d.

Variables src dst : path.
Hypothesis Hdiv : diverge dst src = true.

Lemma app1_copy_touches (m : string) (st : state) :
  is_dir (fs st) dst = true ->
  touches_only (child dst m) (fs st)
    (fs (App1.safe_copy denied (child src m) (child dst m) st)).
Proof.
  intros Hd. rewrite app1_safe_copy_fs. now apply safe_copy_touches.
Qed.

Lemma app1_copy_file (m : string) (st : state) (sz : Z) (mt : Q) :
  is_dir (fs st) dst = true ->
  lookup (child src m) (fs st) = Some (File sz mt) ->
  is_dir (fs st) (child dst m) = false ->
  mirrored (fs (App1.safe_copy denied (child src m) (child dst m) st))
           (child src m) (child dst m).
Proof.
  intros Hd Ls Hdm. rewrite app1_safe_copy_fs.
  rewrite (@safe_copy_file_lands denied src dst m st sz mt Hdiv Hd Ls Hdm
             (no_refusal _) (no_refusal _)). simpl.
  apply mirrored_file.
  - unfold is_file. rewrite lookup_update_diverge, Ls; auto.
    now apply diverge_children.
  - now apply landed_equal.
Qed.

Lemma app1_copy_dir (m : string) (st : state) (es_m : listing) :
  is_dir (fs st) dst = true ->
  lookup (child src m) (fs st) = Some (Dir es_m) ->
  lookup (child dst m) (fs st) = None ->
  mirrored (fs (App1.safe_copy denied (child src m) (child dst m) st))
           (child src m) (child dst m).
Proof.
  intros Hd Ls Ld. apply mirrored_same.
  destruct (app1_copy_touches m st Hd) as [A _].
  rewrite (A (child src m)) by (now apply diverge_children).
  rewrite app1_safe_copy_fs, Ls.
  now apply safe_copy_dir_verbatim.
Qed.

Lemma app1_remove_clean (m : string) (st : state) (c : node) :
  is_dir (fs st) dst = true ->
  lookup (child dst m) (fs st) = Some c ->
  let st1 := App1.safe_remove denied (child dst m) st in
  lookup (child dst m) (fs st1) = None
  /\ (forall q, diverge (child dst m) q = true ->
                lookup q (fs st1) = lookup q (fs st))
  /\ is_dir (fs st1) dst = true.
Proof.
  intros Hd Ld st1. unfold st1. rewrite app1_safe_remove_fs.
  destruct (@safe_remove_clean denied no_refusal dst m st c Ld)
    as [fs1 [Er [Hn [A B]]]].
  rewrite Er. simpl. rewrite parent_child in B. auto.
Qed.

Lemma app1_item (dst_items : list string) (m : string) (st : state) (c : node) :
  is_dir (fs st) dst = true ->
  lookup (child src m) (fs st) = Some c ->
  well_formed c = true ->
  unexcluded patterns c = true ->
  height c <= fuel ->
  mem_string m dst_items = exists_ (fs st) (child dst m) ->
  exists st1,
    App1.sync_item denied recurse src dst dst_items m st = (Returned, st1)
    /\ mirrored (fs st1) (child src m) (child dst m)
    /\ (forall q, diverge (child dst m) q = true ->
                  lookup q (fs st1) = lookup q (fs st))
    /\ is_dir (fs st1) dst = true.
Proof.
  intros Hd Ls Hwf Hun Hh Hmem.
  assert (Hdv : diverge (child dst m) (child src m) = true)
    by (now apply diverge_children).
  assert (Copy : forall st1,
             is_dir (fs st1) dst = true ->
             lookup (child src m) (fs st1) = Some c ->
             lookup (child dst m) (fs st1) = None
             \/ (is_regular c = true /\ is_dir (fs st1) (child dst m) = false) ->
             (forall q, diverge (child dst m) q = true ->
                        lookup q (fs st1) = lookup q (fs st)) ->
             let st2 := App1.safe_copy denied (child src m) (child dst m) st1 in
             mirrored (fs st2) (child src m) (child dst m)
             /\ (forall q, diverge (child dst m) q = true ->
                           lookup q (fs st2) = lookup q (fs st))
             /\ is_dir (fs st2) dst = true).
  { intros st1 Hd1 Ls1 Hfree Hfr1 st2.
    destruct (app1_copy_touches m st1 Hd1) as [A B].
    rewrite parent_child in B.
    refine (conj _ (conj _ (B Hd1))).
    - destruct c as [sz mt|es_m].
      + apply app1_copy_file with (sz := sz) (mt := mt); auto.
        destruct Hfree as [Hn|[_ Hn]]; auto.
        unfold is_dir. now rewrite Hn.
      + destruct Hfree as [Hn|[Hr _]]; [|discriminate].
        now apply app1_copy_dir with (es_m := es_m).
    - intros q Hq. unfold st2. rewrite A by assumption. now apply Hfr1. }
  unfold App1.sync_item. rewrite Hmem. unfold exists_.
  destruct (lookup (child dst m) (fs st)) as [d|] eqn:Ld; simpl.
  2:{ eexists. split; [reflexivity|]. apply Copy; auto. }
  unfold is_dir at 1 2, is_file. rewrite Ls, Ld.
  destruct c as [sz mt|es_m]; destruct d as [sz' mt'|ds_m]; simpl.
  - destruct (files_are_equal (fs st) (child src m) (child dst m))
      as [[|]|e] eqn:Eq.
    + exists st. refine (conj eq_refl (conj _ (conj _ Hd))); auto.
      apply mirrored_file; auto. unfold is_file. now rewrite Ls.
    + eexists. split; [reflexivity|]. apply Copy; auto.
      right. split; auto. unfold is_dir. now rewrite Ld.
    + destruct (@files_are_equal_total (fs st) (child src m) (child dst m))
        as [b Hb].
      * unfold is_file. now rewrite Ls.
      * unfold is_file. now rewrite Ld.
      * congruence.
  - destruct (app1_remove_clean m st Hd Ld) as [Hn [A1 Hd1]].
    eexists. split; [reflexivity|]. apply Copy; auto.
    now rewrite A1.
  - destruct (app1_remove_clean m st Hd Ld) as [Hn [A1 Hd1]].
    eexists. split; [reflexivity|]. apply Copy; auto.
    now rewrite A1.
  - destruct (deeper_levels (child src m) (child dst m) st Hdv Ls Ld Hwf Hun Hh)
      as [st1 [Er M1]].
    exists st1. refine (conj Er (conj M1 (conj _ _))).
    + intros q Hq.
      pose proof (app1_sync_recursive_frame denied fuel (child src m)
                    (child dst m) patterns true st q Hq) as F.
      fold (recurse (child src m) (child dst m) st) in F.
      now rewrite Er in F.
    + apply is_dir_parent with (m := m).
      pose proof (M1 []) as M0. rewrite !app_nil_r in M0.
      assert (L1 : lookup (child src m) (fs st1) = Some (Dir es_m)).
      { pose proof (app1_sync_recursive_frame denied fuel (child src m)
                      (child dst m) patterns true st (child src m) Hdv) as F.
        fold (recurse (child src m) (child dst m) st) in F.
        rewrite Er in F. simpl in F. now rewrite F. }
      now rewrite L1 in M0.
Qed.

Lemma app1_copy_pass_mirrors (es ds : listing) (fs0 : node) :
  lookup src fs0 = Some (Dir es) ->
  lookup dst fs0 = Some (Dir ds) ->
  well_formed (Dir es) = true ->
  unexcluded patterns (Dir es) = true ->
  height (Dir es) <= S fuel ->
  forall es' : listing,
    (forall k c, In (k, c) es' -> In (k, c) es) ->
    distinct (names es') = true ->
    forall st,
      is_dir (fs st) dst = true ->
      (forall q, diverge dst q = true -> lookup q (fs st) = lookup q fs0) ->
      (forall k r, In k (names es') ->
                   lookup (child dst k ++ r) (fs st)
                   = lookup (child dst k ++ r) fs0) ->
      exists st',
        App1.copy_pass denied recurse src dst (names ds) (names es') st
        = (Returned, st')
        /\ is_dir (fs st') dst = true
        /\ (forall q, diverge dst q = true -> lookup q (fs st') = lookup q fs0)
        /\ (forall k, In k (names es') ->
                      mirrored (fs st') (child src k) (child dst k))
        /\ (forall k r, ~ In k (names es') ->
                        lookup (child dst k ++ r) (fs st')
                        = lookup (child dst k ++ r) (fs st)).
Proof.
  intros Hsrc Hdst Hwf Hun Hh.
  destruct (well_formed_children es Hwf) as [Hdist Hwfc].
  induction es' as [|[m c] es' IH]; intros Hsub Hd' st Hd Hfr Hun'.
  - exists st. simpl. refine (conj eq_refl (conj Hd (conj Hfr (conj _ _)))); auto.
    intros k [].
  - simpl in Hd'. apply andb_true_iff in Hd'. destruct Hd' as [Hm Hd'].
    apply negb_true_iff, mem_string_not_In in Hm.
    assert (Hin : In (m, c) es) by (apply Hsub; now left).
    assert (Ea : assoc m es = Some c) by (now apply assoc_distinct).
    assert (Ls : lookup (child src m) (fs st) = Some c).
    { rewrite Hfr by (unfold child; now apply diverge_app_r).
      now rewrite (lookup_child_dir _ m _ Hsrc). }
    assert (Hmem : mem_string m (names ds) = exists_ (fs st) (child dst m)).
    { rewrite <- (exists_child_dir _ m _ Hdst). unfold exists_.
      pose proof (Hun' m [] (or_introl eq_refl)) as H0.
      rewrite !app_nil_r in H0. now rewrite H0. }
    destruct (@app1_item (names ds) m st c Hd Ls (Hwfc m c Hin)
                (proj2 (unexcluded_children patterns es Hun m c Hin)))
      as [st1 [E1 [M1 [A1 Hd1]]]]; auto.
    { pose proof (height_assoc _ _ Ea). lia. }
    destruct (IH (fun k c0 H0 => Hsub k c0 (or_intror H0)) Hd' st1 Hd1)
      as [st' [E2 [Hd2 [Hfr2 [M2 K2]]]]].
    + intros q Hq. rewrite A1; auto. unfold child. now apply diverge_app_l.
    + intros k r Hk. rewrite A1.
      * apply Hun'. now right.
      * apply diverge_app_r, diverge_child. intros ->. contradiction.
    + exists st'. simpl. rewrite E1.
      refine (conj E2 (conj Hd2 (conj Hfr2 (conj _ _)))).
      * intros k [Hk|Hk]; [subst k | now apply M2].
        apply mirrored_ext with (fs0 := fs st1); [| |exact M1].
        -- intros r. rewrite Hfr2, A1, Hfr; auto;
             try (unfold child; rewrite <- app_assoc; now apply diverge_app_r).
           apply diverge_app_r. now apply diverge_children.
        -- intros r. now apply K2.
      * intros k r Hk. rewrite K2 by (intros H0; apply Hk; now right).
        apply A1, diverge_app_r, diverge_child.
        intros ->. apply Hk. now left.
Qed.

End App1Level.

Lemma app1_mirrors (denied : path -> bool) (patterns : list string) :
  (forall p, denied p = false) ->
  forall (fuel : nat) (src dst : path) (st : state) (es ds : listing),
    diverge dst src = true ->
    lookup src (fs st) = Some (Dir es) ->
    lookup dst (fs st) = Some (Dir ds) ->
    well_formed (Dir es) = true ->
    unexcluded patterns (Dir es) = true ->
    height (Dir es) <= fuel ->
    exists st',
      App1.sync_recursive denied fuel src dst patterns true st = (Returned, st')
      /\ mirrored (fs st') src dst.
Proof.
  intros Hden. induction fuel as [|fuel IH];
    intros src dst st es ds Hdiv Hsrc Hdst Hwf Hun Hh.
  - simpl in Hh. lia.
  - assert (Hd : is_dir (fs st) dst = true) by (unfold is_dir; now rewrite Hdst).
    destruct (@app1_copy_pass_mirrors denied Hden patterns fuel IH src dst Hdiv
                es ds (fs st) Hsrc Hdst Hwf Hun Hh es (fun k c H => H)
                (proj1 (well_formed_children es Hwf)) st Hd
                (fun q _ => eq_refl) (fun k r _ => eq_refl))
      as [st2 [Ecp [Hd2 [Hfr2 [M2 K2]]]]].
    assert (Ecp' : App1.copy_pass denied
                     (fun s d => App1.sync_recursive denied fuel s d patterns true)
                     src dst (names ds) (names es) st = (Returned, st2))
      by exact Ecp.
    simpl.
    rewrite (app1_sync_body_at_level denied _ src dst patterns true st Hsrc Hdst
               (Hden _) (Hden _)).
    rewrite (unexcluded_items src patterns es Hun), Ecp'.
    eexists. split; [reflexivity|].
    rewrite (app1_delete_pass_fs denied dst (names es) (names ds) st2 st2 eq_refl).
    intros [|n r].
    + rewrite !app_nil_r.
      rewrite core_delete_pass_frame, Hfr2, Hsrc by assumption.
      now apply delete_pass_is_dir.
    + rewrite !child_app.
      destruct (mem_string n (names es)) eqn:En.
      * apply mem_string_In in En.
        apply (@mirrored_ext (fs st2)); [| |now apply M2].
        -- intros r0. apply core_delete_pass_frame.
           unfold child. rewrite <- app_assoc. now apply diverge_app_r.
        -- intros r0. apply delete_pass_keeps. intros k _ Hk.
           apply diverge_app_r, diverge_child. intros ->.
           apply mem_string_not_In in Hk. contradiction.
      * apply mem_string_not_In in En.
        assert (Ls : lookup (child src n ++ r)
                            (fs (Core.delete_pass denied dst (names es) (names ds)
                                                  st2)) = None).
        { rewrite core_delete_pass_frame, Hfr2
            by (unfold child; rewrite <- app_assoc; now apply diverge_app_r).
          apply lookup_below_missing.
          rewrite (lookup_child_dir _ n _ Hsrc). now apply assoc_None_names. }
        rewrite Ls. apply lookup_below_missing.
        destruct (mem_string n (names ds)) eqn:Ed.
        -- apply delete_pass_removes; auto.
           ++ now apply mem_string_In.
           ++ now apply mem_string_not_In.
        -- apply delete_pass_keeps_missing.
           pose proof (K2 n [] En) as H0. rewrite !app_nil_r in H0.
           rewrite H0, (lookup_child_dir _ n _ Hdst).
           apply assoc_None_names. now apply mem_string_not_In.
Qed.

(** X17.  The engine of [app1.py] on a whole tree.  Source and destination
    are existing directories that do not lie inside one another, nothing is
    refused, no directory of the source lists a name twice, no name in the
    source tree is excluded, and the call stack has room for as many calls
    as the source tree is deep.  Then the run with the deletion pass
    returns, and afterwards the destination mirrors the source at every
    depth: a directory where the source has one, a regular file that
    [files_are_equal] accepts where the source has a regular file, and
    nothing where the source has nothing; the source is as it was; and a
    second run returns the very state the first one reached. *)
Theorem X17_app1_mirrors_a_tree :
  forall (denied : path -> bool) (patterns : list string) (fuel : nat)
         (src dst : path) (st : state) (es ds : listing),
    (forall p, denied p = false) ->
    diverge dst src = true ->
    lookup src (fs st) = Some (Dir es) ->
    lookup dst (fs st) = Some (Dir ds) ->
    well_formed (Dir es) = true ->
    unexcluded patterns (Dir es) = true ->
    height (Dir es) <= fuel ->
    exists st',
      App1.sync_recursive denied fuel src dst patterns true st = (Returned, st')
      /\ mirrored (fs st') src dst
      /\ (forall r, lookup (src ++ r) (fs st') = lookup (src ++ r) (fs st))
      /\ App1.sync_recursive denied fuel src dst patterns true st'
         = (Returned, st').
Proof.
  intros denied patterns fuel src dst st es ds Hden Hdiv Hsrc Hdst Hwf Hun Hh.
  destruct (@app1_mirrors denied patterns Hden fuel src dst st es ds
              Hdiv Hsrc Hdst Hwf Hun Hh) as [st' [Er M]].
  assert (Hfr : forall r, lookup (src ++ r) (fs st') = lookup (src ++ r) (fs st)).
  { intros r.
    pose proof (app1_sync_recursive_frame denied fuel src dst patterns true st
                  (src ++ r) (diverge_app_r _ _ r Hdiv)) as F.
    now rewrite Er in F. }
  exists st'. refine (conj Er (conj M (conj Hfr _))).
  apply (@app1_mirrored_is_idle denied Hden patterns true fuel src dst st' es);
    auto.
  pose proof (Hfr []) as H0. rewrite !app_nil_r in H0. now rewrite H0.
Qed.

(** X18.  A destination that already mirrors the source is left alone by
    [app1.py: sync_recursive], with or without the deletion pass: the run
    returns the state it was given; nothing is copied, removed or logged. *)
Theorem X18_app1_leaves_a_mirror_alone :
  forall (denied : path -> bool) (patterns : list string) (sd : bool)
         (fuel : nat) (src dst : path) (st : state) (es : listing),
    (forall p, denied p = false) ->
    lookup src (fs st) = Some (Dir es) ->
    unexcluded patterns (Dir es) = true ->
    height (Dir es) <= fuel ->
    mirrored (fs st) src dst ->
    App1.sync_recursive denied fuel src dst patterns sd st = (Returned, st).
Proof.
  intros denied patterns sd fuel src dst st es Hden Hsrc Hun Hh M.
  now apply (@app1_mirrored_is_idle denied Hden patterns sd fuel src dst st es).
Qed.

Lemma X17_the_nested_scenario_is_mirrored :
  exists st',
    App1.sync_recursive no_denial 2 ["src"]%string ["dst"]%string
                        ["*.tmp"]%string true nested_state = (Returned, st')
    /\ mirrored (fs st') ["src"]%string ["dst"]%string
    /\ (forall r, lookup (["src"]%string ++ r) (fs st')
                  = lookup (["src"]%string ++ r) (fs nested_state))
    /\ App1.sync_recursive no_denial 2 ["src"]%string ["dst"]%string
                           ["*.tmp"]%string true st' = (Returned, st').
Proof.
  exact (@X17_app1_mirrors_a_tree no_denial ["*.tmp"]%string 2
           ["src"]%string ["dst"]%string nested_state
           [ ("d", Dir [ ("f", File 3 7) ]) ]%string [ ("d", Dir []) ]%string
           (fun _ => eq_refl) eq_refl eq_refl eq_refl eq_refl eq_refl
           (le_n 2)).
Defined.

Lemma X18_two_equal_folders :
  App1.sync_recursive no_denial 2 ["src"]%string ["dst"]%string
                      ["*.tmp"]%string true twin_state
  = (Returned, twin_state).
Proof.
  exact (@X18_app1_leaves_a_mirror_alone no_denial ["*.tmp"]%string true 2
           ["src"]%string ["dst"]%string twin_state
           [ ("a.txt", File 4 9); ("sub", Dir [ ("b.txt", File 5 9) ]) ]%string
           (fun _ => eq_refl) eq_refl eq_refl (le_n 2)
           (@mirrored_same twin_fs ["src"]%string ["dst"]%string eq_refl)).
Defined.

(* ================================================================== *)
(** * The run on a host *)

Lemma counted_refl (st : state) : counted st st.
Proof. split; [apply accounted_refl | reflexivity]. Qed.

Lemma counted_trans (st0 st1 st2 : state) :
  counted st0 st1 -> counted st1 st2 -> counted st0 st2.
Proof.
  intros [A1 P1] [A2 P2]. split.
  - eapply accounted_trans; eauto.
  - congruence.
Qed.

Ltac count evs := split; [account evs | reflexivity].

Section HostCounting.

Variable h : host.

Lemma host_safe_copy_counted (s d : path) (st : state) :
  counted st (CoreHost.safe_copy h s d st).
Proof.
  unfold CoreHost.safe_copy.
  destruct (Host.mkdir_parents h (parent d) (fs st)) as [fs1 [e|]].
  - count [Log (MsgCopyError s d e)].
  - destruct (Host.read_is_dir h fs1 s) as [[|]|e].
    + destruct (Host.copytree h s d fs1) as [fs2 [e|]].
      * count [Log (MsgCopyError s d e)].
      * count [Log (MsgCopied s d)].
    + destruct (copy2 (refuses h) s d fs1) as [fs2|e].
      * count [Progress (mkMetrics (total_files (metrics st))
                                   (S (copied_files (metrics st)))
                                   (errors (metrics st)))
                        (progress_info st);
               Log (MsgCopied s d)].
      * count [Log (MsgCopyError s d e)].
    + count [Log (MsgCopyError s d e)].
Qed.

Lemma host_safe_remove_counted (p : path) (st : state) :
  counted st (CoreHost.safe_remove h p st).
Proof.
  unfold CoreHost.safe_remove.
  destruct (Host.read_is_dir h (fs st) p) as [[|]|e].
  - destruct (Host.rmtree h p (fs st)) as [fs1 [e|]].
    + count [Log (MsgRemoveError p e)].
    + count [Log (MsgRemoved p)].
  - destruct (unlink (refuses h) p (fs st)) as [fs1|e].
    + count [Log (MsgRemoved p)].
    + count [Log (MsgRemoveError p e)].
  - count [Log (MsgRemoveError p e)].
Qed.

Lemma host_sync_item_counted (recurse : state -> outcome * state)
      (src dst : path) (dst_items : list string) (m : string) (st : state) :
  (forall st0, counted st0 (snd (recurse st0))) ->
  counted st (snd (CoreHost.sync_item h recurse src dst dst_items m st)).
Proof.
  intros Hrec. unfold CoreHost.sync_item.
  destruct (negb (mem_string m dst_items)); simpl.
  { apply host_safe_copy_counted. }
  destruct (lazy_and (Host.read_is_dir h (fs st) (child src m))
                     (Host.read_is_dir h (fs st) (child dst m))) as [[|]|e];
    simpl; [apply Hrec | | apply counted_refl].
  destruct (lazy_and (Host.read_is_file h (fs st) (child src m))
                     (Host.read_is_file h (fs st) (child dst m))) as [[|]|e];
    simpl; [ | | apply counted_refl].
  - destruct (Host.files_are_equal h (fs st) (child src m) (child dst m))
      as [[|]|e]; simpl.
    + apply counted_refl.
    + apply host_safe_copy_counted.
    + apply counted_refl.
  - eapply counted_trans;
      [apply host_safe_remove_counted | apply host_safe_copy_counted].
Qed.

Lemma host_copy_pass_counted (recurse : state -> outcome * state)
      (src dst : path) (dst_items items : list string) :
  (forall st0, counted st0 (snd (recurse st0))) ->
  forall st,
    counted st (snd (CoreHost.copy_pass h recurse src dst dst_items items st)).
Proof.
  intros Hrec. induction items as [|m items IH]; intros st; simpl.
  - apply counted_refl.
  - pose proof (host_sync_item_counted recurse src dst dst_items m st Hrec) as A.
    destruct (CoreHost.sync_item h recurse src dst dst_items m st)
      as [[|e] st1]; simpl in *; auto.
    eapply counted_trans; [exact A | apply IH].
Qed.

Lemma host_delete_pass_counted (dst : path) (src_items dst_items : list string) :
  forall st, counted st (CoreHost.delete_pass h dst src_items dst_items st).
Proof.
  induction dst_items as [|m rest IH]; intros st; simpl.
  - apply counted_refl.
  - destruct (negb (mem_string m src_items)); auto.
    eapply counted_trans; [apply host_safe_remove_counted | apply IH].
Qed.

Lemma log_counted (msg : message) (st : state) :
  is_failure (Log msg) = false -> counted st (log_callback msg st).
Proof. intros H. split; [now apply log_accounted | reflexivity]. Qed.

Lemma with_fs_counted (fs1 : node) (st : state) : counted st (with_fs fs1 st).
Proof. split; [apply with_fs_accounted | reflexivity]. Qed.

Lemma host_sync_body_counted (recurse : state -> outcome * state)
      (task : BackupTask path) (sd : bool) (st : state) :
  (forall st0, counted st0 (snd (recurse st0))) ->
  counted st (snd (CoreHost.sync_body h recurse task sd st)).
Proof.
  intros Hrec. unfold CoreHost.sync_body.
  destruct (Host.read_exists h (fs st) (source task)) as [[|]|e]; simpl.
  2:{ now apply log_counted. }
  2:{ apply counted_refl. }
  destruct (Host.mkdir_parents h (destination task) (fs st)) as [fs1 [e|]]; simpl.
  { apply with_fs_counted. }
  assert (A1 : counted st (with_fs fs1 st)) by apply with_fs_counted.
  destruct (CoreHost.listings h (source task) (destination task)
              (exclude_patterns task) fs1) as [[src_items dst_items]|e1].
  2:{ destruct e1; simpl;
      try (eapply counted_trans; [exact A1 | now apply log_counted]);
      exact A1. }
  pose proof (host_copy_pass_counted recurse (source task) (destination task)
                dst_items src_items Hrec (with_fs fs1 st)) as A2.
  destruct (CoreHost.copy_pass h recurse (source task) (destination task)
              dst_items src_items (with_fs fs1 st)) as [[|e] st2]; simpl in *.
  - destruct sd; simpl.
    + eapply counted_trans; [exact A1|].
      eapply counted_trans; [exact A2 | apply host_delete_pass_counted].
    + eapply counted_trans; [exact A1 | exact A2].
  - eapply counted_trans; [exact A1 | exact A2].
Qed.

Lemma host_sync_recursive_counted (fuel : nat) (task : BackupTask path)
      (sd : bool) :
  forall st, counted st (snd (CoreHost.sync_recursive h fuel task sd st)).
Proof.
  induction fuel as [|fuel IH]; intros st.
  - apply counted_refl.
  - apply host_sync_body_counted. exact IH.
Qed.

End HostCounting.

Section HostCalls.

Variable h : host.

Lemma host_safe_copy_file (s d : path) (st : state) (fs1 fs2 : node) :
  Host.mkdir_parents h (parent d) (fs st) = (fs1, None) ->
  Host.read_is_dir h fs1 s = Ok false ->
  copy2 (refuses h) s d fs1 = Ok fs2 ->
  let m' := mkMetrics (total_files (metrics st))
                      (S (copied_files (metrics st)))
                      (errors (metrics st)) in
  CoreHost.safe_copy h s d st
  = mkState fs2 m' (progress_info st)
            (trace st ++ [Progress m' (progress_info st); Log (MsgCopied s d)]).
Proof.
  intros Hmk Hdir Hcp m'. unfold CoreHost.safe_copy.
  rewrite Hmk, Hdir, Hcp.
  unfold log_callback, update_progress, incr_copied, with_fs; simpl.
  now rewrite <- app_assoc.
Qed.

Lemma host_safe_copy_tree (s d : path) (st : state) (fs1 fs2 : node) :
  Host.mkdir_parents h (parent d) (fs st) = (fs1, None) ->
  Host.read_is_dir h fs1 s = Ok true ->
  Host.copytree h s d fs1 = (fs2, None) ->
  CoreHost.safe_copy h s d st
  = mkState fs2 (metrics st) (progress_info st)
            (trace st ++ [Log (MsgCopied s d)]).
Proof.
  intros Hmk Hdir Hcp. unfold CoreHost.safe_copy.
  now rewrite Hmk, Hdir, Hcp.
Qed.

Lemma host_safe_copy_failed (s d : path) (st : state) (fs2 : node) (e : exn) :
  host_copy_calls h s d (fs st) = (fs2, Some e) ->
  CoreHost.safe_copy h s d st
  = mkState fs2
            (mkMetrics (total_files (metrics st)) (copied_files (metrics st))
                       (S (errors (metrics st))))
            (progress_info st)
            (trace st ++ [Log (MsgCopyError s d e)]).
Proof.
  unfold host_copy_calls, CoreHost.safe_copy.
  destruct (Host.mkdir_parents h (parent d) (fs st)) as [fs1 [e1|]].
  { intros H; inversion H; subst. reflexivity. }
  destruct (Host.read_is_dir h fs1 s) as [[|]|e1].
  - destruct (Host.copytree h s d fs1) as [fs3 [e1|]];
      intros H; inversion H; subst. reflexivity.
  - destruct (copy2 (refuses h) s d fs1) as [fs3|e1];
      intros H; inversion H; subst. reflexivity.
  - intros H; inversion H; subst. reflexivity.
Qed.

Lemma host_safe_remove_done (p : path) (st : state) (fs1 : node) :
  host_remove_calls h p (fs st) = (fs1, None) ->
  CoreHost.safe_remove h p st
  = mkState fs1 (metrics st) (progress_info st)
            (trace st ++ [Log (MsgRemoved p)]).
Proof.
  unfold host_remove_calls, CoreHost.safe_remove.
  destruct (Host.read_is_dir h (fs st) p) as [[|]|e1].
  - destruct (Host.rmtree h p (fs st)) as [fs3 [e1|]];
      intros H; inversion H; subst. reflexivity.
  - destruct (unlink (refuses h) p (fs st)) as [fs3|e1];
      intros H; inversion H; subst. reflexivity.
  - discriminate.
Qed.

Lemma host_safe_remove_failed (p : path) (st : state) (fs1 : node) (e : exn) :
  host_remove_calls h p (fs st) = (fs1, Some e) ->
  CoreHost.safe_remove h p st
  = mkState fs1
            (mkMetrics (total_files (metrics st)) (copied_files (metrics st))
                       (S (errors (metrics st))))
            (progress_info st)
            (trace st ++ [Log (MsgRemoveError p e)]).
Proof.
  unfold host_remove_calls, CoreHost.safe_remove.
  destruct (Host.read_is_dir h (fs st) p) as [[|]|e1].
  - destruct (Host.rmtree h p (fs st)) as [fs3 [e1|]];
      intros H; inversion H; subst. reflexivity.
  - destruct (unlink (refuses h) p (fs st)) as [fs3|e1];
      intros H; inversion H; subst. destruct st; reflexivity.
  - intros H; inversion H; subst. destruct st; reflexivity.
Qed.

Lemma host_safe_remove_attempt (p : path) (st : state) :
  remove_attempts (trace (CoreHost.safe_remove h p st))
  = remove_attempts (trace st) ++ [p].
Proof.
  unfold CoreHost.safe_remove.
  destruct (Host.read_is_dir h (fs st) p) as [[|]|e]; simpl.
  - destruct (Host.rmtree h p (fs st)) as [fs1 [e|]]; simpl;
      now rewrite remove_attempts_app.
  - destruct (unlink (refuses h) p (fs st)); simpl;
      now rewrite remove_attempts_app.
  - now rewrite remove_attempts_app.
Qed.

Lemma host_delete_pass_attempts (dst : path) (src_items dst_items : list string) :
  forall st,
    remove_attempts
      (trace (CoreHost.delete_pass h dst src_items dst_items st))
    = remove_attempts (trace st)
      ++ map (child dst)
             (filter (fun n => negb (mem_string n src_items)) dst_items).
Proof.
  induction dst_items as [|m rest IH]; intros st; simpl.
  - now rewrite app_nil_r.
  - destruct (negb (mem_string m src_items)); simpl; rewrite IH; auto.
    rewrite host_safe_remove_attempt, <- app_assoc. reflexivity.
Qed.

(** * What leaves the walk *)

Lemma read_raises (fs0 : node) (p : path) (e : exn) :
  (Host.read_is_dir h fs0 p = Raise e \/ Host.read_is_file h fs0 p = Raise e
   \/ Host.read_exists h fs0 p = Raise e) ->
  e = PermissionError /\ hides h p = true.
Proof.
  unfold Host.read_is_dir, Host.read_is_file, Host.read_exists.
  destruct (hides h p); intros [H|[H|H]]; inversion H; auto.
Qed.

Lemma lazy_and_raises (a b : result bool) (e : exn) :
  lazy_and a b = Raise e -> a = Raise e \/ (a = Ok true /\ b = Raise e).
Proof. destruct a as [[|]|e1]; simpl; intros H; auto; discriminate. Qed.

Lemma lazy_and_true (a b : result bool) :
  lazy_and a b = Ok true -> a = Ok true /\ b = Ok true.
Proof. destruct a as [[|]|e1]; simpl; intros H; auto; discriminate. Qed.

Lemma read_is_file_true (fs0 : node) (p : path) :
  Host.read_is_file h fs0 p = Ok true ->
  hides h p = false /\ exists sz mt, lookup p fs0 = Some (File sz mt).
Proof.
  unfold Host.read_is_file, is_file. destruct (hides h p); [discriminate|].
  destruct (lookup p fs0) as [[sz mt|es]|]; intros H; inversion H; eauto.
Qed.

(** After the two [is_file] tests of line 39, [files_are_equal] reads
    the metadata of the same two files and does not raise. *)
Lemma host_files_are_equal_total (fs0 : node) (f1 f2 : path) :
  Host.read_is_file h fs0 f1 = Ok true ->
  Host.read_is_file h fs0 f2 = Ok true ->
  exists b, Host.files_are_equal h fs0 f1 f2 = Ok b.
Proof.
  intros H1 H2.
  apply read_is_file_true in H1. destruct H1 as [N1 [sz1 [mt1 L1]]].
  apply read_is_file_true in H2. destruct H2 as [N2 [sz2 [mt2 L2]]].
  unfold Host.files_are_equal, Host.read_exists, Host.read_stat, exists_.
  rewrite N1, N2, L1, L2. eauto.
Qed.

Lemma host_sync_item_escapes (recurse : state -> outcome * state)
      (src dst : path) (dst_items : list string) (m : string)
      (st st' : state) (e : exn) :
  CoreHost.sync_item h recurse src dst dst_items m st = (Raised e, st') ->
  (e = PermissionError
   /\ (hides h (child src m) = true \/ hides h (child dst m) = true)
   /\ st' = st)
  \/ recurse st = (Raised e, st').
Proof.
  unfold CoreHost.sync_item.
  destruct (negb (mem_string m dst_items)); [discriminate|].
  destruct (lazy_and (Host.read_is_dir h (fs st) (child src m))
                     (Host.read_is_dir h (fs st) (child dst m)))
    as [[|]|e1] eqn:Ed.
  - intros H. now right.
  - destruct (lazy_and (Host.read_is_file h (fs st) (child src m))
                       (Host.read_is_file h (fs st) (child dst m)))
      as [[|]|e2] eqn:Ef.
    + apply lazy_and_true in Ef. destruct Ef as [F1 F2].
      destruct (host_files_are_equal_total _ _ _ F1 F2) as [b ->].
      destruct b; discriminate.
    + discriminate.
    + intros H. inversion H; subst. left.
      apply lazy_and_raises in Ef. destruct Ef as [R|[_ R]];
        destruct (@read_raises (fs st') _ e (or_intror (or_introl R)))
          as [-> Hh]; auto.
  - intros H. inversion H; subst. left.
    apply lazy_and_raises in Ed. destruct Ed as [R|[_ R]];
      destruct (@read_raises (fs st') _ e (or_introl R)) as [-> Hh]; auto.
Qed.

Lemma host_copy_pass_escapes (recurse : state -> outcome * state)
      (src dst : path) (dst_items items : list string) :
  forall (st st' : state) (e : exn),
    CoreHost.copy_pass h recurse src dst dst_items items st = (Raised e, st') ->
    (e = PermissionError
     /\ exists m, In m items
                  /\ (hides h (child src m) = true
                      \/ hides h (child dst m) = true))
    \/ exists st0, recurse st0 = (Raised e, st').
Proof.
  induction items as [|m items IH]; intros st st' e; simpl; [discriminate|].
  destruct (CoreHost.sync_item h recurse src dst dst_items m st)
    as [[|e1] st1] eqn:E.
  - intros H. apply IH in H. destruct H as [[-> [m' [Hin Hh]]]|H]; auto.
    left. split; auto. exists m'. split; [now right | exact Hh].
  - intros H. inversion H; subst.
    apply host_sync_item_escapes in E. destruct E as [[-> [Hh _]]|E].
    + left. split; auto. exists m. split; [now left | exact Hh].
    + right. eauto.
Qed.

(** As long as no item raises, the copy pass is the walk over all the
    items, one after the other, whatever the copies and the removals made
    for them did. *)
Lemma host_copy_pass_walks (recurse : state -> outcome * state)
      (src dst : path) (dst_items items : list string) :
  (forall m, In m items ->
             hides h (child src m) = false /\ hides h (child dst m) = false) ->
  (forall st0, fst (recurse st0) = Returned) ->
  forall st,
    CoreHost.copy_pass h recurse src dst dst_items items st
    = (Returned,
       fold_left
         (fun s m => snd (CoreHost.sync_item h recurse src dst dst_items m s))
         items st).
Proof.
  intros Hh Hrec. induction items as [|m items IH]; intros st; simpl; auto.
  destruct (CoreHost.sync_item h recurse src dst dst_items m st)
    as [[|e] st1] eqn:E; simpl.
  - apply IH. intros m' Hm'. apply Hh. now right.
  - exfalso. apply host_sync_item_escapes in E.
    destruct (Hh m (or_introl eq_refl)) as [H1 H2].
    destruct E as [[_ [[Hs|Hd] _]]|E]; try congruence.
    specialize (Hrec st). rewrite E in Hrec. discriminate.
Qed.

End HostCalls.

Lemma set_entry_twice (k : string) (v v' : node) (es : listing) :
  set_entry k v (set_entry k v' es) = set_entry k v es.
Proof.
  induction es as [|[k' c] es IH]; simpl.
  - now rewrite String.eqb_refl.
  - destruct (String.eqb k k') eqn:E; simpl.
    + now rewrite String.eqb_refl.
    + now rewrite E, IH.
Qed.

Section HostEscapes.

Variable h : host.

(** A [mkdir] that failed fails alike when it is asked again. *)
Lemma mkdir_walk_stable (p : path) :
  forall (pre : path) (n n' : node) (e : exn),
    Host.mkdir_walk h pre p n = (n', Some e) ->
    Host.mkdir_walk h pre p n' = (n', Some e).
Proof.
  induction p as [|k p IH]; intros pre n n' e; simpl.
  - destruct n; intros H; inversion H; subst; reflexivity.
  - destruct n as [sz mt|es]; [intros H; inversion H; subst; reflexivity|].
    destruct (assoc k es) as [c|] eqn:Ea.
    + destruct (Host.mkdir_walk h (pre ++ [k]) p c) as [c' r] eqn:Ew.
      intros H; inversion H; subst.
      rewrite assoc_set_same, (IH _ _ _ _ Ew), set_entry_twice. reflexivity.
    + destruct (refuses h (pre ++ [k])) eqn:Er.
      * intros H; inversion H; subst. simpl. now rewrite Ea, ?Er.
      * destruct (Host.mkdir_walk h (pre ++ [k]) p (Dir [])) as [c' r] eqn:Ew.
        intros H; inversion H; subst.
        rewrite assoc_set_same, (IH _ _ _ _ Ew), set_entry_twice. reflexivity.
Qed.

Lemma mkdir_parents_stable (p : path) (fs0 fs1 : node) (e : exn) :
  Host.mkdir_parents h p fs0 = (fs1, Some e) ->
  Host.mkdir_parents h p fs1 = (fs1, Some e).
Proof.
  unfold Host.mkdir_parents. destruct (hides h p).
  - intros H; inversion H; subst; reflexivity.
  - apply mkdir_walk_stable.
Qed.

Lemma listings_raises_OSError (src dst : path) (pats : list string)
      (fs0 : node) (e : exn) :
  CoreHost.listings h src dst pats fs0 = Raise e -> is_OSError e = true.
Proof.
  unfold CoreHost.listings.
  destruct (iterdir (refuses h) src fs0) as [children|e1] eqn:E1.
  - destruct (iterdir (refuses h) dst fs0) as [items|e2] eqn:E2;
      [discriminate|].
    intros H; inversion H; subst. eapply iterdir_raises_OSError; eauto.
  - intros H; inversion H; subst. eapply iterdir_raises_OSError; eauto.
Qed.

Lemma host_sync_recursive_escapes (fuel : nat) (task : BackupTask path)
      (sd : bool) :
  forall (st st' : state) (e : exn),
    CoreHost.sync_recursive h fuel task sd st = (Raised e, st') ->
    escapes h (source task) (destination task) (fs st') e.
Proof.
  induction fuel as [|fuel IH]; intros st st' e; simpl.
  { intros H; inversion H; subst. now left. }
  unfold CoreHost.sync_body.
  destruct (Host.read_exists h (fs st) (source task)) as [[|]|e1] eqn:Ex.
  3:{ intros H; inversion H; subst. right; left.
      destruct (@read_raises h (fs st') _ e (or_intror (or_intror Ex)))
        as [-> Hh].
      split; auto. exists (source task). split; [now left | exact Hh]. }
  2:{ discriminate. }
  destruct (Host.mkdir_parents h (destination task) (fs st))
    as [fs1 [e1|]] eqn:Em.
  { intros H; inversion H; subst. right; right. simpl.
    now rewrite (mkdir_parents_stable _ _ Em). }
  destruct (CoreHost.listings h (source task) (destination task)
              (exclude_patterns task) fs1) as [[src_items dst_items]|e1] eqn:El.
  2:{ pose proof (listings_raises_OSError _ _ _ _ El) as Ho.
      destruct e1; simpl in *; discriminate. }
  destruct (CoreHost.copy_pass h (CoreHost.sync_recursive h fuel task sd)
              (source task) (destination task) dst_items src_items
              (with_fs fs1 st)) as [[|e2] st2] eqn:Ec.
  { destruct sd; discriminate. }
  intros H; inversion H; subst.
  apply host_copy_pass_escapes in Ec.
  destruct Ec as [[-> [m [_ Hh]]]|[st0 R]].
  - right; left. split; auto. destruct Hh as [Hh|Hh].
    + exists (child (source task) m). split; [right; exists m; now left | auto].
    + exists (child (destination task) m).
      split; [right; exists m; now right | auto].
  - eapply IH; eauto.
Qed.

Lemma host_mkdir_failure (fuel : nat) (task : BackupTask path) (sd : bool)
      (st : state) (fs1 : node) (e : exn) :
  Host.read_exists h (fs st) (source task) = Ok true ->
  Host.mkdir_parents h (destination task) (fs st) = (fs1, Some e) ->
  CoreHost.sync_recursive h (S fuel) task sd st = (Raised e, with_fs fs1 st).
Proof.
  intros Hex Hmk. simpl. unfold CoreHost.sync_body. now rewrite Hex, Hmk.
Qed.

Lemma host_hidden_source (fuel : nat) (task : BackupTask path) (sd : bool)
      (st : state) :
  hides h (source task) = true ->
  CoreHost.sync_recursive h (S fuel) task sd st = (Raised PermissionError, st).
Proof.
  intros Hh. simpl. unfold CoreHost.sync_body, Host.read_exists.
  now rewrite Hh.
Qed.

Lemma host_hidden_child (recurse : state -> outcome * state)
      (src dst : path) (dst_items : list string) (m : string) (st : state) :
  mem_string m dst_items = true ->
  (hides h (child src m) = true
   \/ (exists_ (fs st) (child src m) = true
       /\ hides h (child dst m) = true)) ->
  CoreHost.sync_item h recurse src dst dst_items m st
  = (Raised PermissionError, st).
Proof.
  intros Hm Hh. unfold CoreHost.sync_item. rewrite Hm. simpl.
  unfold Host.read_is_dir, Host.read_is_file.
  destruct (hides h (child src m)) eqn:Hs; [reflexivity|].
  destruct Hh as [Hh|[Hex Hh]]; [discriminate|]. rewrite Hh.
  unfold exists_ in Hex. unfold is_dir, is_file.
  destruct (lookup (child src m) (fs st)) as [[sz mt|es]|];
    [reflexivity | reflexivity | discriminate].
Qed.

Lemma host_listing_failure (fuel : nat) (task : BackupTask path) (sd : bool)
      (st : state) (fs1 : node) (e : exn) :
  Host.read_exists h (fs st) (source task) = Ok true ->
  Host.mkdir_parents h (destination task) (fs st) = (fs1, None) ->
  CoreHost.listings h (source task) (destination task)
                    (exclude_patterns task) fs1 = Raise e ->
  CoreHost.sync_recursive h (S fuel) task sd st
  = (Returned,
     log_callback
       (match e with
        | PermissionError =>
            MsgNoAccess (source task) (destination task) PermissionError
        | _ => MsgAccessError (source task) (destination task) e
        end)
       (with_fs fs1 st)).
Proof.
  intros Hex Hmk Hl. simpl. unfold CoreHost.sync_body.
  rewrite Hex, Hmk, Hl.
  pose proof (listings_raises_OSError _ _ _ _ Hl) as Ho.
  destruct e; simpl in *; try discriminate; reflexivity.
Qed.

End HostEscapes.

(* ================================================================== *)
(** * The deletion pass on a host *)

Lemma is_prefix_refl (p : path) : is_prefix p p = true.
Proof. induction p as [|a p IH]; simpl; auto. now rewrite String.eqb_refl. Qed.

Lemma is_prefix_child (p : path) (k : string) (q : path) :
  is_prefix (p ++ [k]) q = true -> is_prefix p q = true.
Proof.
  revert q. induction p as [|a p IH]; intros q; simpl; auto.
  destruct q as [|b q]; [discriminate|].
  destruct (String.eqb a b); simpl; auto.
Qed.

Lemma set_entry_same (k : string) (c : node) (es : listing) :
  assoc k es = Some c -> set_entry k c es = es.
Proof.
  induction es as [|[k' c'] es IH]; simpl; [discriminate|].
  destruct (String.eqb k k') eqn:E.
  - apply String.eqb_eq in E. subst k'. intros H; inversion H; reflexivity.
  - intros H. now rewrite IH.
Qed.

Lemma lookup_child_parent (a : path) (k : string) (c : node) (fs0 : node) :
  lookup (child a k) fs0 = Some c -> is_dir fs0 a = true.
Proof.
  unfold child, is_dir. rewrite lookup_app.
  destruct (lookup a fs0) as [[sz mt|es]|]; simpl; auto; discriminate.
Qed.

Lemma left_at_ext (h : host) (fs0 fs1 : node) (p : path) :
  lookup p fs1 = lookup p fs0 -> left_at h fs1 p = left_at h fs0 p.
Proof. unfold left_at. now intros ->. Qed.

Lemma removal_fails_ext (h : host) (fs0 fs1 : node) (p : path) :
  lookup p fs1 = lookup p fs0 -> removal_fails h fs1 p = removal_fails h fs0 p.
Proof. unfold removal_fails. now intros ->. Qed.

Section HostRemoval.

Variable h : host.

(** A tree in and below which nothing is refused goes as a whole. *)
Lemma rm_clean (c : node) :
  forall p : path,
    (forall q, is_prefix p q = true -> refuses h q = false) ->
    Host.rm h p c = None.
Proof.
  induction c as [sz mt|es IH] using node_nested_ind; intros p Hp; simpl.
  - now rewrite (Hp p (is_prefix_refl p)).
  - rewrite (Hp p (is_prefix_refl p)).
    assert (G : forall l : listing,
               (forall k c, In (k, c) l -> In (k, c) es) ->
               (fix go (es0 : listing) : option (listing * exn) :=
                  match es0 with
                  | [] => None
                  | (k, c) :: es' =>
                      match Host.rm h (p ++ [k]) c with
                      | Some (c', e) => Some ((k, c') :: es', e)
                      | None => go es'
                      end
                  end) l = None).
    { induction l as [|[k c] l IHl]; intros Hin; auto.
      rewrite (IH k c (Hin k c (or_introl eq_refl)) (p ++ [k])).
      - apply IHl. intros k' c' H'. apply Hin. now right.
      - intros q Hq. apply Hp. eapply is_prefix_child; eauto. }
    now rewrite (G es (fun k c H => H)).
Qed.

Lemma host_mkdir_walk_existing (p : path) :
  forall (pre : path) (n : node) (es : listing),
    lookup p n = Some (Dir es) -> Host.mkdir_walk h pre p n = (n, None).
Proof.
  induction p as [|k p IH]; intros pre n es; simpl.
  - intros H; inversion H; subst; reflexivity.
  - destruct n as [sz mt|cs]; [discriminate|].
    destruct (assoc k cs) as [c|] eqn:Ea; [|discriminate].
    intros H. rewrite (IH _ _ _ H). now rewrite (set_entry_same _ _ Ea).
Qed.

Lemma host_mkdir_parents_existing (p : path) (fs0 : node) (es : listing) :
  hides h p = false -> lookup p fs0 = Some (Dir es) ->
  Host.mkdir_parents h p fs0 = (fs0, None).
Proof.
  intros Hh H. unfold Host.mkdir_parents. rewrite Hh.
  eapply host_mkdir_walk_existing; eauto.
Qed.

(** The calls of [safe_remove] touch nothing beside their target. *)
Lemma host_remove_calls_frame (p q : path) (fs0 : node) :
  diverge p q = true ->
  lookup q (fst (host_remove_calls h p fs0)) = lookup q fs0.
Proof.
  intros Hd. unfold host_remove_calls.
  destruct (Host.read_is_dir h fs0 p) as [[|]|e]; [| |reflexivity].
  - unfold Host.rmtree. destruct (hides h p); [reflexivity|].
    destruct (lookup p fs0) as [[sz mt|es]|]; [reflexivity| |reflexivity].
    destruct (Host.rm h p (Dir es)) as [[rest e]|]; cbn [fst];
      now apply lookup_update_diverge.
  - unfold unlink. destruct (refuses h p); [reflexivity|].
    destruct (lookup p fs0) as [[sz mt|es]|]; cbn [fst]; auto.
    now apply lookup_update_diverge.
Qed.

(** At their target they leave what [rm] leaves. *)
Lemma host_remove_calls_target (a : path) (k : string) (fs0 : node) :
  lookup (child a k) (fst (host_remove_calls h (child a k) fs0))
  = left_at h fs0 (child a k).
Proof.
  unfold host_remove_calls, left_at, Host.read_is_dir, is_dir.
  destruct (hides h (child a k)) eqn:Hh.
  { cbn [fst]. destruct (lookup (child a k) fs0); reflexivity. }
  destruct (lookup (child a k) fs0) as [[sz mt|es]|] eqn:L.
  - unfold unlink. cbn [Host.rm]. destruct (refuses h (child a k)); cbn [fst].
    + exact L.
    + rewrite L. cbn [fst]. apply lookup_update_same_None. apply child_not_root.
  - unfold Host.rmtree. rewrite Hh, L.
    destruct (Host.rm h (child a k) (Dir es)) as [[rest e]|]; cbn [fst].
    + apply lookup_update_same_Some; [apply child_not_root|].
      rewrite parent_child. eapply lookup_child_parent; eauto.
    + apply lookup_update_same_None. apply child_not_root.
  - unfold unlink. destruct (refuses h (child a k)); cbn [fst]; auto.
    now rewrite L.
Qed.

Lemma host_remove_calls_fails (p : path) (fs0 : node) :
  match snd (host_remove_calls h p fs0) with
  | Some _ => removal_fails h fs0 p = true
  | None => removal_fails h fs0 p = false
  end.
Proof.
  unfold host_remove_calls, removal_fails, Host.read_is_dir, is_dir.
  destruct (hides h p) eqn:Hh; [reflexivity|].
  destruct (lookup p fs0) as [[sz mt|es]|] eqn:L.
  - unfold unlink. cbn [Host.rm]. destruct (refuses h p); cbn [snd orb]; auto.
    now rewrite L.
  - unfold Host.rmtree. rewrite Hh, L.
    destruct (Host.rm h p (Dir es)) as [[rest e]|]; reflexivity.
  - unfold unlink. destruct (refuses h p); cbn [snd orb]; auto. now rewrite L.
Qed.

Lemma host_safe_remove_calls (p : path) (st : state) :
  fs (CoreHost.safe_remove h p st) = fst (host_remove_calls h p (fs st))
  /\ errors (metrics (CoreHost.safe_remove h p st))
     = errors (metrics st) + (if removal_fails h (fs st) p then 1 else 0).
Proof.
  pose proof (host_remove_calls_fails p (fs st)) as F.
  destruct (host_remove_calls h p (fs st)) as [fs1 [e|]] eqn:E; simpl in F.
  - rewrite (host_safe_remove_failed h p st E), F. simpl. split; [auto | lia].
  - rewrite (host_safe_remove_done h p st E), F. simpl. split; [auto | lia].
Qed.

Lemma host_delete_pass_keeps (dst : path) (src_items dst_items : list string)
      (q : path) :
  (forall m, In m dst_items -> mem_string m src_items = false ->
             diverge (child dst m) q = true) ->
  forall st,
    lookup q (fs (CoreHost.delete_pass h dst src_items dst_items st))
    = lookup q (fs st).
Proof.
  induction dst_items as [|m rest IH]; intros HQ st; simpl; auto.
  destruct (mem_string m src_items) eqn:Em; simpl.
  - apply IH. intros m' Hm'. apply HQ. now right.
  - rewrite IH by (intros m' Hm'; apply HQ; now right).
    rewrite (proj1 (host_safe_remove_calls (child dst m) st)).
    apply host_remove_calls_frame. apply HQ; [now left | exact Em].
Qed.

(** The deletion pass on a listing without repetition: each name without
    a namesake among [src_items] is left as its own removal leaves it, and
    [errors] grows by the number of removals that fail. *)
Lemma host_delete_pass_level (dst : path) (src_items dst_items : list string) :
  distinct dst_items = true ->
  forall st,
    (forall k, In k dst_items -> mem_string k src_items = false ->
               lookup (child dst k)
                      (fs (CoreHost.delete_pass h dst src_items dst_items st))
               = left_at h (fs st) (child dst k))
    /\ errors (metrics (CoreHost.delete_pass h dst src_items dst_items st))
       = errors (metrics st)
         + List.length
             (filter (fun k => removal_fails h (fs st) (child dst k))
                     (filter (fun k => negb (mem_string k src_items))
                             dst_items)).
Proof.
  induction dst_items as [|m rest IH]; intros Hd st.
  { simpl. split; [intros k [] | lia]. }
  simpl in Hd. apply andb_true_iff in Hd. destruct Hd as [Hm Hd].
  apply negb_true_iff in Hm. apply mem_string_not_In in Hm.
  simpl. destruct (mem_string m src_items) eqn:Em; simpl.
  - destruct (IH Hd st) as [A B]. split; [|exact B].
    intros k [->|Hk] Hks; [congruence | auto].
  - destruct (host_safe_remove_calls (child dst m) st) as [F E].
    destruct (IH Hd (CoreHost.safe_remove h (child dst m) st)) as [A B].
    assert (Same : forall k, In k rest ->
              lookup (child dst k) (fs (CoreHost.safe_remove h (child dst m) st))
              = lookup (child dst k) (fs st)).
    { intros k Hk. rewrite F. apply host_remove_calls_frame.
      apply diverge_child. intros ->. contradiction. }
    split.
    + intros k [->|Hk] Hks.
      * rewrite host_delete_pass_keeps.
        -- rewrite F. apply host_remove_calls_target.
        -- intros m' Hm' _. apply diverge_child. intros ->. contradiction.
      * rewrite (A k Hk Hks). apply left_at_ext. now apply Same.
    + rewrite B, E.
      rewrite (filter_ext_in
                 (fun k => removal_fails h
                             (fs (CoreHost.safe_remove h (child dst m) st))
                             (child dst k))
                 (fun k => removal_fails h (fs st) (child dst k))).
      * destruct (removal_fails h (fs st) (child dst m)); simpl; lia.
      * intros k Hk. apply removal_fails_ext. apply Same.
        apply filter_In in Hk. tauto.
Qed.

(** The names the deletion pass works on, read off the two listings *)
Lemma unmatched_filter (src : path) (pats : list string) (es ds : listing) :
  filter (fun n => negb (mem_string n
                           (Core.filter_excluded src pats (names es))))
         (names ds)
  = unmatched src pats es ds.
Proof.
  unfold unmatched, Core.filter_excluded. apply filter_ext. intros k.
  rewrite mem_string_filter.
  destruct (is_excluded (child src k) pats src);
    destruct (mem_string k (names es)); reflexivity.
Qed.

Lemma host_listings_at_level (src dst : path) (pats : list string)
      (fs0 : node) (es ds : listing) :
  refuses h src = false -> refuses h dst = false ->
  lookup src fs0 = Some (Dir es) -> lookup dst fs0 = Some (Dir ds) ->
  CoreHost.listings h src dst pats fs0
  = Ok (Core.filter_excluded src pats (names es), names ds).
Proof.
  intros R1 R2 L1 L2. unfold CoreHost.listings, iterdir.
  now rewrite R1, R2, L1, L2.
Qed.

(** A level whose two directories exist and can be listed *)
Lemma host_sync_body_at_level (recurse : state -> outcome * state)
      (task : BackupTask path) (sd : bool) (st : state) (es ds : listing) :
  hides h (source task) = false -> hides h (destination task) = false ->
  refuses h (source task) = false -> refuses h (destination task) = false ->
  lookup (source task) (fs st) = Some (Dir es) ->
  lookup (destination task) (fs st) = Some (Dir ds) ->
  CoreHost.sync_body h recurse task sd st
  = match CoreHost.copy_pass h recurse (source task) (destination task)
            (names ds)
            (Core.filter_excluded (source task) (exclude_patterns task)
                                  (names es)) st with
    | (Raised e, st2) => (Raised e, st2)
    | (Returned, st2) =>
        (Returned,
         if sd
         then CoreHost.delete_pass h (destination task)
                (Core.filter_excluded (source task) (exclude_patterns task)
                                      (names es))
                (names ds) st2
         else st2)
    end.
Proof.
  intros H1 H2 R1 R2 L1 L2. unfold CoreHost.sync_body, Host.read_exists, exists_.
  rewrite H1, L1, (host_mkdir_parents_existing _ _ H2 L2).
  rewrite (@host_listings_at_level _ _ (exclude_patterns task) _ _ _
             R1 R2 L1 L2).
  replace (with_fs (fs st) st) with st by (destruct st; reflexivity).
  destruct (CoreHost.copy_pass h recurse (source task) (destination task)
              (names ds)
              (Core.filter_excluded (source task) (exclude_patterns task)
                                    (names es)) st) as [[|e] st2]; auto.
  destruct sd; reflexivity.
Qed.

End HostRemoval.

(* ================================================================== *)
(** * The host on which every call succeeds *)

(** On the host that refuses and hides nothing and compares exact times,
    the runs of the scenarios are the runs of [Core]: the first run of the
    scenario of the exclusion, the nested scenario at three depths of the
    stack, and the scenarios with a blocked destination, with [stale.bin],
    with the extras, with the siblings, with the subtree and with the
    twins. *)
Lemma quiet_host_runs_the_scenarios :
  CoreHost.sync_recursive quiet_host 1 scenario_task true scenario_state
  = mirror no_denial 1 scenario_task scenario_state
  /\ CoreHost.sync_recursive quiet_host 2 scenario_task true
       scenario_after_first_run
     = mirror no_denial 2 scenario_task scenario_after_first_run
  /\ (forall fuel, In fuel [1; 2; 3] ->
        CoreHost.sync_recursive quiet_host fuel nested_task true nested_state
        = mirror no_denial fuel nested_task nested_state)
  /\ CoreHost.sync_recursive quiet_host 1 blocked_task true blocked_state
     = mirror no_denial 1 blocked_task blocked_state
  /\ CoreHost.sync_recursive quiet_host 1 stale_task false stale_state
     = mirror no_denial 1 stale_task stale_state
  /\ CoreHost.sync_recursive quiet_host 1 extras_task true extras_state
     = mirror no_denial 1 extras_task extras_state
  /\ CoreHost.sync_recursive quiet_host 1 siblings_task true siblings_state
     = mirror no_denial 1 siblings_task siblings_state
  /\ CoreHost.sync_recursive quiet_host 1 subtree_task true subtree_state
     = mirror no_denial 1 subtree_task subtree_state
  /\ CoreHost.sync_recursive quiet_host 2 scenario_task true twin_state
     = mirror no_denial 2 scenario_task twin_state.
Proof.
  repeat split; try (vm_compute; reflexivity).
  intros fuel [<-|[<-|[<-|[]]]]; vm_compute; reflexivity.
Qed.

(* ================================================================== *)
(** * What is counted on a host *)




(* ================================================================== *)
(** * What reaches the caller on a host *)

(** C4, as stated, fails on the code.  When the destination path is taken
    by a regular file, [dst.mkdir(parents=True, exist_ok=True)] raises
    [FileExistsError] outside any [try] block: the exception leaves
    [sync_recursive], nothing is logged and no counter moves.  When the
    destination directory can be listed and not searched, the test
    [existing_dst.is_file()] on [dst/x.txt] raises [PermissionError]
    outside any [try] block, with the same end. *)
Lemma C4_unguarded_failures_reach_the_caller :
  CoreHost.sync_recursive quiet_host 1 blocked_task true blocked_state
  = (Raised FileExistsError, blocked_state)
  /\ CoreHost.sync_recursive unsearchable_host 1 extras_task true extras_state
     = (Raised PermissionError, extras_state)
  /\ trace blocked_state = [] /\ errors (metrics blocked_state) = 0
  /\ trace extras_state = [] /\ errors (metrics extras_state) = 0.
Proof. vm_compute. repeat split; reflexivity. Qed.

(** C4 (amended).  On every host, for every task and state: (1) an
    exception leaves a run only when the stack is used up, when a metadata
    read outside the [try] blocks is refused ([src.exists()], or [is_dir()]
    and [is_file()] on a child of the source or of the destination), or
    when the destination directory cannot be created, and this can be read
    in the file system in which the run ended; the counters and the log
    account for what was done before; (2) a failure to create the
    destination directory does leave the call, with the directories made on
    the way kept, nothing logged and no counter changed; (3, 4) so does a
    refused read of the source, or of a child that has a namesake at the
    destination; (5) a listing that fails is logged and ends the level,
    which returns; (6) every failure of a copy or of a delete is in the log
    and in [errors], and raises nothing. *)
Theorem C4_guarded_failures_are_reported :
  forall (h : host) (fuel : nat) (task : BackupTask path) (sd : bool)
         (st : state),
    (forall e st',
        CoreHost.sync_recursive h fuel task sd st = (Raised e, st') ->
        escapes h (source task) (destination task) (fs st') e)
    /\ (forall fs1 e,
           Host.read_exists h (fs st) (source task) = Ok true ->
           Host.mkdir_parents h (destination task) (fs st) = (fs1, Some e) ->
           CoreHost.sync_recursive h (S fuel) task sd st
           = (Raised e, with_fs fs1 st))
    /\ (hides h (source task) = true ->
        CoreHost.sync_recursive h (S fuel) task sd st
        = (Raised PermissionError, st))
    /\ (forall recurse dst_items m st0,
           mem_string m dst_items = true ->
           (hides h (child (source task) m) = true
            \/ (exists_ (fs st0) (child (source task) m) = true
                /\ hides h (child (destination task) m) = true)) ->
           CoreHost.sync_item h recurse (source task) (destination task)
                              dst_items m st0
           = (Raised PermissionError, st0))
    /\ (forall fs1 e,
           Host.read_exists h (fs st) (source task) = Ok true ->
           Host.mkdir_parents h (destination task) (fs st) = (fs1, None) ->
           CoreHost.listings h (source task) (destination task)
                             (exclude_patterns task) fs1 = Raise e ->
           CoreHost.sync_recursive h (S fuel) task sd st
           = (Returned,
              log_callback
                (match e with
                 | PermissionError =>
                     MsgNoAccess (source task) (destination task)
                                 PermissionError
                 | _ => MsgAccessError (source task) (destination task) e
                 end)
                (with_fs fs1 st)))
    /\ counted st (snd (CoreHost.sync_recursive h fuel task sd st))
    /\ (forall s d st0 fs2 e,
           host_copy_calls h s d (fs st0) = (fs2, Some e) ->
           CoreHost.safe_copy h s d st0
           = incr_errors (log_callback (MsgCopyError s d e) (with_fs fs2 st0)))
    /\ (forall p st0 fs1 e,
           host_remove_calls h p (fs st0) = (fs1, Some e) ->
           CoreHost.safe_remove h p st0
           = incr_errors (log_callback (MsgRemoveError p e) (with_fs fs1 st0))).
Proof.
  intros h fuel task sd st. repeat split.
  - intros e st' H. eapply host_sync_recursive_escapes; eauto.
  - intros. now apply host_mkdir_failure.
  - intros. now apply host_hidden_source.
  - intros. now apply host_hidden_child.
  - intros. now apply host_listing_failure.
  - apply host_sync_recursive_counted.
  - apply host_sync_recursive_counted.
  - intros s d st0 fs2 e H. now rewrite (host_safe_copy_failed h s d st0 H).
  - intros p st0 fs1 e H. now rewrite (host_safe_remove_failed h p st0 H).
Qed.

(** The destination path is taken by a regular file: the exception of
    [mkdir] leaves the run, and it can be read in the file system the run
    ended in.  On the host that refuses [dst/x.txt] and [dst/k] the three
    failures are reported and nothing is raised. *)
Lemma C4_blocked_destination_raises :
  CoreHost.sync_recursive quiet_host 1 blocked_task true blocked_state
  = (Raised FileExistsError, with_fs blocked_fs blocked_state)
  /\ escapes quiet_host ["src"]%string ["dst"]%string blocked_fs FileExistsError
  /\ fst (CoreHost.sync_recursive retry_host 1 retry_task true retry_state)
     = Returned
  /\ errors (metrics (snd (CoreHost.sync_recursive retry_host 1 retry_task
                             true retry_state))) = 3.
Proof.
  pose proof (C4_guarded_failures_are_reported quiet_host 0 blocked_task true
                blocked_state) as [_ [Hmk _]].
  pose proof (C4_guarded_failures_are_reported quiet_host 1 blocked_task true
                blocked_state) as [Hesc _].
  split; [|split].
  - apply (Hmk blocked_fs FileExistsError); reflexivity.
  - apply (Hesc FileExistsError blocked_state). reflexivity.
  - vm_compute. split; reflexivity.
Defined.

(* ================================================================== *)
(** * What the deletion pass removes *)

(** C8, as stated, fails on the code.  Source [x.txt] and [keep.log];
    destination with [x.txt], [keep.log], [old.log], the directory [tmp]
    and [stale.bin]; pattern [*.log]; [delete_extra] set; the host refuses
    [dst/tmp/b].  The name [tmp] does not appear in the filtered source
    listing, and when the run has returned [dst/tmp] is still there: its
    removal stopped at [b], after [a] had been removed, and was counted as
    one error. *)
Lemma C8_refused_entry_is_not_removed :
  let r := CoreHost.sync_recursive purge_host 1 purge_task true purge_state in
  fst r = Returned
  /\ delete_extra purge_task = true
  /\ src_items_of purge_fs ["src"]%string ["*.log"]%string = ["x.txt"]%string
  /\ lookup ["dst"; "tmp"]%string (fs (snd r))
     = Some (Dir [ ("b", File 1 1); ("c", File 1 1) ]%string)
  /\ errors (metrics (snd r)) = 1.
Proof. vm_compute. repeat split; reflexivity. Qed.

(** C8 (amended).  On every host, at a level whose two directories exist
    and can be listed, with [delete_extra] set:
    (1) from whatever state the copy pass left, the deletion pass attempts,
    in the order of the raw destination listing, the removal of the
    destination children that have no namesake among the source children
    that are not excluded: those without a namesake at the source, and
    those whose namesake at the source is excluded; whether the destination
    name itself matches a pattern plays no part.  Each of them is left as
    its own removal leaves it: gone when nothing in or below it is refused,
    else still there (a directory without the entries removed before the
    refusal), and [errors] has grown by the number of removals that failed.
    No other child of the destination is touched by the pass, and nothing
    beside the destination.
    (2) When the copy pass of the level returns, the level returns after
    exactly this deletion pass; when it raises, the pass is not run.
    (3) The copy pass raises only by a refused metadata read of one of its
    items or by an exception out of a recursive call. *)
Theorem C8_deletion_pass_removes_unmatched :
  forall (h : host) (task : BackupTask path) (st : state) (es ds : listing),
    lookup (source task) (fs st) = Some (Dir es) ->
    lookup (destination task) (fs st) = Some (Dir ds) ->
    hides h (source task) = false ->
    hides h (destination task) = false ->
    refuses h (source task) = false ->
    refuses h (destination task) = false ->
    distinct (names ds) = true ->
    let src := source task in
    let dst := destination task in
    let src_items := Core.filter_excluded src (exclude_patterns task) (names es) in
    let extra := unmatched src (exclude_patterns task) es ds in
    (forall st2,
        let st' := CoreHost.delete_pass h dst src_items (names ds) st2 in
        remove_attempts (trace st')
        = remove_attempts (trace st2) ++ map (child dst) extra
        /\ (forall k, In k extra ->
                      lookup (child dst k) (fs st')
                      = left_at h (fs st2) (child dst k))
        /\ (forall k, In k extra ->
                      hides h (child dst k) = false ->
                      (forall q, is_prefix (child dst k) q = true ->
                                 refuses h q = false) ->
                      lookup (child dst k) (fs st') = None)
        /\ (forall k, In k (names ds) -> ~ In k extra ->
                      lookup (child dst k) (fs st')
                      = lookup (child dst k) (fs st2))
        /\ (forall q, diverge dst q = true ->
                      lookup q (fs st') = lookup q (fs st2))
        /\ errors (metrics st')
           = errors (metrics st2)
             + List.length
                 (filter (fun k => removal_fails h (fs st2) (child dst k))
                         extra)
        /\ counted st2 st')
    /\ (forall recurse,
           CoreHost.sync_body h recurse task true st
           = match CoreHost.copy_pass h recurse src dst (names ds)
                                      src_items st with
             | (Raised e, st2) => (Raised e, st2)
             | (Returned, st2) =>
                 (Returned,
                  CoreHost.delete_pass h dst src_items (names ds) st2)
             end)
    /\ (forall recurse st2 e,
           CoreHost.copy_pass h recurse src dst (names ds) src_items st
           = (Raised e, st2) ->
           (e = PermissionError
            /\ exists m, In m src_items
                         /\ (hides h (child src m) = true
                             \/ hides h (child dst m) = true))
           \/ exists st0, recurse st0 = (Raised e, st2)).
Proof.
  intros h task st es ds Lsrc Ldst Hs Hd Rs Rd Dds src dst src_items extra.
  assert (Ex : filter (fun n => negb (mem_string n src_items)) (names ds)
               = extra) by apply unmatched_filter.
  assert (Hin : forall k, In k extra ->
                          In k (names ds) /\ mem_string k src_items = false).
  { intros k Hk. rewrite <- Ex in Hk. apply filter_In in Hk.
    destruct Hk as [H1 H2]. apply negb_true_iff in H2. auto. }
  split; [|split].
  - intros st2 st'.
    destruct (host_delete_pass_level h dst src_items (names ds) Dds st2)
      as [Hleft Herr].
    assert (Hkeep : forall k, In k (names ds) -> ~ In k extra ->
                      lookup (child dst k) (fs st')
                      = lookup (child dst k) (fs st2)).
    { intros k Hk Hnot. apply host_delete_pass_keeps.
      intros m Hm Hms. apply diverge_child. intros ->. apply Hnot.
      rewrite <- Ex. apply filter_In. split; auto. now rewrite Hms. }
    split; [|split; [|split; [|split; [|split; [|split]]]]].
    + unfold st'. now rewrite host_delete_pass_attempts, Ex.
    + intros k Hk. destruct (Hin k Hk) as [H1 H2]. now apply Hleft.
    + intros k Hk Hh Hclean. destruct (Hin k Hk) as [H1 H2].
      unfold st'. rewrite (Hleft k H1 H2). unfold left_at.
      destruct (lookup (child dst k) (fs st2)) as [c|]; auto.
      rewrite Hh. now rewrite (rm_clean h c (child dst k) Hclean).
    + exact Hkeep.
    + intros q Hq. apply host_delete_pass_keeps.
      intros m _ _. now apply diverge_app_l.
    + unfold st'. now rewrite Herr, Ex.
    + apply host_delete_pass_counted.
  - intros recurse.
    apply (host_sync_body_at_level h recurse task true st Hs Hd Rs Rd Lsrc Ldst).
  - intros recurse st2 e H. eapply host_copy_pass_escapes; eauto.
Qed.

(** In the scenario of the counterexample [keep.log], whose namesake at
    the source is excluded, and [old.log], which has none, are removed with
    [stale.bin]; [tmp] is attempted too and stays, without [a]; [x.txt] is
    not touched. *)
Lemma C8_purge_of_the_destination :
  let r := CoreHost.sync_recursive purge_host 1 purge_task true purge_state in
  remove_attempts (trace (snd r))
  = [ ["dst"; "keep.log"]; ["dst"; "old.log"]; ["dst"; "tmp"];
      ["dst"; "stale.bin"] ]%string
  /\ lookup ["dst"; "keep.log"]%string (fs (snd r)) = None
  /\ lookup ["dst"; "old.log"]%string (fs (snd r)) = None
  /\ lookup ["dst"; "tmp"]%string (fs (snd r))
     = left_at purge_host purge_fs ["dst"; "tmp"]%string
  /\ lookup ["dst"; "x.txt"]%string (fs (snd r)) = Some (File 10 100)
  /\ errors (metrics (snd r)) = 1.
Proof.
  destruct (C8_deletion_pass_removes_unmatched
              purge_host purge_task purge_state
              eq_refl eq_refl eq_refl eq_refl eq_refl eq_refl eq_refl)
    as [Hpass [Hlevel _]].
  cbv zeta.
  assert (E : CoreHost.sync_recursive purge_host 1 purge_task true purge_state
              = (Returned,
                 CoreHost.delete_pass purge_host ["dst"]%string
                   (Core.filter_excluded ["src"]%string ["*.log"]%string
                      ["x.txt"; "keep.log"]%string)
                   ["x.txt"; "keep.log"; "old.log"; "tmp"; "stale.bin"]%string
                   purge_state)).
  { simpl CoreHost.sync_recursive. rewrite Hlevel. reflexivity. }
  rewrite E. cbn [snd].
  destruct (Hpass purge_state) as [Ha [Hl [Hg [Hk [_ [He _]]]]]].
  split; [exact Ha|]. split; [|split; [|split; [|split]]].
  - refine (eq_trans (Hl "keep.log"%string _) _);
      [vm_compute; auto | reflexivity].
  - vm_compute. reflexivity.
  - apply (Hl "tmp"%string). vm_compute. auto.
  - vm_compute. reflexivity.
  - vm_compute. reflexivity.
Defined.

(* ================================================================== *)
(** * The equality test in binary64 *)

Lemma read_stat_Ok (h : host) (fs0 : node) (p : path) (s : stat_result) :
  Host.read_stat h fs0 p = Ok s ->
  hides h p = false /\ exists_ fs0 p = true.
Proof.
  unfold Host.read_stat, exists_. destruct (hides h p); [discriminate|].
  destruct (lookup p fs0) as [[sz mt|es]|]; intros H; inversion H; auto.
Qed.




(* ================================================================== *)
(** * Serialisation of a task on Unicode text *)

Module UnicodeFacts.
Import Unicode.

Open Scope Z_scope.

Lemma text_run_app (s : jstate) (l1 l2 : text) :
  run s (l1 ++ l2) = run (run s l1) l2.
Proof. unfold run. apply fold_left_app. Qed.

Lemma hex_value_digit (d : Z) :
  0 <= d < 16 -> hex_value (hex_digit d) = Some d.
Proof.
  intros H.
  assert (C : d = 0 \/ d = 1 \/ d = 2 \/ d = 3 \/ d = 4 \/ d = 5 \/ d = 6
              \/ d = 7 \/ d = 8 \/ d = 9 \/ d = 10 \/ d = 11 \/ d = 12
              \/ d = 13 \/ d = 14 \/ d = 15) by lia.
  repeat (destruct C as [->|C]; [reflexivity|]). subst d. reflexivity.
Qed.

Lemma step_hex (acc : list text) (cur : text) (pend : option Z)
      (digits : list Z) (d : Z) :
  0 <= d < 16 ->
  step (JHex acc cur pend digits) (hex_digit d)
  = match digits with
    | [d1; d2; d3] =>
        close_hex acc cur pend (((d1 * 16 + d2) * 16 + d3) * 16 + d)
    | _ => JHex acc cur pend (digits ++ [d])
    end.
Proof. intros H. unfold step. now rewrite hex_value_digit. Qed.

(** The scanner reads back an escape [\uXXXX]. *)
Lemma text_run_u_escape (acc : list text) (cur : text) (pend : option Z) (v : Z) :
  0 <= v < 65536 ->
  run (JString acc cur pend) (u_escape v) = close_hex acc cur pend v.
Proof.
  intros H. unfold run, u_escape. cbn [fold_left].
  change (step (JString acc cur pend) 92) with (JEscape acc cur pend).
  change (step (JEscape acc cur pend) 117) with (JHex acc cur pend []).
  rewrite step_hex by (Z.div_mod_to_equations; lia). cbn [app].
  rewrite step_hex by (Z.div_mod_to_equations; lia). cbn [app].
  rewrite step_hex by (Z.div_mod_to_equations; lia). cbn [app].
  rewrite step_hex by (Z.div_mod_to_equations; lia).
  f_equal. Z.div_mod_to_equations. lia.
Qed.

(** The scanner reads back the escape of a code point [c], unless [c] is
    a low surrogate that comes right after a high one. *)
Lemma text_run_escape_char (acc : list text) (cur : text) (pend : option Z)
      (c : Z) :
  in_range c = true ->
  (forall hi, pend = Some hi -> is_high hi = true /\ is_low c = false) ->
  run (JString acc cur pend) (escape_char c)
  = if is_high c then JString acc (flush cur pend) (Some c)
    else JString acc (flush cur pend ++ [c]) None.
Proof.
  intros Hr Hp. unfold in_range in Hr.
  apply andb_true_iff in Hr. destruct Hr as [H0 H1].
  apply Z.leb_le in H0. apply Z.ltb_lt in H1.
  unfold escape_char.
  destruct (c =? 34) eqn:E1; [apply Z.eqb_eq in E1; subst c; reflexivity|].
  destruct (c =? 92) eqn:E2; [apply Z.eqb_eq in E2; subst c; reflexivity|].
  destruct (c =? 10) eqn:E3; [apply Z.eqb_eq in E3; subst c; reflexivity|].
  destruct (c =? 13) eqn:E4; [apply Z.eqb_eq in E4; subst c; reflexivity|].
  destruct (c =? 9) eqn:E5; [apply Z.eqb_eq in E5; subst c; reflexivity|].
  destruct (c =? 8) eqn:E6; [apply Z.eqb_eq in E6; subst c; reflexivity|].
  destruct (c =? 12) eqn:E7; [apply Z.eqb_eq in E7; subst c; reflexivity|].
  destruct ((32 <=? c) && (c <=? 126)) eqn:E8.
  - apply andb_true_iff in E8. destruct E8 as [A B].
    apply Z.leb_le in A. apply Z.leb_le in B.
    unfold run. cbn [fold_left]. unfold step. rewrite E1, E2.
    replace (c <? 32) with false by (symmetry; apply Z.ltb_ge; lia).
    replace (is_high c) with false; [reflexivity|].
    unfold is_high. symmetry. apply andb_false_iff. left. apply Z.leb_gt. lia.
  - destruct (c <? 65536) eqn:E9.
    + apply Z.ltb_lt in E9. rewrite text_run_u_escape by lia.
      unfold close_hex. destruct pend as [hi|]; simpl flush.
      * destruct (Hp hi eq_refl) as [_ Hl]. rewrite Hl.
        destruct (is_high c); [reflexivity|].
        now rewrite <- app_assoc.
      * reflexivity.
    + apply Z.ltb_ge in E9.
      rewrite text_run_app, text_run_u_escape by (Z.div_mod_to_equations; lia).
      set (n := c - 65536).
      assert (Hh : is_high (55296 + (n / 1024) mod 1024) = true).
      { unfold is_high. apply andb_true_iff.
        split; apply Z.leb_le; Z.div_mod_to_equations; lia. }
      assert (Hl : is_low (55296 + (n / 1024) mod 1024) = false).
      { unfold is_low. apply andb_false_iff. left. apply Z.leb_gt.
        Z.div_mod_to_equations. lia. }
      assert (Hl2 : is_low (56320 + n mod 1024) = true).
      { unfold is_low. apply andb_true_iff.
        split; apply Z.leb_le; Z.div_mod_to_equations; lia. }
      assert (Hc : is_high c = false).
      { unfold is_high. apply andb_false_iff. right. apply Z.leb_gt. lia. }
      assert (Ev : 65536 + ((55296 + (n / 1024) mod 1024 - 55296) * 1024
                            + (56320 + n mod 1024 - 56320)) = c).
      { unfold n. Z.div_mod_to_equations. lia. }
      rewrite Hc.
      unfold close_hex. destruct pend as [hi|].
      * rewrite Hl, Hh.
        rewrite text_run_u_escape by (Z.div_mod_to_equations; lia).
        unfold close_hex. now rewrite Hl2, Ev.
      * rewrite Hh.
        rewrite text_run_u_escape by (Z.div_mod_to_equations; lia).
        unfold close_hex. now rewrite Hl2, Ev.
Qed.

Lemma joined_tail (c : Z) (cs : text) : joined (c :: cs) = false -> joined cs = false.
Proof.
  destruct cs as [|b r]; [reflexivity|]. cbn [joined].
  intros H. apply orb_false_iff in H. tauto.
Qed.

Lemma text_run_escape (cs : text) :
  forall (acc : list text) (cur : text) (pend : option Z),
    forallb in_range cs = true ->
    joined (match pend with Some hi => hi :: cs | None => cs end) = false ->
    (forall hi, pend = Some hi -> is_high hi = true) ->
    exists cur' pend',
      run (JString acc cur pend) (flat_map escape_char cs)
      = JString acc cur' pend'
      /\ flush cur' pend' = flush cur pend ++ cs.
Proof.
  induction cs as [|c cs IH]; intros acc cur pend Hr Hj Hp.
  - exists cur, pend. split; [reflexivity | now rewrite app_nil_r].
  - cbn [forallb] in Hr. apply andb_true_iff in Hr. destruct Hr as [Hc Hr].
    assert (Hj' : joined (c :: cs) = false).
    { destruct pend as [hi|]; [|exact Hj]. eapply joined_tail; eauto. }
    cbn [flat_map]. rewrite text_run_app, text_run_escape_char; auto.
    2:{ intros hi ->. split; [now apply Hp|].
        cbn [joined] in Hj. apply orb_false_iff in Hj. destruct Hj as [Hj _].
        rewrite (Hp hi eq_refl) in Hj. exact Hj. }
    destruct (is_high c) eqn:Eh.
    + destruct (IH acc (flush cur pend) (Some c) Hr Hj') as [cur' [pend' [R F]]].
      { intros hi E. inversion E; subst. exact Eh. }
      exists cur', pend'. split; [exact R|].
      rewrite F. cbn [flush]. now rewrite <- app_assoc.
    + destruct (IH acc (flush cur pend ++ [c]) None Hr) as [cur' [pend' [R F]]].
      { eapply joined_tail; eauto. }
      { discriminate. }
      exists cur', pend'. split; [exact R|].
      rewrite F. cbn [flush]. now rewrite <- app_assoc.
Qed.

Lemma text_run_encode_string (s : text) (acc : list text) (tail : text) :
  well_coded s = true ->
  run (JValue acc) (encode_string s ++ tail) = run (JAfter (s :: acc)) tail.
Proof.
  intros Hw. unfold well_coded in Hw. apply andb_true_iff in Hw.
  destruct Hw as [Hr Hj]. apply negb_true_iff in Hj.
  unfold encode_string.
  change (run (JValue acc) ((34 :: flat_map escape_char s ++ [34]) ++ tail))
    with (run (JString acc [] None)
              ((flat_map escape_char s ++ [34]) ++ tail)).
  rewrite <- app_assoc, text_run_app.
  destruct (@text_run_escape s acc [] None Hr Hj) as [cur' [pend' [R F]]];
    [discriminate|].
  rewrite R. cbn [app]. unfold run at 1. cbn [fold_left].
  change (step (JString acc cur' pend') 34)
    with (JAfter (flush cur' pend' :: acc)).
  now rewrite F.
Qed.

Lemma text_run_encode_items (l : list text) :
  forall (acc : list text) (tail : text),
    l <> [] -> forallb well_coded l = true ->
    run (JValue acc) (encode_items l ++ tail) = run (JAfter (rev l ++ acc)) tail.
Proof.
  induction l as [|s l IH]; intros acc tail Hne Hw; [congruence|].
  cbn [forallb] in Hw. apply andb_true_iff in Hw. destruct Hw as [Hs Hw].
  destruct l as [|s' l'].
  - cbn [encode_items]. now rewrite text_run_encode_string.
  - change (encode_items (s :: s' :: l'))
      with (encode_string s ++ 44 :: 32 :: encode_items (s' :: l')).
    rewrite <- app_assoc, text_run_encode_string by assumption.
    change (run (JAfter (s :: acc))
                ((44 :: 32 :: encode_items (s' :: l')) ++ tail))
      with (run (JValue (s :: acc)) (encode_items (s' :: l') ++ tail)).
    rewrite IH by (auto; discriminate).
    change (rev (s :: s' :: l')) with (rev (s' :: l') ++ [s]).
    now rewrite <- app_assoc.
Qed.

Lemma text_run_open_value (l : list text) (tail : text) :
  l <> [] ->
  run JOpen (encode_items l ++ tail) = run (JValue []) (encode_items l ++ tail).
Proof.
  destruct l as [|s l]; [congruence|]. intros _.
  destruct l; reflexivity.
Qed.

(** [json.loads(json.dumps(l)) == l] for the lists of strings without a
    high surrogate directly before a low one *)
Lemma text_loads_dumps (l : list text) :
  forallb well_coded l = true -> loads (dumps l) = Some l.
Proof.
  intros Hw. unfold loads, dumps.
  change (run JStart (91 :: encode_items l ++ [93]))
    with (run JOpen (encode_items l ++ [93])).
  destruct l as [|s l].
  - reflexivity.
  - rewrite text_run_open_value, text_run_encode_items by (auto; discriminate).
    rewrite app_nil_r.
    change (run (JAfter (rev (s :: l))) [93]) with (JEnd (rev (s :: l))).
    cbv beta iota. now rewrite rev_involutive.
Qed.

Lemma text_lower_str_bool (b : bool) : lower_is_true (str_bool b) = b.
Proof. destruct b; reflexivity. Qed.

Close Scope Z_scope.

End UnicodeFacts.

Section UnicodeTask.

Variable P : Type.
Variable Path : Unicode.text -> P.
Variable str : P -> Unicode.text.

(** [pathlib]: a path object is rebuilt from its string. *)
Hypothesis Path_str : forall p : P, Path (str p) = p.


End UnicodeTask.


